(** * Creative ZIP upload handler: validator and clickthrough rewriter

    A shallow embedding of [validateFile], [validateZipFile] and
    [processClickthroughUrls] as they are written in [src/handler.js] and in
    the second handler file of the repository ([src/unnamed/part_001]),
    together with what these functions rely on: the JavaScript string
    primitives and the regular-expression matcher, the trims of lodash, which
    cut a string into symbols, the [sprintf] that [VError] gives its message
    to, and the longest string of the engine; and of the functions
    around them: [getS3UploadKey], [getFiles], [uploadDirectoryToS3],
    [extractFiles], the three functions on the temporary folders and the loop
    of [handler] over the uploaded archives, over a file system of files and
    directories and storage services that are parameters.

    JavaScript strings are sequences of UTF-16 code units, and a regular
    expression without the [u] flag works on code units; a string is
    therefore a [list N]. *)

From Stdlib Require Import Ascii String.
From Stdlib Require Import List NArith Bool Arith Lia.
Import ListNotations.

Set Implicit Arguments.

(** ** Strings *)

Definition char := N.
Definition jsstring := list char.

Definition str (s : string) : jsstring :=
  map N_of_ascii (list_ascii_of_string s).
Arguments str s%_string.

(** The double quote cannot be written inside a literal; both quote
    characters and the other punctuation the code names get a constant. *)
Definition dq : char := 34%N.
Definition sq : char := 39%N.
Definition comma : char := 44%N.
Definition dollar : char := 36%N.
Definition ampersand : char := 38%N.
Definition backtick : char := 96%N.
Definition lparen : char := 40%N.
Definition rparen : char := 41%N.
Definition equals : char := 61%N.

Definition mem (c : char) (l : list char) : bool := existsb (N.eqb c) l.

Fixpoint jseq (a b : jsstring) : bool :=
  match a, b with
  | [], [] => true
  | x :: a', y :: b' => N.eqb x y && jseq a' b'
  | _, _ => false
  end.

Module Js.

(** [s.startsWith(p)] *)
Fixpoint starts_with (p s : jsstring) : bool :=
  match p, s with
  | [], _ => true
  | x :: p', y :: s' => N.eqb x y && starts_with p' s'
  | _ :: _, [] => false
  end.

(** [s.indexOf(p)], [None] standing for -1. *)
Fixpoint indexOf (p s : jsstring) : option nat :=
  if starts_with p s then Some 0
  else match s with
       | [] => None
       | _ :: s' => option_map S (indexOf p s')
       end.

(** [GetSubstitution] of ECMA-262 for a search by string: there are no
    captures, so only [$$], [$&], [$`] and [$'] are patterns; every other
    [$] stands for itself. *)
Fixpoint get_substitution (matched before after templ : jsstring) : jsstring :=
  match templ with
  | [] => []
  | c :: t =>
      if N.eqb c dollar then
        match t with
        | [] => [dollar]
        | d :: t' =>
            if N.eqb d dollar then dollar :: get_substitution matched before after t'
            else if N.eqb d ampersand then matched ++ get_substitution matched before after t'
            else if N.eqb d backtick then before ++ get_substitution matched before after t'
            else if N.eqb d sq then after ++ get_substitution matched before after t'
            else dollar :: get_substitution matched before after t
        end
      else c :: get_substitution matched before after t
  end.

(** [s.replace(pattern, replacement)] with a string pattern and a string
    replacement: the first occurrence only, the replacement expanded by
    [get_substitution]. *)
Definition replace (pattern replacement s : jsstring) : jsstring :=
  match indexOf pattern s with
  | None => s
  | Some i =>
      let before := firstn i s in
      let after := skipn (i + length pattern) s in
      before ++ get_substitution pattern before after replacement ++ after
  end.

(** [s.split(sep)] for a non-empty separator.  [skip] counts the code units
    of a separator just recognised that are still to be passed over, [cur]
    is the piece being collected. *)
Fixpoint split_from (sep s : jsstring) (skip : nat) (cur : jsstring) : list jsstring :=
  match s with
  | [] => [cur]
  | c :: s' =>
      match skip with
      | S n => split_from sep s' n cur
      | O =>
          if starts_with sep s
          then cur :: split_from sep s' (length sep - 1) []
          else split_from sep s' 0 (cur ++ [c])
      end
  end.

Definition split (sep s : jsstring) : list jsstring := split_from sep s 0 [].

(** [a[0]] on the array a split returns (never empty). *)
Definition first (a : list jsstring) : jsstring := hd [] a.

End Js.

(** ** Regular expressions

    The backtracking matcher of ECMA-262 (section "Pattern Semantics"), in the
    continuation-passing style of the standard: a matcher takes the input that
    is left and a continuation, and returns what the continuation returns on
    the first way of matching that it accepts. *)

Module Regex.

(** [\s]: WhiteSpace and LineTerminator of ECMA-262. *)
Definition is_space (c : char) : bool :=
  mem c [9; 10; 11; 12; 13; 32; 160; 5760; 8192; 8193; 8194; 8195; 8196;
         8197; 8198; 8199; 8200; 8201; 8202; 8232; 8233; 8239; 8287; 12288;
         65279]%N.

(** [.] matches everything but a LineTerminator. *)
Definition is_line_terminator (c : char) : bool :=
  mem c [10; 13; 8232; 8233]%N.

(** [Canonicalize] under the [i] flag.  A code unit of 128 and above never
    canonicalizes to an ASCII one, so against the ASCII literals of the
    patterns below only the ASCII letters change. *)
Definition canonicalize (c : char) : char :=
  if (97 <=? c)%N && (c <=? 122)%N then (c - 32)%N else c.

Definition char_matches (icase : bool) (pat c : char) : bool :=
  if icase then N.eqb (canonicalize c) (canonicalize pat) else N.eqb c pat.

Inductive class_item : Type :=
| CChar (c : char)
| CSpace.

Definition item_matches (icase : bool) (c : char) (i : class_item) : bool :=
  match i with
  | CChar p => char_matches icase p c
  | CSpace => is_space c
  end.

Inductive regex : Type :=
| Eps
| Chr (c : char)
| Dot
| Space
| NonSpace
| Class (negated : bool) (items : list class_item)
| Seq (a b : regex)
| Star (a : regex)
| Plus (a : regex)
| Opt (a : regex)
| Group (a : regex).

Definition continuation := jsstring -> option jsstring.

Definition one (test : char -> bool) (k : continuation) (s : jsstring) : option jsstring :=
  match s with
  | c :: s' => if test c then k s' else None
  | [] => None
  end.

Definition or_else (A : Type) (x : option A) (y : option A) : option A :=
  match x with Some _ => x | None => y end.

(** [RepeatMatcher] with no upper bound: greedy, and an iteration that
    consumes nothing is refused.  Every accepted iteration shortens the
    input, so [length s] iterations are all there can be. *)
Fixpoint repeat (m : continuation -> jsstring -> option jsstring)
  (k : continuation) (fuel : nat) (s : jsstring) {struct fuel} : option jsstring :=
  match fuel with
  | O => k s
  | S fuel' =>
      or_else
        (m (fun s' => if length s' <? length s then repeat m k fuel' s' else None) s)
        (k s)
  end.

Fixpoint rmatch (icase : bool) (r : regex) (k : continuation) (s : jsstring)
  {struct r} : option jsstring :=
  match r with
  | Eps => k s
  | Chr p => one (char_matches icase p) k s
  | Dot => one (fun c => negb (is_line_terminator c)) k s
  | Space => one is_space k s
  | NonSpace => one (fun c => negb (is_space c)) k s
  | Class negated items =>
      one (fun c => xorb negated (existsb (item_matches icase c) items)) k s
  | Seq a b => rmatch icase a (rmatch icase b k) s
  | Star a => repeat (rmatch icase a) k (length s) s
  | Plus a => rmatch icase a (fun s1 => repeat (rmatch icase a) k (length s1) s1) s
  | Opt a =>
      or_else
        (rmatch icase a (fun s' => if length s' <? length s then k s' else None) s)
        (k s)
  | Group a => rmatch icase a k s
  end.

(** A compiled pattern: the tree and the [i] flag.  The [g] flag is in the
    choice of [match_all] and [replace_all]; [m] only changes [^] and [$],
    which no pattern here uses. *)
Record pattern : Type := { tree : regex; ignore_case : bool }.

(** One attempt at the start of [s]: the matched text and what follows. *)
Definition match_here (p : pattern) (s : jsstring) : option (jsstring * jsstring) :=
  match rmatch (ignore_case p) (tree p) (fun rest => Some rest) s with
  | Some rest => Some (firstn (length s - length rest) s, rest)
  | None => None
  end.

(** [s.match(p)] with the [g] flag: the matched texts from left to right.
    After a match the search resumes where it ended, one further on when the
    match was empty; [skip] counts the code units of the last match still to
    be passed over.  [null] is the empty list. *)
Fixpoint match_from (p : pattern) (s : jsstring) (skip : nat) : list jsstring :=
  match skip with
  | S n => match s with
           | [] => []
           | _ :: s' => match_from p s' n
           end
  | O =>
      match match_here p s with
      | Some (m, _) =>
          m :: match s with
               | [] => []
               | _ :: s' => match_from p s' (length m - 1)
               end
      | None => match s with
                | [] => []
                | _ :: s' => match_from p s' 0
                end
      end
  end.

Definition match_all (p : pattern) (s : jsstring) : list jsstring := match_from p s 0.

(** [s.replace(p, f)] with the [g] flag and a function: every match is
    replaced by what [f] returns on it, the text between matches is kept. *)
Fixpoint replace_from (p : pattern) (f : jsstring -> jsstring) (s : jsstring)
  (skip : nat) : jsstring :=
  match skip with
  | S n => match s with
           | [] => []
           | _ :: s' => replace_from p f s' n
           end
  | O =>
      match match_here p s with
      | Some (m, _) =>
          f m ++ match s with
                 | [] => []
                 | c :: s' =>
                     match m with
                     | [] => c :: replace_from p f s' 0
                     | _ :: m' => replace_from p f s' (length m')
                     end
                 end
      | None => match s with
                | [] => []
                | c :: s' => c :: replace_from p f s' 0
                end
      end
  end.

Definition replace_all (p : pattern) (f : jsstring -> jsstring) (s : jsstring) : jsstring :=
  replace_from p f s 0.

(** A literal run of characters. *)
Fixpoint lit (s : jsstring) (rest : regex) : regex :=
  match s with
  | [] => rest
  | c :: s' => Seq (Chr c) (lit s' rest)
  end.

(** The patterns of the libraries use more than the trees above have:
    alternatives, lazy repetition, a lookahead.  They are written with the
    terms of the same semantics, a term being a matcher that takes its
    continuation. *)
Definition matcher : Type := continuation -> continuation.

Definition alt (a b : matcher) : matcher := fun k s => or_else (a k s) (b k s).

Definition opt (a : matcher) : matcher :=
  fun k s => or_else (a (fun s' => if length s' <? length s then k s' else None) s) (k s).

Definition star (a : matcher) : matcher := fun k s => repeat a k (length s) s.

(** [RepeatMatcher] when the quantifier is lazy: the continuation first. *)
Fixpoint repeat_lazy (m : matcher) (k : continuation) (fuel : nat) (s : jsstring)
  {struct fuel} : option jsstring :=
  match fuel with
  | O => k s
  | S fuel' =>
      or_else
        (k s)
        (m (fun s' => if length s' <? length s then repeat_lazy m k fuel' s' else None) s)
  end.

Definition lazy_star (a : matcher) : matcher := fun k s => repeat_lazy a k (length s) s.

Definition lookahead (a : matcher) : matcher :=
  fun k s => match a (fun rest => Some rest) s with Some _ => k s | None => None end.

End Regex.

(** ** lodash *)

Module Lodash.

(** [_.includes(string, target)] *)
Definition includes (s target : jsstring) : bool :=
  match Js.indexOf target s with Some _ => true | None => false end.

(** [_.find(array, predicate)]; [None] is [undefined]. *)
Definition find (A : Type) (l : list A) (p : A -> bool) : option A := List.find p l.

(** [_.filter(array, predicate)] *)
Definition filter (A : Type) (l : list A) (p : A -> bool) : list A := List.filter p l.

(** [_.last(array)] on the array a split returns (never empty). *)
Definition last (a : list jsstring) : jsstring := List.last a [].

(** *** Symbols

    Given [chars], the trims take the string and [chars] apart into symbols
    with [stringToArray], and compare symbol with symbol.  A string with no
    code unit of [reHasUnicode] is cut into its code units; any other is cut
    by [reUnicode], which keeps a surrogate pair, a base with its combining
    marks, and what a zero-width joiner joins, in one symbol. *)

Definition in_range (lo hi c : char) : bool := (lo <=? c)%N && (c <=? hi)%N.

(** [rsAstralRange], [rsComboRange], [rsVarRange] and [rsZWJ]. *)
Definition rsAstral (c : char) : bool := in_range 0xD800%N 0xDFFF%N c.

Definition rsCombo (c : char) : bool :=
  in_range 0x0300%N 0x036F%N c || in_range 0xFE20%N 0xFE2F%N c || in_range 0x20D0%N 0x20FF%N c.

Definition rsVar (c : char) : bool := N.eqb c 0xFE0E%N || N.eqb c 0xFE0F%N.

Definition rsZWJ (c : char) : bool := N.eqb c 0x200D%N.

(** [reHasUnicode]: the class of the four above. *)
Definition reHasUnicode (c : char) : bool := rsZWJ c || rsAstral c || rsCombo c || rsVar c.

Definition hasUnicode (s : jsstring) : bool := existsb reHasUnicode s.

(** The terms of [reUnicode]. *)
Import Regex.

(** [\ud83c[\udffb-\udfff]] *)
Definition rsFitz : matcher :=
  fun k => one (N.eqb 0xD83C%N) (one (in_range 0xDFFB%N 0xDFFF%N) k).

(** [(?:\ud83c[\udde6-\uddff]){2}] *)
Definition rsRegional : matcher :=
  fun k =>
    one (N.eqb 0xD83C%N)
      (one (in_range 0xDDE6%N 0xDDFF%N)
         (one (N.eqb 0xD83C%N) (one (in_range 0xDDE6%N 0xDDFF%N) k))).

(** [[\ud800-\udbff][\udc00-\udfff]] *)
Definition rsSurrPair : matcher :=
  fun k => one (in_range 0xD800%N 0xDBFF%N) (one (in_range 0xDC00%N 0xDFFF%N) k).

Definition rsNonAstral : matcher := one (fun c => negb (rsAstral c)).

(** [rsModifier] is [(?:rsCombo|rsFitz)]. *)
Definition reOptMod : matcher := opt (alt (one rsCombo) rsFitz).

Definition rsOptVar : matcher := opt (one rsVar).

(** [(?:rsZWJ(?:rsNonAstral|rsRegional|rsSurrPair)rsOptVar reOptMod)*] *)
Definition rsOptJoin : matcher :=
  star (fun k =>
          one rsZWJ
            (alt rsNonAstral (alt rsRegional rsSurrPair) (rsOptVar (reOptMod k)))).

Definition rsSeq : matcher := fun k => rsOptVar (reOptMod (rsOptJoin k)).

(** [(?:rsNonAstral rsCombo?|rsCombo|rsRegional|rsSurrPair|rsAstral)] *)
Definition rsSymbol : matcher :=
  alt (fun k => rsNonAstral (opt (one rsCombo) k))
    (alt (one rsCombo) (alt rsRegional (alt rsSurrPair (one rsAstral)))).

(** [reUnicode] is [rsFitz(?=rsFitz)|rsSymbol rsSeq], with the flag [g]. *)
Definition reUnicode : matcher :=
  alt (fun k => rsFitz (lookahead rsFitz k)) (fun k => rsSymbol (rsSeq k)).

(** [string.match(reUnicode) || []]: the matches from left to right.  A
    match is never empty, so [length s] turns are all there can be. *)
Fixpoint matches (fuel : nat) (s : jsstring) : list jsstring :=
  match fuel, s with
  | S fuel', _ :: s' =>
      match reUnicode (fun rest => Some rest) s with
      | Some rest => firstn (length s - length rest) s :: matches fuel' rest
      | None => matches fuel' s'
      end
  | _, _ => []
  end.

Definition unicodeToArray (s : jsstring) : list jsstring := matches (length s) s.

(** [string.split('')] *)
Definition asciiToArray (s : jsstring) : list jsstring := map (fun c => [c]) s.

Definition stringToArray (s : jsstring) : list jsstring :=
  if hasUnicode s then unicodeToArray s else asciiToArray s.

(** [baseIndexOf(chrSymbols, symbol, 0) > -1] *)
Definition among (chrSymbols : list jsstring) (symbol : jsstring) : bool :=
  existsb (jseq symbol) chrSymbols.

(** [charsStartIndex]: the index of the first symbol that is not among
    [chrSymbols], the length when there is none. *)
Fixpoint charsStartIndex (strSymbols chrSymbols : list jsstring) : nat :=
  match strSymbols with
  | symbol :: rest =>
      if among chrSymbols symbol then S (charsStartIndex rest chrSymbols) else 0
  | [] => 0
  end.

(** [charsEndIndex(strSymbols, chrSymbols) + 1]: one past the index of the
    last symbol that is not among [chrSymbols], 0 when there is none. *)
Definition charsEnd (strSymbols chrSymbols : list jsstring) : nat :=
  length strSymbols - charsStartIndex (rev strSymbols) chrSymbols.

(** [castSlice(array, start, end).join('')] *)
Definition castSlice (array : list jsstring) (start finish : nat) : jsstring :=
  concat (skipn start (firstn finish array)).

(** [_.trimStart(string, chars)], [_.trimEnd(string, chars)] and
    [_.trim(string, chars)] with [chars] given: an empty [string] or [chars]
    returns [string] as it is. *)
Definition trimStart (s chars : jsstring) : jsstring :=
  match s, chars with
  | [], _ | _, [] => s
  | _, _ =>
      let strSymbols := stringToArray s in
      let start := charsStartIndex strSymbols (stringToArray chars) in
      castSlice strSymbols start (length strSymbols)
  end.

Definition trimEnd (s chars : jsstring) : jsstring :=
  match s, chars with
  | [], _ | _, [] => s
  | _, _ =>
      let strSymbols := stringToArray s in
      let finish := charsEnd strSymbols (stringToArray chars) in
      castSlice strSymbols 0 finish
  end.

Definition trim (s chars : jsstring) : jsstring :=
  match s, chars with
  | [], _ | _, [] => s
  | _, _ =>
      let strSymbols := stringToArray s in
      let chrSymbols := stringToArray chars in
      let start := charsStartIndex strSymbols chrSymbols in
      let finish := charsEnd strSymbols chrSymbols in
      castSlice strSymbols start finish
  end.

End Lodash.

(** ** Outcomes and the log of reads

    [validateZipFile] either returns or throws; an error is kept as its
    message.  The one effect besides is the call
    of the injected [_readRootHtmlFile], which may itself throw: a computation
    threads the list of the paths read so far. *)

Inductive outcome (A : Type) : Type :=
| Returns (a : A)
| Throws (message : jsstring).
Arguments Returns {A} a.
Arguments Throws {A} message.

Definition io (A : Type) : Type := list jsstring -> outcome A * list jsstring.

Definition ret (A : Type) (a : A) : io A := fun log => (Returns a, log).

Definition throw (A : Type) (message : jsstring) : io A := fun log => (Throws message, log).
Arguments throw {A} message.

Definition bind (A B : Type) (m : io A) (f : A -> io B) : io B :=
  fun log =>
    match m log with
    | (Returns a, log') => f a log'
    | (Throws e, log') => (Throws e, log')
    end.

Definition call (reader : jsstring -> outcome jsstring) (path : jsstring) : io jsstring :=
  fun log => (reader path, log ++ [path]).

Notation "x <- m ;; f" := (bind m (fun x => f))
  (at level 61, m at next level, right associativity).

Definition run (A : Type) (m : io A) : outcome A * list jsstring := m [].
Definition result (A : Type) (m : io A) : outcome A := fst (run m).
Definition reads (A : Type) (m : io A) : list jsstring := snd (run m).

(** ** The messages of [VError]

    [VError] gives the string it is constructed with to [sprintf] of
    extsprintf, as a format and with no argument.  [jsSprintf] looks for the
    first conversion with a pattern: a run without [%] (its first group), a
    [%], flags (taken lazily), a width and a precision (both optional),
    length modifiers (taken lazily) and the character of the conversion.  It
    adds the text before the [%] to the result and cuts as many code units
    as the match has off the front of the format.  The conversion [%] adds a
    [%]; any other asks for an argument and, there being none, throws an
    [Error]. *)

Module Extsprintf.

Import Regex.

Definition percent : char := 37%N.

Definition is_flag (c : char) : bool := mem c (str "'-+ #0").
Definition is_digit (c : char) : bool := (48 <=? c)%N && (c <=? 57)%N.
Definition is_nonzero_digit (c : char) : bool := (49 <=? c)%N && (c <=? 57)%N.
Definition is_length_modifier (c : char) : bool := mem c (str "lhjztL").
Definition is_conversion (c : char) : bool := mem c (str "diouxXfFeEgGaAcCsSp%jr").

(** [[1-9]\d*] *)
Definition number : matcher := fun k => one is_nonzero_digit (star (one is_digit) k).

(** What follows the [%]: flags, width, precision, length modifiers and the
    conversion. *)
Definition specification : matcher :=
  fun k =>
    lazy_star (one is_flag)
      (opt number
         (opt (fun k => one (N.eqb 46) (number k))
            (lazy_star (one is_length_modifier) (one is_conversion k)))).

Definition conversion : matcher :=
  fun k =>
    star (one (fun c => negb (N.eqb c percent)))
      (one (fun c => N.eqb c percent) (specification k)).

(** [re.exec(fmt)], the pattern having no flag: the text of the first match,
    wherever it starts. *)
Fixpoint exec (fmt : jsstring) : option jsstring :=
  match conversion (fun rest => Some rest) fmt with
  | Some rest => Some (firstn (length fmt - length rest) fmt)
  | None =>
      match fmt with
      | _ :: fmt' => exec fmt'
      | [] => None
      end
  end.

(** The first group of a match: the text before its [%]. *)
Fixpoint normal_text (matched : jsstring) : jsstring :=
  match matched with
  | c :: rest => if N.eqb c percent then [] else c :: normal_text rest
  | [] => []
  end.

(** The message of the [Error] thrown for a conversion without an argument.
    Its wording depends on the version of extsprintf: 1.3 says this, 1.4
    names the format and the conversion. *)
Definition too_few_arguments : jsstring := str "too few args to sprintf".

(** The loop of [jsSprintf] when no argument follows the format.  Every turn
    shortens [fmt], so [length fmt] turns are all there can be. *)
Fixpoint turns (fuel : nat) (fmt ret : jsstring) : outcome jsstring :=
  match fuel with
  | O => Returns (ret ++ fmt)
  | S fuel' =>
      match exec fmt with
      | None => Returns (ret ++ fmt)
      | Some matched =>
          let ret := ret ++ normal_text matched in
          let fmt := skipn (length matched) fmt in
          if N.eqb (List.last matched 0%N) percent
          then turns fuel' fmt (ret ++ [percent])
          else Throws too_few_arguments
      end
  end.

Definition sprintf (fmt : jsstring) : outcome jsstring := turns (length fmt) fmt [].

End Extsprintf.

(** [throw new VError(format)]: the message of what is thrown, which is the
    [VError] with the text [sprintf] makes of the format, or the [Error] of
    [sprintf]. *)
Definition thrown_message (format : jsstring) : jsstring :=
  match Extsprintf.sprintf format with
  | Returns message => message
  | Throws message => message
  end.

(** ** What the two handler files share *)

Definition EXTRACT_DIRECTORY : jsstring :=
  str "../../../../../tmp/rich-media-markup-extracted".

(** A value that is [undefined] or a string is falsy when it is [undefined]
    or the empty string. *)
Definition falsy (v : option jsstring) : bool :=
  match v with
  | None => true
  | Some s => length s =? 0
  end.

(** The indirection expression, with the [ + ] that follows it. *)
Definition decodeUri : jsstring :=
  str "decodeURIComponent(window.location.href.split('?adserver=')[1]) + ".

Import Regex.

Notation "a +++ b" := (Seq a b) (at level 60, right associativity).

Definition quote : regex := Class false [CChar dq; CChar sq].

(** The pattern [.exit\([^\)]+\)] with the flags [gm]. *)
Definition exit_call : pattern :=
  {| tree := Dot +++ lit (str "exit") (Chr lparen +++ Plus (Class true [CChar rparen]) +++ Chr rparen);
     ignore_case := false |}.

(** The pattern [clickTag\s*=\s*Q(G)Q] with the flags [gi], where [Q] is the
    class of the double and the single quote and the group [G] is a greedy
    run of [\S]. *)
Definition click_tag : pattern :=
  {| tree := lit (str "clickTag")
               (Star Space +++ Chr equals +++ Star Space +++ quote +++ Group (Star NonSpace) +++ quote);
     ignore_case := true |}.

(** The pattern [(Qhttps?:\/\/[^\s]+Q,)] with the flag [g]. *)
Definition quoted_url_comma : pattern :=
  {| tree := Group (quote +++ lit (str "http")
                      (Opt (Chr 115%N) +++ lit (str "://")
                         (Plus (Class true [CSpace]) +++ quote +++ Chr comma)));
     ignore_case := false |}.

(** The pattern [(Qhttps?:\/\/[^\s]+Q)] with the flag [g]. *)
Definition quoted_url : pattern :=
  {| tree := Group (quote +++ lit (str "http")
                      (Opt (Chr 115%N) +++ lit (str "://")
                         (Plus (Class true [CSpace]) +++ quote)));
     ignore_case := false |}.

(** The root file's own base name, as both files derive it. *)
Definition rootHtmlFileBaseName (fileBaseName rootHtmlFile : jsstring) : jsstring :=
  Js.first
    (Js.split (str "/")
       (Js.first
          (Js.split (str ".html")
             (Js.replace (EXTRACT_DIRECTORY ++ str "/" ++ fileBaseName ++ str "/") []
                rootHtmlFile)))).

(** The template literal of the base-name rule, and the message that is
    thrown when [VError] is constructed with it.  The other messages of
    [validateZipFile] hold no [%]: [sprintf] returns them as they are. *)
Definition mismatch_format (fileBaseName derived : jsstring) : jsstring :=
  str "Zip file name '" ++ fileBaseName ++ str "' does not contain basename '"
    ++ derived ++ str "'".

Definition mismatch_message (fileBaseName derived : jsstring) : jsstring :=
  thrown_message (mismatch_format fileBaseName derived).

(** ** [src/handler.js] *)

Module Handler.

(** [validateZipFile].  [files] is what the awaited [_getFiles] returned,
    [type] is [None] when the caller leaves it out. *)
Definition validateZipFile (type : option jsstring) (fileBaseName : jsstring)
  (files : list jsstring) (_readRootHtmlFile : jsstring -> outcome jsstring) : io bool :=
  let type := match type with Some t => t | None => str "gwd" end in
  let rootHtmlFile := Lodash.find files (fun file => Lodash.includes file (str ".html")) in
  match rootHtmlFile with
  | None => throw (str "Zip file does not contain a root .html file")
  | Some rootHtmlFile =>
      if falsy (Some rootHtmlFile)
      then throw (str "Zip file does not contain a root .html file")
      else if jseq type (str "gwd") then
        rootHtmlString <- call _readRootHtmlFile rootHtmlFile ;;
        if length rootHtmlString <? 1
        then throw (str "Root .html file is missing content")
        else
          let containsGWDMeta :=
            Lodash.includes rootHtmlString
              (str "name=" ++ [dq] ++ str "generator" ++ [dq] ++ str " content="
                 ++ [dq] ++ str "Google Web Designer") in
          if negb containsGWDMeta
          then throw (str "Root .html file does not contain Google Web Designer metadata")
          else
            let hasAssets :=
              0 <? length (Lodash.filter files (fun file => Lodash.includes file (str "assets/"))) in
            let linksAssets :=
              Lodash.includes rootHtmlString (str "src=" ++ [dq] ++ str "assets/") in
            if linksAssets && negb hasAssets
            then throw (str "Zip file is missing assets folder for linked assets")
            else ret true
      else
        let derived := rootHtmlFileBaseName fileBaseName rootHtmlFile in
        if negb (Lodash.includes fileBaseName derived)
        then throw (mismatch_message fileBaseName derived)
        else
          rootHtmlString <- call _readRootHtmlFile rootHtmlFile ;;
          if length rootHtmlString <? 1
          then throw (str "Root .html file is missing content")
          else ret true
  end.

(** [validateFile]: the [switch] on [exporter], [None] when the form has no
    such field. *)
Definition validateFile (fileBaseName : jsstring) (exporter : option jsstring)
  (files : list jsstring) (_readRootHtmlFile : jsstring -> outcome jsstring) : io unit :=
  match exporter with
  | Some e =>
      if jseq e (str "gwd") then
        _ <- validateZipFile exporter fileBaseName files _readRootHtmlFile ;; ret tt
      else if jseq e (str "conversion") then
        _ <- validateZipFile exporter fileBaseName files _readRootHtmlFile ;; ret tt
      else
        _ <- validateZipFile (Some (str "gwd")) fileBaseName files _readRootHtmlFile ;; ret tt
  | None =>
      _ <- validateZipFile (Some (str "gwd")) fileBaseName files _readRootHtmlFile ;; ret tt
  end.

(** The arrow function given to [params.replace(urlRegex, ...)]: first the
    trimming, then the text it returns. *)
Definition trimmedUrl (isTypeConversion : bool) (url : jsstring) : jsstring :=
  if isTypeConversion
  then Lodash.trim (Lodash.trim url [sq]) [dq]
  else Lodash.trimEnd
         (Lodash.trimStart (Lodash.trimEnd (Lodash.trimStart url [sq]) [sq; comma]) [dq])
         [dq; comma].

Definition replacer (isTypeConversion : bool) (url : jsstring) : jsstring :=
  decodeUri ++ [dq] ++ trimmedUrl isTypeConversion url ++ [dq].

Definition formattedParams (isTypeConversion : bool) (urlRegex : pattern)
  (params : jsstring) : jsstring :=
  replace_all urlRegex (replacer isTypeConversion) params.

(** [processClickthroughUrls(body, type)]; [_.each] over the matches, which
    are none when [match] returns [null]. *)
Definition processClickthroughUrls (body : jsstring) (type : option jsstring) : jsstring :=
  let isTypeConversion :=
    match type with Some t => jseq t (str "conversion") | None => false end in
  let regex := if isTypeConversion then click_tag else exit_call in
  let urlRegex := if isTypeConversion then quoted_url else quoted_url_comma in
  fold_left
    (fun output params =>
       Js.replace params (formattedParams isTypeConversion urlRegex params) output)
    (match_all regex body) body.

End Handler.

(** ** [src/unnamed/part_001], the second handler file *)

Module Part001.

Definition validateZipFile (type : option jsstring) (fileBaseName : jsstring)
  (files : list jsstring) (_readRootHtmlFile : jsstring -> outcome jsstring) : io bool :=
  let type := match type with Some t => t | None => str "gwd" end in
  let rootHtmlFile := Lodash.find files (fun file => Lodash.includes file (str ".html")) in
  match rootHtmlFile with
  | None => throw (str "Zip file does not contain a root .html file")
  | Some rootHtmlFile =>
      if falsy (Some rootHtmlFile)
      then throw (str "Zip file does not contain a root .html file")
      else
        _ <- (if jseq type (str "conversion") then
                let derived := rootHtmlFileBaseName fileBaseName rootHtmlFile in
                if negb (Lodash.includes fileBaseName derived)
                then throw (mismatch_message fileBaseName derived)
                else ret tt
              else ret tt) ;;
        rootHtmlString <- call _readRootHtmlFile rootHtmlFile ;;
        if length rootHtmlString <? 1
        then throw (str "Root .html file is missing content")
        else
          _ <- (if jseq type (str "gwd") then
                  let containsGWDMeta :=
                    Lodash.includes rootHtmlString
                      (str "name=" ++ [dq] ++ str "generator" ++ [dq] ++ str " content="
                         ++ [dq] ++ str "Google Web Designer") in
                  if negb containsGWDMeta
                  then throw (str "Root .html file does not contain Google Web Designer metadata")
                  else
                    let hasAssets :=
                      0 <? length (Lodash.filter files
                                     (fun file => Lodash.includes file (str "assets/"))) in
                    let linksAssets :=
                      Lodash.includes rootHtmlString (str "src=" ++ [dq] ++ str "assets/") in
                    if linksAssets && negb hasAssets
                    then throw (str "Zip file is missing assets folder for linked assets")
                    else ret tt
                else ret tt) ;;
          ret true
  end.

Definition validateFile (fileBaseName : jsstring) (type : option jsstring)
  (files : list jsstring) (_readRootHtmlFile : jsstring -> outcome jsstring) : io unit :=
  _ <- validateZipFile type fileBaseName files _readRootHtmlFile ;; ret tt.

(** The arrow function given to [params.replace(urlRegex, ...)]. *)
Definition trimmedUrl (isGwd : bool) (url : jsstring) : jsstring :=
  if isGwd
  then Lodash.trimEnd
         (Lodash.trimStart (Lodash.trimEnd (Lodash.trimStart url [sq]) [sq; comma]) [dq])
         [dq; comma]
  else Lodash.trim (Lodash.trim url [sq]) [dq].

Definition replacer (isGwd : bool) (url : jsstring) : jsstring :=
  if isGwd
  then decodeUri ++ [sq] ++ trimmedUrl isGwd url ++ [sq; comma]
  else decodeUri ++ [dq] ++ trimmedUrl isGwd url ++ [dq].

Definition formattedParams (isGwd : bool) (urlRegex : pattern) (params : jsstring) : jsstring :=
  replace_all urlRegex (replacer isGwd) params.

(** [processClickthroughUrls({ body, type = 'gwd' })] *)
Definition processClickthroughUrls (body : jsstring) (type : option jsstring) : jsstring :=
  let type := match type with Some t => t | None => str "gwd" end in
  let isGwd := jseq type (str "gwd") in
  let regex := if isGwd then exit_call else click_tag in
  let urlRegex := if isGwd then quoted_url_comma else quoted_url in
  fold_left
    (fun output params => Js.replace params (formattedParams isGwd urlRegex params) output)
    (match_all regex body) body.

End Part001.

(** ** The longest string

    [processClickthroughUrls] above is the text the loop computes.  An engine
    has a longest string, and [String.prototype.replace] throws a
    [RangeError] when its result would be longer: the loop then ends there.
    [limit] is that length, in code units.  Every other string of the loop
    is a piece of the body or of the result of one of the two [replace]
    calls, so these two results are all there is to check. *)

Module Engine.

(** The message of the [RangeError], in V8. *)
Definition invalid_string_length : jsstring := str "Invalid string length".

Section Limit.

Variable limit : N.

Definition fits (s : jsstring) : bool := (N.of_nat (length s) <=? limit)%N.

(** The string, when the engine can build it. *)
Definition built (s : jsstring) : outcome jsstring :=
  if fits s then Returns s else Throws invalid_string_length.

(** [_.each] over the matches: [params.replace(urlRegex, ...)], which is
    [format], and then [output.replace(params, formattedParams)]. *)
Definition each (format : jsstring -> jsstring) (occurrences : list jsstring)
  (body : jsstring) : outcome jsstring :=
  fold_left
    (fun output params =>
       match output with
       | Throws e => Throws e
       | Returns output =>
           match built (format params) with
           | Throws e => Throws e
           | Returns formattedParams => built (Js.replace params formattedParams output)
           end
       end)
    occurrences (Returns body).

(** [processClickthroughUrls] of [src/handler.js] *)
Definition processClickthroughUrls (body : jsstring) (type : option jsstring)
  : outcome jsstring :=
  let isTypeConversion :=
    match type with Some t => jseq t (str "conversion") | None => false end in
  let regex := if isTypeConversion then click_tag else exit_call in
  let urlRegex := if isTypeConversion then quoted_url else quoted_url_comma in
  each (Handler.formattedParams isTypeConversion urlRegex) (match_all regex body) body.


End Limit.

End Engine.

(** ** The validation rules as the specification lists them

    Section 4.1 of the specification gives five rules, evaluated in order,
    the first violated one deciding the error.  [rules_in_order] follows its
    words, not the code; the theorems below compare it with the two
    [validateZipFile]. *)

Inductive bundle_type : Type := DesignerTool | Generic.

Definition tag (t : bundle_type) : jsstring :=
  match t with
  | DesignerTool => str "gwd"
  | Generic => str "conversion"
  end.

Definition is_html (file : jsstring) : bool := Lodash.includes file (str ".html").

Definition generator_marker : jsstring :=
  str "name=" ++ [dq] ++ str "generator" ++ [dq] ++ str " content=" ++ [dq]
    ++ str "Google Web Designer".

Definition asset_reference : jsstring := str "src=" ++ [dq] ++ str "assets/".

Definition MissingRootHtml : jsstring := str "Zip file does not contain a root .html file".
Definition EmptyRootHtml : jsstring := str "Root .html file is missing content".
Definition MissingGeneratorMetadata : jsstring :=
  str "Root .html file does not contain Google Web Designer metadata".
Definition MissingAssetsFolder : jsstring :=
  str "Zip file is missing assets folder for linked assets".

Definition is_generic (t : bundle_type) : bool :=
  match t with Generic => true | DesignerTool => false end.

Definition is_designer (t : bundle_type) : bool :=
  match t with DesignerTool => true | Generic => false end.




(** Rule 5 asks for "a path with an assets/ segment": one of the pieces of
    the path between slashes, the last one apart, is [assets]. *)
Definition has_assets_segment (path : jsstring) : bool :=
  existsb (jseq (str "assets")) (removelast (Js.split (str "/") path)).




(** The type-specific clickthrough pattern of the rewriter. *)
Definition clickthrough_pattern (t : bundle_type) : pattern :=
  match t with
  | DesignerTool => exit_call
  | Generic => click_tag
  end.

(** ** Sample bundles and bodies, after the repository's test file *)

Definition gwd_root_content : jsstring :=
  str "<meta " ++ generator_marker ++ [dq] ++ str "/>" ++ [10%N]
    ++ str "<image " ++ asset_reference ++ str "test-image.png" ++ [dq] ++ str "/>".

Definition conversion_root_content : jsstring :=
  str "<image src=" ++ [dq] ++ str "images/test-image.png" ++ [dq] ++ str "/>".

Definition read_as (content : jsstring) : jsstring -> outcome jsstring :=
  fun _ => Returns content.

(** ** The matcher over one-character atoms

    What [repeat] computes when the repeated term is a single character test:
    the longest run first, then shorter and shorter ones. *)

Fixpoint greedy (test : char -> bool) (k : continuation) (s : jsstring) : option jsstring :=
  match s with
  | c :: s' => if test c then or_else (greedy test k s') (k s) else k s
  | [] => k []
  end.

Definition is_quote (c : char) : bool := N.eqb c dq || N.eqb c sq.
Definition not_space (c : char) : bool := negb (is_space c).
Definition not_rparen (c : char) : bool := negb (N.eqb c rparen).
Definition not_line_terminator (c : char) : bool := negb (is_line_terminator c).
Definition is_char (p c : char) : bool := N.eqb c p.
Definition is_letter (p c : char) : bool := N.eqb (canonicalize c) (canonicalize p).

(** [id] is [clickTag] up to the case of its letters. *)
Fixpoint same_letters (p s : jsstring) : bool :=
  match p, s with
  | [], [] => true
  | x :: p', y :: s' => is_letter x y && same_letters p' s'
  | _, _ => false
  end.

Definition is_clickTag (id : jsstring) : bool := same_letters (str "clickTag") id.

(** A literal run under a character comparison, and an optional character. *)
Fixpoint letters (test : char -> char -> bool) (p : jsstring) (k : continuation) : continuation :=
  match p with
  | [] => k
  | c :: p' => one (test c) (letters test p' k)
  end.

Definition optional (test : char -> bool) (k : continuation) (s : jsstring) : option jsstring :=
  match s with
  | c :: s' => if test c then or_else (k s') (k s) else k s
  | [] => k []
  end.

(** The four patterns as compositions of the above; the lemmas
    [exit_call_compiled] to [quoted_url_compiled] show that [rmatch] computes
    exactly these. *)
Definition exit_call_matcher (k : continuation) : continuation :=
  one not_line_terminator
    (letters is_char (str "exit(")
       (one not_rparen (greedy not_rparen (one (is_char rparen) k)))).

Definition click_tag_matcher (k : continuation) : continuation :=
  letters is_letter (str "clickTag")
    (greedy is_space
       (one (is_char equals)
          (greedy is_space (one is_quote (greedy not_space (one is_quote k)))))).

Definition quoted_url_matcher (k : continuation) : continuation :=
  one is_quote
    (letters is_char (str "http")
       (optional (is_char 115%N)
          (letters is_char (str "://")
             (one not_space (greedy not_space (one is_quote k)))))).

Definition quoted_url_comma_matcher (k : continuation) : continuation :=
  quoted_url_matcher (one (is_char comma) k).

(** The URL pattern that goes with each clickthrough pattern. *)
Definition url_pattern (t : bundle_type) : pattern :=
  match t with
  | DesignerTool => quoted_url_comma
  | Generic => quoted_url
  end.

(** ** Shapes of what the patterns match *)

(** One character that is no line terminator, [exit(], a non-empty run
    without a closing parenthesis, and the closing parenthesis. *)
Definition exit_call_shape (m : jsstring) : Prop :=
  exists c a args,
    m = c :: str "exit(" ++ a :: args ++ [rparen]
    /\ not_line_terminator c = true
    /\ forallb not_rparen (a :: args) = true.

(** A quote, [http://] or [https://], a non-empty run without whitespace,
    and a quote. *)
Definition quoted_url_shape (u : jsstring) : Prop :=
  exists q scheme c r q',
    u = q :: scheme ++ c :: r ++ [q']
    /\ is_quote q = true
    /\ (scheme = str "http://" \/ scheme = str "https://")
    /\ forallb not_space (c :: r) = true
    /\ is_quote q' = true.

(** What the URL pattern of each type matches: for DesignerTool a comma
    follows the closing quote. *)
Definition url_shape (t : bundle_type) (u : jsstring) : Prop :=
  match t with
  | Generic => quoted_url_shape u
  | DesignerTool => exists u', u = u' ++ [comma] /\ quoted_url_shape u'
  end.

(** [clickTag] in any case, whitespace, [=], whitespace, a quote, a run
    without whitespace, and a quote. *)
Definition click_tag_shape (m : jsstring) : Prop :=
  exists id ws1 ws2 q v q',
    m = id ++ ws1 ++ equals :: ws2 ++ q :: v ++ [q']
    /\ is_clickTag id = true
    /\ forallb is_space ws1 = true
    /\ forallb is_space ws2 = true
    /\ is_quote q = true
    /\ forallb not_space v = true
    /\ is_quote q' = true.

Definition clickthrough_shape (t : bundle_type) (m : jsstring) : Prop :=
  match t with
  | DesignerTool => exit_call_shape m
  | Generic => click_tag_shape m
  end.

(** An exit handler as Google Web Designer writes it, and a clickTag
    assignment. *)
Definition exit_handler : jsstring :=
  str "gwd.actions.gwdGoogleAd.exit('gwd-ad', 'Btn-Exit', 'http://www.google.com/', true, true);".

Definition about_blank : jsstring :=
  str "var clickTag = " ++ [dq] ++ str "about:blank" ++ [dq] ++ str ";".

Definition plain_script : jsstring := str "<script>var x = 1;</script>".


Definition exit_over_two_lines : jsstring :=
  str "gwd.exit('gwd-ad'," ++ [10%N] ++ str "  'Btn-Exit');".

Definition nested_quote : jsstring :=
  str "clickTag = " ++ [dq] ++ str "x'http://a'" ++ [dq].

(** ** Trimming by code units

    What the trims of lodash come to on a string in which every symbol is one
    code unit: the code units found in [chars] are dropped from the start, or
    from the end. *)

Fixpoint drop_while (p : char -> bool) (s : jsstring) : jsstring :=
  match s with
  | [] => []
  | c :: s' => if p c then drop_while p s' else s
  end.

Definition drop_start (s chars : jsstring) : jsstring :=
  drop_while (fun c => mem c chars) s.

Definition drop_end (s chars : jsstring) : jsstring :=
  rev (drop_while (fun c => mem c chars) (rev s)).

(** ** Generic bodies as a sequence of clickTag assignments

    An assignment is the identifier, the whitespace on either side of [=],
    the opening quote, the URL and the closing quote.  A body is taken apart
    into the assignments the pattern is to find and the text before each of
    them, with the text after the last one. *)

Record assignment : Type := Assignment {
  a_id : jsstring;
  a_ws1 : jsstring;
  a_ws2 : jsstring;
  a_open : char;
  a_url : jsstring;
  a_close : char
}.

Definition assignment_text (a : assignment) : jsstring :=
  a_id a ++ a_ws1 a ++ equals :: a_ws2 a ++ a_open a :: a_url a ++ [a_close a].

(** The assignment with its literal replaced by the indirection expression
    and the URL in double quotes, everything before the literal kept. *)
Definition rewritten_assignment (a : assignment) : jsstring :=
  a_id a ++ a_ws1 a ++ equals :: a_ws2 a ++ decodeUri ++ dq :: a_url a ++ [dq].

(** A URL literal's content: [http://] or [https://], at least one more
    character, and nowhere whitespace, a quote, a [$], or a code unit that
    makes lodash cut the string by symbols (a surrogate, a combining mark, a
    variation selector, the zero-width joiner). *)
Definition url_char (c : char) : bool :=
  not_space c && negb (is_quote c) && negb (N.eqb c dollar) && negb (Lodash.reHasUnicode c).

Definition is_http_url (u : jsstring) : bool :=
  ((Js.starts_with (str "http://") u && (7 <? length u))
   || (Js.starts_with (str "https://") u && (8 <? length u)))
  && forallb url_char u.

Definition well_formed (a : assignment) : bool :=
  is_clickTag (a_id a) && forallb is_space (a_ws1 a) && forallb is_space (a_ws2 a)
  && is_quote (a_open a) && is_quote (a_close a) && is_http_url (a_url a).

Fixpoint assemble (render : assignment -> jsstring)
  (items : list (jsstring * assignment)) (last : jsstring) : jsstring :=
  match items with
  | [] => last
  | (gap, a) :: items' => gap ++ render a ++ assemble render items' last
  end.

(** The pattern matches at no position of [gap] in [gap ++ rest]. *)
Fixpoint quiet (p : pattern) (gap rest : jsstring) : bool :=
  match gap with
  | [] => true
  | _ :: gap' =>
      match match_here p (gap ++ rest) with
      | Some _ => false
      | None => quiet p gap' rest
      end
  end.

(** There is no quote in [s] before its first whitespace. *)
Fixpoint no_quote_before_space (s : jsstring) : bool :=
  match s with
  | [] => true
  | c :: s' => if is_space c then true else negb (is_quote c) && no_quote_before_space s'
  end.

(** The conditions under which the pattern finds exactly the assignments of
    [items]: each is well formed, the pattern matches nowhere in the text
    before it, and what follows its closing quote has no further quote before
    the next whitespace (the greedy run of the pattern would go on to it);
    the pattern matches nowhere in the text after the last one. *)
Fixpoint found (items : list (jsstring * assignment)) (last : jsstring) : bool :=
  match items with
  | [] => match match_all click_tag last with [] => true | _ :: _ => false end
  | (gap, a) :: items' =>
      let rest := assemble assignment_text items' last in
      well_formed a
      && quiet click_tag gap (assignment_text a ++ rest)
      && no_quote_before_space rest
      && found items' last
  end.

Definition same_index (x y : option nat) : bool :=
  match x, y with
  | Some i, Some j => i =? j
  | None, None => true
  | _, _ => false
  end.

(** Each assignment's text has its first occurrence, in the output as it
    stands when the assignment's turn comes, at the assignment itself.
    [done] is the part of the output already rewritten. *)
Fixpoint in_place (done : jsstring) (items : list (jsstring * assignment))
  (last : jsstring) : bool :=
  match items with
  | [] => true
  | (gap, a) :: items' =>
      let rest := assemble assignment_text items' last in
      same_index (Js.indexOf (assignment_text a) (done ++ gap ++ assignment_text a ++ rest))
        (Some (length (done ++ gap)))
      && in_place (done ++ gap ++ rewritten_assignment a) items' last
  end.

(** A letter of the ASCII alphabet. *)
Definition is_alpha (c : char) : bool :=
  ((65 <=? c)%N && (c <=? 90)%N) || ((97 <=? c)%N && (c <=? 122)%N).

(** [well_formed] taken apart. *)
Record well_formed_parts (a : assignment) : Prop := {
  wf_id : is_clickTag (a_id a) = true;
  wf_ws1 : forallb is_space (a_ws1 a) = true;
  wf_ws2 : forallb is_space (a_ws2 a) = true;
  wf_open : is_quote (a_open a) = true;
  wf_close : is_quote (a_close a) = true;
  wf_url : is_http_url (a_url a) = true
}.

Definition is_some (A : Type) (x : option A) : bool :=
  match x with Some _ => true | None => false end.

(** [f], run on a text that ends in [Z2], succeeds only if it also does on
    the same text ending in [Z1]. *)
Definition carries (Z1 Z2 : jsstring) (f : continuation) : Prop :=
  forall l, is_some (f (l ++ Z2)) = true -> is_some (f (l ++ Z1)) = true.

(** A script with two assignments: double spaces around [=] and double
    quotes in the first, another case of the identifier, no space and single
    quotes in the second. *)
Definition two_assignments : list (jsstring * assignment) :=
  [ (str "<script>" ++ [10%N] ++ str "  var ",
     Assignment (str "clickTag") (str "  ") (str "  ") dq
       (str "http://plancherspayless.com/fr/") dq);
    (str ";" ++ [10%N] ++ str "  let ",
     Assignment (str "ClickTAG") [] [] sq (str "https://example.org/?q=1") sq) ].

Definition after_assignments : jsstring := str ";" ++ [10%N] ++ str "</script>".

(** Two statements with no whitespace between them. *)
Definition minified_script : jsstring := str "clickTag='http://a.com/';w='1';".

(** ** A rewritten exit call, seen again

    No quote of [s] is followed by [h]: the URL patterns, which start with a
    quote and [http], match nowhere in [s]. *)
Fixpoint no_quoted_http (s : jsstring) : bool :=
  match s with
  | [] => true
  | c :: s' =>
      negb (is_quote c && match s' with h :: _ => N.eqb h 104 | [] => false end)
      && no_quoted_http s'
  end.





(** ** The variable [trimmedUrl] of [src/handler.js]

    [src/handler.js] declares [trimmedUrl] once, outside the arrow function,
    which assigns it at each of its calls.  Here the value of the variable is
    threaded through the calls, in the order in which [replace] makes them;
    [None] is [undefined], the value the declaration leaves. *)

Module Stateful.

(** [`${trimmedUrl}`] *)
Definition interpolated (trimmedUrl : option jsstring) : jsstring :=
  match trimmedUrl with
  | Some url => url
  | None => str "undefined"
  end.

(** The arrow function: the assignment, then the template literal. *)
Definition replacer (isTypeConversion : bool) (url : jsstring) (trimmedUrl : option jsstring)
  : jsstring * option jsstring :=
  let trimmedUrl := Some (Handler.trimmedUrl isTypeConversion url) in
  (decodeUri ++ [dq] ++ interpolated trimmedUrl ++ [dq], trimmedUrl).

(** [s.replace(p, f)] with the [g] flag and a function that changes a
    state. *)
Fixpoint replace_from (S : Type) (p : pattern) (f : jsstring -> S -> jsstring * S)
  (s : jsstring) (skip : nat) (state : S) : jsstring * S :=
  match skip with
  | Datatypes.S n => match s with
                     | [] => ([], state)
                     | _ :: s' => replace_from p f s' n state
                     end
  | O =>
      match match_here p s with
      | Some (m, _) =>
          let (text, state) := f m state in
          match s with
          | [] => (text, state)
          | c :: s' =>
              let (rest, state) :=
                match m with
                | [] => let (rest, state) := replace_from p f s' 0 state in (c :: rest, state)
                | _ :: m' => replace_from p f s' (length m') state
                end in
              (text ++ rest, state)
          end
      | None => match s with
                | [] => ([], state)
                | c :: s' => let (rest, state) := replace_from p f s' 0 state in
                             (c :: rest, state)
                end
      end
  end.

(** [processClickthroughUrls(body, type)], from the value [trimmedUrl] has
    when the loop starts. *)
Definition loop (body : jsstring) (type : option jsstring) (trimmedUrl : option jsstring)
  : jsstring * option jsstring :=
  let isTypeConversion :=
    match type with Some t => jseq t (str "conversion") | None => false end in
  let regex := if isTypeConversion then click_tag else exit_call in
  let urlRegex := if isTypeConversion then quoted_url else quoted_url_comma in
  fold_left
    (fun state params =>
       let (formattedParams, trimmedUrl) :=
         replace_from urlRegex (replacer isTypeConversion) params 0 (snd state) in
       (Js.replace params formattedParams (fst state), trimmedUrl))
    (match_all regex body) (body, trimmedUrl).

Definition processClickthroughUrls (body : jsstring) (type : option jsstring) : jsstring :=
  fst (loop body type None).

End Stateful.

(** ** DesignerTool bodies with one exit call

    An exit call is the character before [exit(], the arguments before the
    URL, the URL between its quotes with the comma that follows, the
    arguments after it and the closing parenthesis. *)

Record exit_site : Type := ExitSite {
  e_before : char;
  e_args : jsstring;
  e_open : char;
  e_url : jsstring;
  e_close : char;
  e_rest : jsstring
}.

Definition call_text (e : exit_site) : jsstring :=
  e_before e :: str "exit(" ++ e_args e
    ++ e_open e :: e_url e ++ e_close e :: comma :: e_rest e ++ [rparen].

(** The call with the URL argument replaced as the claim and the test have
    it: the indirection expression, the URL in single quotes, the comma. *)
Definition call_rewritten (e : exit_site) : jsstring :=
  e_before e :: str "exit(" ++ e_args e
    ++ decodeUri ++ sq :: e_url e ++ sq :: comma :: e_rest e ++ [rparen].

(** The call as [src/handler.js] leaves it: the URL in double quotes and no
    comma after it. *)
Definition call_rewritten_handler (e : exit_site) : jsstring :=
  e_before e :: str "exit(" ++ e_args e
    ++ decodeUri ++ dq :: e_url e ++ dq :: e_rest e ++ [rparen].

(** No quote of [s] is followed by a comma before the first whitespace. *)
Fixpoint no_quote_comma_before_space (s : jsstring) : bool :=
  match s with
  | [] => true
  | c :: s' =>
      if is_space c then true
      else negb (is_quote c && match s' with d :: _ => N.eqb d comma | [] => false end)
           && no_quote_comma_before_space s'
  end.

Definition last_is (c : char) (s : jsstring) : bool :=
  match rev s with
  | d :: _ => N.eqb d c
  | [] => false
  end.

(** The call is one the exit-call pattern takes whole and in which the URL
    pattern finds the URL argument and nothing else: no closing parenthesis
    and no [$] inside, no other quote followed by [h], a URL that does not
    end in a comma, and after its comma no quote followed by a comma before
    the next whitespace. *)
Definition well_formed_call (e : exit_site) : bool :=
  not_line_terminator (e_before e)
  && forallb not_rparen (e_args e ++ e_url e ++ e_rest e)
  && negb (mem dollar (e_before e :: e_args e ++ e_rest e))
  && no_quoted_http (e_args e)
  && no_quoted_http (e_rest e ++ [rparen])
  && no_quote_comma_before_space (e_rest e ++ [rparen])
  && is_quote (e_open e) && is_quote (e_close e)
  && is_http_url (e_url e) && negb (last_is comma (e_url e)).

(** The call of the repository's test. *)
Definition test_call : exit_site :=
  ExitSite 46%N (str "'gwd-ad', 'Btn-Exit', ") sq (str "http://www.google.com/") sq
    (str " true, true").

(** [well_formed_call] taken apart. *)
Record well_formed_call_parts (e : exit_site) : Prop := {
  wc_before : not_line_terminator (e_before e) = true;
  wc_no_rparen : forallb not_rparen (e_args e ++ e_url e ++ e_rest e) = true;
  wc_no_dollar : mem dollar (e_before e :: e_args e ++ e_rest e) = false;
  wc_args : no_quoted_http (e_args e) = true;
  wc_rest : no_quoted_http (e_rest e ++ [rparen]) = true;
  wc_tail : no_quote_comma_before_space (e_rest e ++ [rparen]) = true;
  wc_open : is_quote (e_open e) = true;
  wc_close : is_quote (e_close e) = true;
  wc_url : is_http_url (e_url e) = true;
  wc_last : last_is comma (e_url e) = false
}.

(** ** The object key of an uploaded file

    [getS3UploadKey] reads the same in both handler files.  Its arguments are
    interpolated into template literals: [campaignId] is given as the string
    it converts to. *)

Definition slash : char := 47%N.

Definition getS3UploadKey (filePath directoryToUpload campaignId fileBaseName uploadId : jsstring)
  : jsstring :=
  let s3DirectoryPath :=
    campaignId ++ str "/" ++ fileBaseName ++ str "_" ++ uploadId ++ str "/" in
  let s3FilePath := Js.replace (directoryToUpload ++ str "/") [] filePath in
  let s3FilePath :=
    if jseq (Js.first (Js.split (str "/") s3FilePath)) fileBaseName
    then Js.replace (fileBaseName ++ str "/") [] s3FilePath
    else s3FilePath in
  s3DirectoryPath ++ s3FilePath.

(** In [handler], once the archives are uploaded, the base name of the root
    file is read off its object key: the last piece between slashes, up to
    its first [.html]. *)
Definition uploadedRootHtmlFileBaseName (rootHtmlFile : jsstring) : jsstring :=
  Js.first (Js.split (str ".html") (Lodash.last (Js.split (str "/") rootHtmlFile))).

(** ** Errors that keep their cause

    The functions below throw what the environment throws, or wrap it in a
    [VError] that keeps it as its cause.  An error of the environment is kept
    as its message. *)

Inductive error : Type :=
| Error (message : jsstring)
| VError (cause : error) (message : jsstring).

(** [new VError(cause, format)]: the message is what [sprintf] makes of the
    format; when [sprintf] throws, its [Error] is what comes out, and the
    cause is lost. *)
Definition new_VError (cause : error) (format : jsstring) : error :=
  match Extsprintf.sprintf format with
  | Returns message => VError cause message
  | Throws message => Error message
  end.

Inductive completion (A : Type) : Type :=
| Done (a : A)
| Thrown (e : error).
Arguments Done {A} a.
Arguments Thrown {A} e.

(** A computation over a state [S]. *)
Definition action (S A : Type) : Type := S -> completion A * S.

Definition pure (S A : Type) (a : A) : action S A := fun s => (Done a, s).
Arguments pure {S A} a.

Definition raise (S A : Type) (e : error) : action S A := fun s => (Thrown e, s).
Arguments raise {S A} e.

Definition lift (S A : Type) (c : completion A) : action S A := fun s => (c, s).
Arguments lift {S A} c.

Definition and_then (S A B : Type) (m : action S A) (f : A -> action S B) : action S B :=
  fun s =>
    match m s with
    | (Done a, s') => f a s'
    | (Thrown e, s') => (Thrown e, s')
    end.

(** [try { m } catch (error) { handler }] *)
Definition try_catch (S A : Type) (m : action S A) (handler : error -> action S A)
  : action S A :=
  fun s =>
    match m s with
    | (Done a, s') => (Done a, s')
    | (Thrown e, s') => handler e s'
    end.

Notation "'let!' x ':=' m 'in' f" := (and_then m (fun x => f))
  (at level 10, x name, m at level 100, f at level 200).

Definition map_completion (A B : Type) (f : A -> B) (c : completion A) : completion B :=
  match c with
  | Done a => Done (f a)
  | Thrown e => Thrown e
  end.

(** ** Uploading a directory, as [src/handler.js] has it

    [uploadDirectoryToS3] and the functions it calls.  What the module takes
    from its imports and from its scope is gathered in an [environment]: the
    constants, the reads of the file system, [path.resolve], [mime.lookup],
    [configs.get], the two storage services and the longest string of the
    engine.  A service answers a request
    by an error or by none, and its answer may depend on the requests made
    before; the state a computation threads is the list of the requests made
    so far. *)

Module Upload.

(** The [body] of an object: the text read as utf8 and rewritten, or the
    [Buffer] read from a file of another kind. *)
Inductive content (Buffer : Type) : Type :=
| Text (text : jsstring)
| Binary (buffer : Buffer).
Arguments Text {Buffer} text.
Arguments Binary {Buffer} buffer.

Record params (Buffer : Type) : Type := {
  s3UploadKey : jsstring;
  body : content Buffer;
  Bucket : jsstring;
  ACL : jsstring;
  ContentType : jsstring
}.

Inductive request (Buffer : Type) : Type :=
| GcsUpload (bucket filePath destination : jsstring)
| PutObject (p : params Buffer).
Arguments GcsUpload {Buffer} bucket filePath destination.
Arguments PutObject {Buffer} p.

Record environment (Buffer : Type) : Type := {
  S3_CREATIVES_BUCKET : jsstring;
  S3_ACCESS_CONTROL_LIST : jsstring;
  GCS_CREATIVE_BUCKET_NAME : jsstring;
  existsSync : jsstring -> bool;
  readdir : jsstring -> completion (list jsstring);
  readFileSync_utf8 : jsstring -> completion jsstring;
  readFileSync : jsstring -> completion Buffer;
  resolve : jsstring -> jsstring;
  mime_lookup : jsstring -> option jsstring;
  configs_get : jsstring -> completion bool;
  respond : list (request Buffer) -> request Buffer -> option error;
  MAX_STRING_LENGTH : N
}.

Section Functions.

Variable Buffer : Type.
Variable env : environment Buffer.

(** A request to a service: it joins the requests made, and throws what the
    service answers. *)
Definition send (r : request Buffer) : action (list (request Buffer)) unit :=
  fun requests =>
    (match respond env requests r with
     | None => Done tt
     | Some e => Thrown e
     end, requests ++ [r]).

(** [getFiles] *)
Definition getFiles (directoryPath : jsstring) : completion (list jsstring) :=
  if existsSync env directoryPath then readdir env directoryPath else Done [].

(** [uploadObjectToS3] *)
Definition uploadObjectToS3 (p : params Buffer) : action (list (request Buffer)) unit :=
  send (PutObject p).

(** [processClickthroughUrls] in the engine of the environment, and the
    body it gives: the text, or the [RangeError] thrown. *)
Definition processClickthroughUrls : jsstring -> option jsstring -> outcome jsstring :=
  Engine.processClickthroughUrls (MAX_STRING_LENGTH env).

Definition rewritten (body : outcome jsstring) : completion (content Buffer) :=
  match body with
  | Returns text => Done (Text text)
  | Throws message => Thrown (Error message)
  end.

(** The [for] loop of [uploadDirectoryToS3] over [filesToUpload]; the object
    pushed to [uploadResults] for a file is kept as its key.  [flags] is the
    truth of [flags.en_2127_upload_into_s3_and_gcs]. *)
Fixpoint uploadFiles (campaignId directoryToUpload fileBaseName uploadId : jsstring)
  (exporter : option jsstring) (flags : bool)
  (filesToUpload : list jsstring) (uploadResults : list jsstring)
  : action (list (request Buffer)) (list jsstring) :=
  match filesToUpload with
  | [] => pure uploadResults
  | filePath :: rest =>
      let s3UploadKey :=
        getS3UploadKey filePath directoryToUpload campaignId fileBaseName uploadId in
      let! body :=
        lift (if Lodash.includes filePath (str ".html")
              then match readFileSync_utf8 env filePath with
                   | Done body =>
                       rewritten
                         (match exporter with
                          | Some e =>
                              if jseq e (str "gwd")
                              then processClickthroughUrls body (Some (str "gwd"))
                              else if jseq e (str "conversio")
                              then processClickthroughUrls body (Some (str "conversion"))
                              else processClickthroughUrls body (Some (str "gwd"))
                          | None => processClickthroughUrls body (Some (str "gwd"))
                          end)
                   | Thrown e => Thrown e
                   end
              else map_completion Binary (readFileSync env filePath)) in
      let Bucket := S3_CREATIVES_BUCKET env in
      let ACL := S3_ACCESS_CONTROL_LIST env in
      let ContentType :=
        if falsy (mime_lookup env filePath) then str "application/octet-stream"
        else match mime_lookup env filePath with
             | Some type => type
             | None => str "application/octet-stream"
             end in
      let params :=
        {| s3UploadKey := s3UploadKey; body := body; Bucket := Bucket; ACL := ACL;
           ContentType := ContentType |} in
      let! _ :=
        try_catch
          (let! _ :=
             (if flags
              then let! uploadToGCS := lift (configs_get env (str "creatives.uploadToGCS")) in
                   if uploadToGCS
                   then send (GcsUpload (GCS_CREATIVE_BUCKET_NAME env) filePath s3UploadKey)
                   else pure tt
              else pure tt) in
           uploadObjectToS3 params)
          (fun error =>
             raise (new_VError error (str "failed to upload " ++ filePath ++ str " to s3"))) in
      uploadFiles campaignId directoryToUpload fileBaseName uploadId exporter flags
        rest (uploadResults ++ [s3UploadKey])
  end.

(** [uploadDirectoryToS3] *)
Definition uploadDirectoryToS3 (campaignId directoryToUpload fileBaseName uploadId : jsstring)
  (exporter : option jsstring) (flags : bool)
  : action (list (request Buffer)) (list jsstring) :=
  let! filesToUpload := lift (getFiles (resolve env directoryToUpload)) in
  uploadFiles campaignId directoryToUpload fileBaseName uploadId exporter flags
    filesToUpload [].

End Functions.

(** The objects put, in the order of the requests, and the gap between two
    lists of requests. *)
Definition puts (Buffer : Type) (requests : list (request Buffer)) : list (params Buffer) :=
  flat_map (fun r => match r with PutObject p => [p] | GcsUpload _ _ _ => [] end) requests.

(** What [uploadDirectoryToS3] puts for a file when nothing fails. *)
Definition object_of (Buffer : Type) (env : environment Buffer)
  (campaignId directoryToUpload fileBaseName uploadId : jsstring) (exporter : option jsstring)
  (filePath : jsstring) (p : params Buffer) : Prop :=
  s3UploadKey p = getS3UploadKey filePath directoryToUpload campaignId fileBaseName uploadId
  /\ Bucket p = S3_CREATIVES_BUCKET env
  /\ ACL p = S3_ACCESS_CONTROL_LIST env
  /\ ContentType p = match mime_lookup env filePath with
                     | Some [] | None => str "application/octet-stream"
                     | Some type => type
                     end
  /\ if Lodash.includes filePath (str ".html")
     then exists text,
         readFileSync_utf8 env filePath = Done text
         /\ body p = Text (Handler.processClickthroughUrls text
                             (Some (if match exporter with
                                       | Some e => jseq e (str "conversio")
                                       | None => false
                                       end
                                    then str "conversion" else str "gwd")))
     else exists buffer, readFileSync env filePath = Done buffer /\ body p = Binary buffer.

End Upload.


(** An environment to run [uploadDirectoryToS3] in: one extracted archive
    with a root file and an image, services that answer as [respond] says,
    and strings of 2^29 - 24 code units at most, as in V8 on a 64-bit
    machine. *)
Definition sample_listing : list jsstring :=
  [str "/srv/extracted/banner/index.html"; str "/srv/extracted/banner/logo.png"].

Definition sample_environment
  (respond : list (Upload.request jsstring) -> Upload.request jsstring -> option error)
  : Upload.environment jsstring :=
  {| Upload.S3_CREATIVES_BUCKET := str "creatives";
     Upload.S3_ACCESS_CONTROL_LIST := str "public-read";
     Upload.GCS_CREATIVE_BUCKET_NAME := str "creatives-gcs";
     Upload.existsSync := fun directoryPath => jseq directoryPath (str "/srv/extracted/banner");
     Upload.readdir := fun _ => Done sample_listing;
     Upload.readFileSync_utf8 := fun _ => Done minified_script;
     Upload.readFileSync := fun _ => Done (str "PNG");
     Upload.resolve := fun directory => str "/srv/" ++ directory;
     Upload.mime_lookup :=
       fun filePath =>
         if Lodash.includes filePath (str ".html") then Some (str "text/html") else None;
     Upload.configs_get := fun _ => Done true;
     Upload.respond := respond;
     Upload.MAX_STRING_LENGTH := 536870888%N |}.

(** Services that accept everything, and services that refuse the second
    object. *)
Definition accepting : list (Upload.request jsstring) -> Upload.request jsstring -> option error :=
  fun _ _ => None.

Definition refusing_the_second
  : list (Upload.request jsstring) -> Upload.request jsstring -> option error :=
  fun requests r =>
    match r with
    | Upload.PutObject _ => if 0 <? length (Upload.puts requests)
                            then Some (Error (str "AccessDenied")) else None
    | Upload.GcsUpload _ _ _ => None
    end.


(** ** Paths

    A path is resolved to a location, the list of the names that lead to it
    from the root: segment by segment, from the root for a path that starts
    with a slash and from the working directory for any other, an empty
    segment and [.] staying in place and [..] going one up.  There are no
    symbolic links.  The resolution goes by the text of the path, where the
    operating system looks every segment up and fails at [x/..] when [x] is
    no directory: the two agree on the paths whose [..] segments all come
    before the names, as in the folders of the module ([climbs_first]). *)

Module Path.

Definition location : Type := list jsstring.

Definition step (here : location) (segment : jsstring) : location :=
  if jseq segment [] || jseq segment (str ".") then here
  else if jseq segment (str "..") then removelast here
  else here ++ [segment].

Definition locate (cwd : location) (path : jsstring) : location :=
  fold_left step (Js.split (str "/") path)
    (if Js.starts_with (str "/") path then [] else cwd).

(** [path.join(directory, name)], up to the normalization of the result,
    which [locate] does not depend on. *)
Definition join (directory name : jsstring) : jsstring :=
  match directory, name with
  | [], [] => str "."
  | [], _ => name
  | _, [] => directory
  | _, _ => directory ++ str "/" ++ name
  end.

(** The absolute path of a location, and [path.resolve(__dirname, path)]
    with the empty [__dirname] of the module. *)
Definition render (l : location) : jsstring :=
  match l with
  | [] => str "/"
  | _ => flat_map (fun segment => slash :: segment) l
  end.

Definition resolve (cwd : location) (path : jsstring) : jsstring :=
  render (locate cwd path).

(** A name an entry of a directory can have. *)
Definition is_name (n : jsstring) : bool :=
  negb (jseq n []) && negb (jseq n (str ".")) && negb (jseq n (str ".."))
  && negb (mem slash n).

(** The segments that stay in place or go up come first, and names only
    after them. *)
Fixpoint climb_then_names (segments : list jsstring) : bool :=
  match segments with
  | [] => true
  | segment :: rest =>
      if jseq segment [] || jseq segment (str ".") || jseq segment (str "..")
      then climb_then_names rest
      else forallb is_name segments
  end.

Definition climbs_first (path : jsstring) : bool :=
  climb_then_names (Js.split (str "/") path).

End Path.

(** ** The file system

    The part of Node's [fs] the module calls, over a file system of regular
    files and directories: a finite map from locations to entries, the root
    being a directory that is always there.  An error is kept as its code.
    An operation that fails leaves the file system as it was. *)

Module Fs.

Import Path.

Inductive entry : Type :=
| File (content : jsstring)
| Directory.

Definition filesystem : Type := list (location * entry).

Fixpoint same (a b : location) : bool :=
  match a, b with
  | [], [] => true
  | x :: a', y :: b' => jseq x y && same a' b'
  | _, _ => false
  end.

(** [a] is [b] or above it. *)
Fixpoint is_prefix (a b : location) : bool :=
  match a, b with
  | [], _ => true
  | x :: a', y :: b' => jseq x y && is_prefix a' b'
  | _ :: _, [] => false
  end.

Definition lookup (l : location) (fs : filesystem) : option entry :=
  match l with
  | [] => Some Directory
  | _ => option_map snd (List.find (fun x => same (fst x) l) fs)
  end.

(** The names of the entries of the directory at [l]. *)
Definition child_name (l k : location) : option jsstring :=
  if is_prefix l k
  then match skipn (length l) k with
       | [n] => Some n
       | _ => None
       end
  else None.

Definition children (l : location) (fs : filesystem) : list jsstring :=
  flat_map (fun x => match child_name l (fst x) with Some n => [n] | None => [] end) fs.

Definition remove (l : location) (fs : filesystem) : filesystem :=
  filter (fun x => negb (same (fst x) l)) fs.

Definition ENOENT : error := Error (str "ENOENT").
Definition ENOTDIR : error := Error (str "ENOTDIR").
Definition EEXIST : error := Error (str "EEXIST").
Definition EISDIR : error := Error (str "EISDIR").
Definition ENOTEMPTY : error := Error (str "ENOTEMPTY").
Definition EBUSY : error := Error (str "EBUSY").

Section Operations.

Variable cwd : location.

(** What a path names: nothing for the empty path, and nothing for a
    regular file named with a slash at the end. *)
Definition stat (path : jsstring) (fs : filesystem) : completion entry :=
  match path with
  | [] => Thrown ENOENT
  | _ =>
      match lookup (locate cwd path) fs with
      | None => Thrown ENOENT
      | Some (File content) =>
          if last_is slash path then Thrown ENOTDIR else Done (File content)
      | Some Directory => Done Directory
      end
  end.

(** [fs.existsSync(path)] *)
Definition existsSync (path : jsstring) (fs : filesystem) : bool :=
  match stat path fs with
  | Done _ => true
  | Thrown _ => false
  end.

(** [fs.mkdirSync(path)] *)
Definition mkdirSync (path : jsstring) : action filesystem unit :=
  fun fs =>
    match path with
    | [] => (Thrown ENOENT, fs)
    | _ =>
        match lookup (locate cwd path) fs with
        | Some _ => (Thrown EEXIST, fs)
        | None =>
            match lookup (removelast (locate cwd path)) fs with
            | Some Directory => (Done tt, fs ++ [(locate cwd path, Directory)])
            | Some (File _) => (Thrown ENOTDIR, fs)
            | None => (Thrown ENOENT, fs)
            end
        end
    end.

(** [fs.readdirSync(path)] *)
Definition readdirSync (path : jsstring) : action filesystem (list jsstring) :=
  fun fs =>
    match stat path fs with
    | Done Directory => (Done (children (locate cwd path) fs), fs)
    | Done (File _) => (Thrown ENOTDIR, fs)
    | Thrown e => (Thrown e, fs)
    end.

(** [fs.lstatSync(path).isDirectory()] *)
Definition lstatSync_isDirectory (path : jsstring) : action filesystem bool :=
  fun fs =>
    match stat path fs with
    | Done Directory => (Done true, fs)
    | Done (File _) => (Done false, fs)
    | Thrown e => (Thrown e, fs)
    end.

(** [fs.unlinkSync(path)] *)
Definition unlinkSync (path : jsstring) : action filesystem unit :=
  fun fs =>
    match stat path fs with
    | Done (File _) => (Done tt, remove (locate cwd path) fs)
    | Done Directory => (Thrown EISDIR, fs)
    | Thrown e => (Thrown e, fs)
    end.

(** [fs.rmdirSync(path)] *)
Definition rmdirSync (path : jsstring) : action filesystem unit :=
  fun fs =>
    match stat path fs with
    | Done Directory =>
        match locate cwd path, children (locate cwd path) fs with
        | [], _ => (Thrown EBUSY, fs)
        | _, [] => (Done tt, remove (locate cwd path) fs)
        | _, _ => (Thrown ENOTEMPTY, fs)
        end
    | Done (File _) => (Thrown ENOTDIR, fs)
    | Thrown e => (Thrown e, fs)
    end.

(** [fs.readFileSync(path, 'utf8')] *)
Definition readFileSync (path : jsstring) (fs : filesystem) : completion jsstring :=
  match stat path fs with
  | Done (File content) => Done content
  | Done Directory => Thrown EISDIR
  | Thrown e => Thrown e
  end.

End Operations.

(** A file system in which every entry has a name, has one entry only, and
    sits in a directory. *)
Fixpoint distinct (keys : list location) : bool :=
  match keys with
  | [] => true
  | k :: rest => negb (existsb (same k) rest) && distinct rest
  end.

Definition is_directory (e : option entry) : bool :=
  match e with
  | Some Directory => true
  | _ => false
  end.

Definition well_formed (fs : filesystem) : bool :=
  distinct (map fst fs)
  && forallb
       (fun x =>
          match fst x with
          | [] => false
          | _ => forallb is_name (fst x) && is_directory (lookup (removelast (fst x)) fs)
          end) fs.

(** The length of the longest location. *)
Definition depth (fs : filesystem) : nat :=
  fold_right (fun x d => Nat.max (length (fst x)) d) 0 fs.

(** The file system without the entry at [l] and everything below it. *)
Definition prune (l : location) (fs : filesystem) : filesystem :=
  filter (fun x => negb (is_prefix l (fst x))) fs.

End Fs.

(** ** The temporary folders

    [persistTempFolders], [deleteFolderRecursively] and [removeTempFolders]
    read the same in both handler files.  The recursion of
    [deleteFolderRecursively] follows the file system, not its argument: it
    is given fuel, and a computation that runs out of it has no result. *)

Definition TEMP_DIRECTORY : jsstring := str "../../../../../tmp/".
Definition UPLOAD_DIRECTORY : jsstring := str "../../../../../tmp/rich-media-markup-uploads".

Definition fueled (S A : Type) : Type := S -> option (completion A * S).

Definition started (S A : Type) (m : action S A) : fueled S A := fun s => Some (m s).

Definition and_then_fueled (S A B : Type) (m : fueled S A) (f : A -> fueled S B)
  : fueled S B :=
  fun s =>
    match m s with
    | Some (Done a, s') => f a s'
    | Some (Thrown e, s') => Some (Thrown e, s')
    | None => None
    end.

Notation "'let?' x ':=' m 'in' f" := (and_then_fueled m (fun x => f))
  (at level 10, x name, m at level 100, f at level 200).

(** [array.forEach(callback)] *)
Fixpoint forEach (S A : Type) (array : list A) (callback : A -> fueled S unit)
  : fueled S unit :=
  match array with
  | [] => started (pure tt)
  | x :: rest => let? _ := callback x in forEach rest callback
  end.

Section TempFolders.

Variable cwd : Path.location.

Definition persistTempFolders : action Fs.filesystem unit :=
  let! _ := (fun fs => if negb (Fs.existsSync cwd TEMP_DIRECTORY fs)
                       then Fs.mkdirSync cwd TEMP_DIRECTORY fs else (Done tt, fs)) in
  let! _ := (fun fs => if negb (Fs.existsSync cwd UPLOAD_DIRECTORY fs)
                       then Fs.mkdirSync cwd UPLOAD_DIRECTORY fs else (Done tt, fs)) in
  fun fs => if negb (Fs.existsSync cwd EXTRACT_DIRECTORY fs)
            then Fs.mkdirSync cwd EXTRACT_DIRECTORY fs else (Done tt, fs).

Fixpoint deleteFolderRecursively (fuel : nat) (filePath : jsstring)
  : fueled Fs.filesystem unit :=
  match fuel with
  | O => fun _ => None
  | S fuel' =>
      fun fs =>
        if Fs.existsSync cwd filePath fs
        then (let? files := started (Fs.readdirSync cwd filePath) in
              let? _ :=
                forEach files
                  (fun file =>
                     let currentPath := Path.join filePath file in
                     let? isDirectory := started (Fs.lstatSync_isDirectory cwd currentPath) in
                     if isDirectory
                     then deleteFolderRecursively fuel' currentPath
                     else started (Fs.unlinkSync cwd currentPath)) in
              started (Fs.rmdirSync cwd filePath)) fs
        else Some (Done tt, fs)
  end.

Definition removeTempFolders (fuel : nat) : fueled Fs.filesystem unit :=
  let? _ := deleteFolderRecursively fuel UPLOAD_DIRECTORY in
  deleteFolderRecursively fuel EXTRACT_DIRECTORY.

End TempFolders.


(** A working directory and a file system to run the temporary folders in:
    one archive uploaded, and extracted to a root file and an asset. *)
Definition sample_cwd : Path.location := [str "srv"; str "app"].

Definition sample_fs : Fs.filesystem :=
  [ ([str "srv"], Fs.Directory);
    ([str "srv"; str "app"], Fs.Directory);
    ([str "tmp"], Fs.Directory);
    ([str "tmp"; str "rich-media-markup-uploads"], Fs.Directory);
    ([str "tmp"; str "rich-media-markup-uploads"; str "banner_1.zip"], Fs.File (str "PK"));
    ([str "tmp"; str "rich-media-markup-extracted"], Fs.Directory);
    ([str "tmp"; str "rich-media-markup-extracted"; str "banner"], Fs.Directory);
    ([str "tmp"; str "rich-media-markup-extracted"; str "banner"; str "index.html"],
     Fs.File minified_script);
    ([str "tmp"; str "rich-media-markup-extracted"; str "banner"; str "assets"], Fs.Directory);
    ([str "tmp"; str "rich-media-markup-extracted"; str "banner"; str "assets"; str "logo.png"],
     Fs.File (str "PNG")) ].


(** ** The loop of [handler] over the uploaded archives

    In [src/handler.js], once the form is parsed and the archives are
    extracted, [handler] takes the archives one by one: [validateFile],
    [uploadDirectoryToS3], [removeTempFolders].  [validateFile] is called
    without [_getFiles] and [_readRootHtmlFile], which then are [getFiles]
    and [readRootHtmlFile]; the file system of the moment gives what they
    and [uploadDirectoryToS3] read.  [readdir] is not defined in the module:
    it is a parameter, like the storage services. *)

Module Archives.

Record fileInfo : Type := {
  fileBaseName : jsstring;
  fileExtension : jsstring;
  filePath : jsstring;
  destinationDirectory : jsstring
}.

Fixpoint message_of (e : error) : jsstring :=
  match e with
  | Error message => message
  | VError cause message => message ++ str ": " ++ message_of cause
  end.

Section Loop.

Variable cwd : Path.location.
Variable readdir : jsstring -> Fs.filesystem -> completion (list jsstring).
Variable services : Upload.environment jsstring.

(** The environment of the upload at a state of the file system. *)
Definition host (fs : Fs.filesystem) : Upload.environment jsstring :=
  {| Upload.S3_CREATIVES_BUCKET := Upload.S3_CREATIVES_BUCKET services;
     Upload.S3_ACCESS_CONTROL_LIST := Upload.S3_ACCESS_CONTROL_LIST services;
     Upload.GCS_CREATIVE_BUCKET_NAME := Upload.GCS_CREATIVE_BUCKET_NAME services;
     Upload.existsSync := fun path => Fs.existsSync cwd path fs;
     Upload.readdir := fun path => readdir path fs;
     Upload.readFileSync_utf8 := fun path => Fs.readFileSync cwd path fs;
     Upload.readFileSync := fun path => Fs.readFileSync cwd path fs;
     Upload.resolve := Path.resolve cwd;
     Upload.mime_lookup := Upload.mime_lookup services;
     Upload.configs_get := Upload.configs_get services;
     Upload.respond := Upload.respond services;
     Upload.MAX_STRING_LENGTH := Upload.MAX_STRING_LENGTH services |}.

(** [readRootHtmlFile] *)
Definition readRootHtmlFile (fs : Fs.filesystem) (rootHtmlFile : jsstring) : outcome jsstring :=
  match Upload.readFileSync_utf8 (host fs) rootHtmlFile with
  | Done content => Returns content
  | Thrown e => Throws (message_of e)
  end.

(** [await validateFile({ directoryToUpload, fileBaseName, exporter })] *)
Definition validateFile (fs : Fs.filesystem) (directoryToUpload fileBaseName : jsstring)
  (exporter : option jsstring) : completion unit :=
  match Upload.getFiles (host fs) (Upload.resolve (host fs) directoryToUpload) with
  | Thrown e => Thrown e
  | Done files =>
      match result (Handler.validateFile fileBaseName exporter files (readRootHtmlFile fs)) with
      | Returns _ => Done tt
      | Throws message => Thrown (Error message)
      end
  end.

(** The [for] loop; [s3UploadResults] is what the last turn assigned. *)
Fixpoint uploadArchives (fuel : nat) (campaignId uploadId : jsstring)
  (exporter : option jsstring) (flags : bool) (filesInfo : list fileInfo)
  (s3UploadResults : list jsstring)
  : fueled (Fs.filesystem * list (Upload.request jsstring)) (list jsstring) :=
  match filesInfo with
  | [] => fun world => Some (Done s3UploadResults, world)
  | file :: rest =>
      fun world =>
        let fs := fst world in
        let directoryToUpload := destinationDirectory file in
        match validateFile fs directoryToUpload (fileBaseName file) exporter with
        | Thrown e => Some (Thrown e, world)
        | Done _ =>
            match Upload.uploadDirectoryToS3 (host fs) campaignId directoryToUpload
                    (fileBaseName file) uploadId exporter flags (snd world) with
            | (Thrown e, requests) => Some (Thrown e, (fs, requests))
            | (Done results, requests) =>
                match removeTempFolders cwd fuel fs with
                | None => None
                | Some (Thrown e, fs') => Some (Thrown e, (fs', requests))
                | Some (Done _, fs') =>
                    uploadArchives fuel campaignId uploadId exporter flags rest results
                      (fs', requests)
                end
            end
        end
  end.

End Loop.

End Archives.

(** Two archives uploaded and extracted side by side, and a lister of the
    files below a directory. *)
Definition first_archive : Archives.fileInfo :=
  {| Archives.fileBaseName := str "banner";
     Archives.fileExtension := str ".zip";
     Archives.filePath := str "../../../../../tmp/rich-media-markup-uploads/banner_1.zip";
     Archives.destinationDirectory :=
       str "../../../../../tmp/rich-media-markup-extracted/banner" |}.

Definition second_archive : Archives.fileInfo :=
  {| Archives.fileBaseName := str "tower";
     Archives.fileExtension := str ".zip";
     Archives.filePath := str "../../../../../tmp/rich-media-markup-uploads/tower_1.zip";
     Archives.destinationDirectory :=
       str "../../../../../tmp/rich-media-markup-extracted/tower" |}.

Definition two_archives_fs : Fs.filesystem :=
  sample_fs
    ++ [ ([str "tmp"; str "rich-media-markup-extracted"; str "tower"], Fs.Directory);
         ([str "tmp"; str "rich-media-markup-extracted"; str "tower"; str "index.html"],
          Fs.File minified_script) ].

Definition files_below (path : jsstring) (fs : Fs.filesystem)
  : completion (list jsstring) :=
  Done (flat_map
          (fun x =>
             match snd x with
             | Fs.File _ =>
                 if Fs.is_prefix (Path.locate [] path) (fst x) then [Path.render (fst x)] else []
             | Fs.Directory => []
             end) fs).


(** ** Extracting the archives

    [extractFiles], in its two versions.  [extract] is not defined in the
    module: it is a parameter that changes a state [W] of its own and gives
    its callback an error or none.  A promise is settled by the first call
    of [resolve] or [reject]; a later call changes nothing. *)

Module Extraction.

Definition settle (promise : option (completion unit)) (c : completion unit)
  : option (completion unit) :=
  match promise with
  | None => Some c
  | Some settled => Some settled
  end.

(** What [await] makes of a promise; one that is never settled does not
    occur below. *)
Definition await (promise : option (completion unit)) : completion unit :=
  match promise with
  | Some c => c
  | None => Done tt
  end.

Section Extract.

Variable W : Type.
Variable extract : jsstring -> jsstring -> W -> option error * W.

(** The callback of [src/handler.js]: [reject] in case of an error, and
    [resolve] in every case. *)
Definition callback_handler (error : option error) : option (completion unit) :=
  let promise := None in
  let promise :=
    match error with
    | Some e => settle promise (Thrown e)
    | None => promise
    end in
  settle promise (Done tt).

(** The callback of the second handler file: [reject] or else [resolve]. *)
Definition callback_part001 (error : option error) : option (completion unit) :=
  match error with
  | Some e => settle None (Thrown e)
  | None => settle None (Done tt)
  end.

Fixpoint extractFiles (callback : option error -> option (completion unit))
  (filesInfo : list Archives.fileInfo) : action W unit :=
  match filesInfo with
  | [] => pure tt
  | file :: rest =>
      let filePath := Archives.filePath file in
      let destinationDirectory := Archives.destinationDirectory file in
      let! _ :=
        try_catch
          (fun w => (await (callback (fst (extract filePath destinationDirectory w))),
                     snd (extract filePath destinationDirectory w)))
          (fun error => raise (new_VError error (str "failed to extract " ++ filePath))) in
      extractFiles callback rest
  end.

(** [extractFiles] of [src/handler.js] and of the second handler file. *)
Definition extractFiles_handler : list Archives.fileInfo -> action W unit :=
  extractFiles callback_handler.

Definition extractFiles_part001 : list Archives.fileInfo -> action W unit :=
  extractFiles callback_part001.

End Extract.

End Extraction.

(** An [extract] that keeps the list of what it extracted, and fails on an
    archive named [broken.zip]. *)
Definition sample_extract (filePath destinationDirectory : jsstring) (extracted : list jsstring)
  : option error * list jsstring :=
  if Lodash.includes filePath (str "broken.zip")
  then (Some (Error (str "end of central directory record signature not found")), extracted)
  else (None, extracted ++ [destinationDirectory]).

Definition broken_archive : Archives.fileInfo :=
  {| Archives.fileBaseName := str "broken";
     Archives.fileExtension := str ".zip";
     Archives.filePath := str "../../../../../tmp/rich-media-markup-uploads/broken.zip";
     Archives.destinationDirectory :=
       str "../../../../../tmp/rich-media-markup-extracted/broken" |}.


(** In [handler], the uploaded object taken for the root file: the first
    result whose key contains [.html].  When there is none, [_.find] gives
    [undefined] and reading its key throws: that is [None]. *)
Definition uploadedRootHtmlFile (s3UploadResults : list jsstring) : option jsstring :=
  Lodash.find s3UploadResults (fun s3UploadKey => Lodash.includes s3UploadKey (str ".html")).


(** * Properties *)

(** ** Strings *)

Lemma jseq_refl (a : jsstring) : jseq a a = true.
Proof.
  induction a as [|x a IH]; simpl; [reflexivity|].
  now rewrite N.eqb_refl, IH.
Qed.

Lemma jseq_eq (a b : jsstring) : jseq a b = true <-> a = b.
Proof.
  split; [|intros ->; apply jseq_refl].
  revert b; induction a as [|x a IH]; intros [|y b]; simpl; try discriminate; auto.
  intros H. apply andb_true_iff in H as [Hx Hab].
  apply N.eqb_eq in Hx. apply IH in Hab. now subst.
Qed.

Lemma jseq_neq (a b : jsstring) : a <> b -> jseq a b = false.
Proof.
  intros H. destruct (jseq a b) eqn:E; [|reflexivity].
  apply jseq_eq in E. contradiction.
Qed.

Lemma starts_with_app (p s : jsstring) : Js.starts_with p (p ++ s) = true.
Proof.
  induction p as [|x p IH]; simpl; [reflexivity|].
  now rewrite N.eqb_refl, IH.
Qed.

Lemma starts_with_inv (p s : jsstring) :
  Js.starts_with p s = true -> exists t, s = p ++ t.
Proof.
  revert s; induction p as [|x p IH]; intros s H.
  - now exists s.
  - destruct s as [|y s]; simpl in H; [discriminate|].
    apply andb_true_iff in H as [Hx Hp]. apply N.eqb_eq in Hx. subst y.
    destruct (IH _ Hp) as [t ->]. now exists t.
Qed.

Lemma includes_prefix (p s : jsstring) : Lodash.includes (p ++ s) p = true.
Proof.
  unfold Lodash.includes.
  destruct (p ++ s) eqn:E; simpl.
  - destruct p; [reflexivity|discriminate].
  - rewrite <- E, starts_with_app. reflexivity.
Qed.

Lemma html_file_not_empty (file : jsstring) : is_html file = true -> falsy (Some file) = false.
Proof.
  destruct file; [discriminate|reflexivity].
Qed.


Lemma has_assets_iff (files : list jsstring) (p : jsstring -> bool) :
  (0 <? length (Lodash.filter files p)) = existsb p files.
Proof.
  unfold Lodash.filter.
  induction files as [|f files IH]; simpl; [reflexivity|].
  destruct (p f); simpl; [reflexivity|exact IH].
Qed.

(** ** The validator *)

Section Validator.

Variable fileBaseName : jsstring.
Variable files : list jsstring.
Variable reader : jsstring -> outcome jsstring.

Lemma find_html_some (root : jsstring) :
  List.find is_html files = Some root -> falsy (Some root) = false.
Proof.
  intros H. apply find_some in H as [_ H]. now apply html_file_not_empty.
Qed.

(** Without a root file both versions throw before anything is read. *)
Lemma no_root_handler (type : option jsstring) :
  List.find is_html files = None ->
  run (Handler.validateZipFile type fileBaseName files reader) = (Throws MissingRootHtml, []).
Proof.
  intros H. unfold run, Handler.validateZipFile, Lodash.find.
  fold is_html. rewrite H. reflexivity.
Qed.

Lemma no_root_part001 (type : option jsstring) :
  List.find is_html files = None ->
  run (Part001.validateZipFile type fileBaseName files reader) = (Throws MissingRootHtml, []).
Proof.
  intros H. unfold run, Part001.validateZipFile, Lodash.find.
  fold is_html. rewrite H. reflexivity.
Qed.

(** What is left of [src/handler.js]'s function once the root file is
    found, for the two types. *)
Lemma handler_gwd (root : jsstring) :
  List.find is_html files = Some root ->
  run (Handler.validateZipFile (Some (str "gwd")) fileBaseName files reader) =
    (match reader root with
     | Throws e => Throws e
     | Returns content =>
         if length content <? 1 then Throws EmptyRootHtml
         else if negb (Lodash.includes content generator_marker)
              then Throws MissingGeneratorMetadata
              else if Lodash.includes content asset_reference
                        && negb (existsb (fun file => Lodash.includes file (str "assets/")) files)
                   then Throws MissingAssetsFolder
                   else Returns true
     end, [root]).
Proof.
  intros H. unfold run, Handler.validateZipFile, Lodash.find.
  fold is_html. rewrite H, (find_html_some H).
  change (jseq (str "gwd") (str "gwd")) with true. cbv iota.
  unfold bind, call. change ([] ++ [root]) with [root].
  destruct (reader root) as [content|e]; [|reflexivity].
  destruct (length content <? 1); [reflexivity|].
  fold generator_marker asset_reference.
  destruct (negb (Lodash.includes content generator_marker)); [reflexivity|].
  rewrite has_assets_iff.
  destruct (Lodash.includes content asset_reference
            && negb (existsb (fun file => Lodash.includes file (str "assets/")) files));
    reflexivity.
Qed.

Lemma part001_gwd (root : jsstring) :
  List.find is_html files = Some root ->
  run (Part001.validateZipFile (Some (str "gwd")) fileBaseName files reader) =
    run (Handler.validateZipFile (Some (str "gwd")) fileBaseName files reader).
Proof.
  intros H. rewrite (handler_gwd H).
  unfold run, Part001.validateZipFile, Lodash.find.
  fold is_html. rewrite H, (find_html_some H).
  change (jseq (str "gwd") (str "conversion")) with false.
  change (jseq (str "gwd") (str "gwd")) with true. cbv iota.
  unfold bind, call, ret. change ([] ++ [root]) with [root].
  destruct (reader root) as [content|e]; [|reflexivity].
  destruct (length content <? 1); [reflexivity|].
  fold generator_marker asset_reference.
  destruct (negb (Lodash.includes content generator_marker)); [reflexivity|].
  rewrite has_assets_iff.
  destruct (Lodash.includes content asset_reference
            && negb (existsb (fun file => Lodash.includes file (str "assets/")) files));
    reflexivity.
Qed.

Lemma handler_conversion (root : jsstring) :
  List.find is_html files = Some root ->
  run (Handler.validateZipFile (Some (str "conversion")) fileBaseName files reader) =
    if negb (Lodash.includes fileBaseName (rootHtmlFileBaseName fileBaseName root))
    then (Throws (mismatch_message fileBaseName (rootHtmlFileBaseName fileBaseName root)), [])
    else (match reader root with
          | Throws e => Throws e
          | Returns content =>
              if length content <? 1 then Throws EmptyRootHtml else Returns true
          end, [root]).
Proof.
  intros H. unfold run, Handler.validateZipFile, Lodash.find.
  fold is_html. rewrite H, (find_html_some H).
  change (jseq (str "conversion") (str "gwd")) with false. cbv iota.
  destruct (negb (Lodash.includes fileBaseName (rootHtmlFileBaseName fileBaseName root)));
    [reflexivity|].
  unfold bind, call. change ([] ++ [root]) with [root].
  destruct (reader root) as [content|e]; [|reflexivity].
  destruct (length content <? 1); reflexivity.
Qed.

Lemma part001_conversion (root : jsstring) :
  List.find is_html files = Some root ->
  run (Part001.validateZipFile (Some (str "conversion")) fileBaseName files reader) =
    run (Handler.validateZipFile (Some (str "conversion")) fileBaseName files reader).
Proof.
  intros H. rewrite (handler_conversion H).
  unfold run, Part001.validateZipFile, Lodash.find.
  fold is_html. rewrite H, (find_html_some H).
  change (jseq (str "conversion") (str "conversion")) with true.
  change (jseq (str "conversion") (str "gwd")) with false. cbv iota.
  unfold bind at 1.
  destruct (negb (Lodash.includes fileBaseName (rootHtmlFileBaseName fileBaseName root)));
    [reflexivity|].
  unfold bind, call, ret. change ([] ++ [root]) with [root].
  destruct (reader root) as [content|e]; [|reflexivity].
  destruct (length content <? 1); reflexivity.
Qed.

(** A type that is neither of the two leaves only the rules on the root
    file and its content in the second handler file. *)
Lemma part001_other (type root : jsstring) :
  type <> str "gwd" -> type <> str "conversion" ->
  List.find is_html files = Some root ->
  run (Part001.validateZipFile (Some type) fileBaseName files reader) =
    (match reader root with
     | Throws e => Throws e
     | Returns content =>
         if length content <? 1 then Throws EmptyRootHtml else Returns true
     end, [root]).
Proof.
  intros Hg Hc H. unfold run, Part001.validateZipFile, Lodash.find.
  fold is_html. rewrite H, (find_html_some H).
  rewrite (jseq_neq Hg), (jseq_neq Hc).
  unfold bind, call, ret. change ([] ++ [root]) with [root].
  destruct (reader root) as [content|e]; [|reflexivity].
  destruct (length content <? 1); reflexivity.
Qed.

End Validator.

(** C4, as amended: the listing is searched for the text [assets/], not
    for a segment.  For a DesignerTool ('gwd') bundle whose root file is
    present, is read, is not empty and contains the generator marker: if the
    content contains [src=Qassets/] (Q the double quote) and no path of the
    listing contains [assets/], validation throws exactly
    [Zip file is missing assets folder for linked assets]; if some path of
    the listing contains [assets/], validation returns [true].  Both handler
    files agree. *)
Theorem designer_assets_completeness :
  forall (fileBaseName : jsstring) (files : list jsstring)
         (reader : jsstring -> outcome jsstring) (root content : jsstring),
    Lodash.find files (fun file => Lodash.includes file (str ".html")) = Some root ->
    reader root = Returns content ->
    content <> [] ->
    Lodash.includes content generator_marker = true ->
    (Lodash.includes content (str "src=" ++ [dq] ++ str "assets/") = true ->
     (forall file, In file files -> Lodash.includes file (str "assets/") = false) ->
     result (Handler.validateZipFile (Some (str "gwd")) fileBaseName files reader)
       = Throws (str "Zip file is missing assets folder for linked assets")
     /\ result (Part001.validateZipFile (Some (str "gwd")) fileBaseName files reader)
       = Throws (str "Zip file is missing assets folder for linked assets"))
    /\
    ((exists file, In file files /\ Lodash.includes file (str "assets/") = true) ->
     result (Handler.validateZipFile (Some (str "gwd")) fileBaseName files reader) = Returns true
     /\ result (Part001.validateZipFile (Some (str "gwd")) fileBaseName files reader) = Returns true).
Proof.
  intros fileBaseName files reader root content Hroot Hread Hne Hmarker.
  assert (Hlen : (length content <? 1) = false) by (destruct content; [contradiction|reflexivity]).
  split.
  - intros Hlinks Hnone. unfold result.
    rewrite (@part001_gwd _ _ _ _ Hroot), (@handler_gwd _ _ _ _ Hroot), Hread, Hlen, Hmarker.
    change asset_reference with (str "src=" ++ [dq] ++ str "assets/"). rewrite Hlinks.
    assert (E : existsb (fun file => Lodash.includes file (str "assets/")) files = false).
    { apply not_true_is_false. intros Hex. apply existsb_exists in Hex as [f [Hf Hi]].
      rewrite (Hnone f Hf) in Hi. discriminate. }
    rewrite E. split; reflexivity.
  - intros Hsome. unfold result.
    rewrite (@part001_gwd _ _ _ _ Hroot), (@handler_gwd _ _ _ _ Hroot), Hread, Hlen, Hmarker.
    assert (E : existsb (fun file => Lodash.includes file (str "assets/")) files = true)
      by (apply existsb_exists; exact Hsome).
    rewrite E, andb_false_r. split; reflexivity.
Qed.

Lemma designer_assets_completeness_witness :
  (result (Handler.validateZipFile (Some (str "gwd")) (str "gwd-test-a")
             [str "gwd-test-a.html"] (read_as gwd_root_content))
     = Throws (str "Zip file is missing assets folder for linked assets")
   /\ result (Part001.validateZipFile (Some (str "gwd")) (str "gwd-test-a")
                [str "gwd-test-a.html"] (read_as gwd_root_content))
     = Throws (str "Zip file is missing assets folder for linked assets"))
  /\
  (result (Handler.validateZipFile (Some (str "gwd")) (str "gwd-test-a (1)")
             [str "gwd-test-a.html"; str "assets/test-image.png"] (read_as gwd_root_content))
     = Returns true
   /\ result (Part001.validateZipFile (Some (str "gwd")) (str "gwd-test-a (1)")
                [str "gwd-test-a.html"; str "assets/test-image.png"] (read_as gwd_root_content))
     = Returns true).
Proof.
  split.
  - refine (proj1 (@designer_assets_completeness (str "gwd-test-a") [str "gwd-test-a.html"]
                     (read_as gwd_root_content) (str "gwd-test-a.html") gwd_root_content
                     eq_refl eq_refl _ eq_refl) eq_refl _).
    + discriminate.
    + intros file [<-|[]]. reflexivity.
  - refine (proj2 (@designer_assets_completeness (str "gwd-test-a (1)")
                     [str "gwd-test-a.html"; str "assets/test-image.png"]
                     (read_as gwd_root_content) (str "gwd-test-a.html") gwd_root_content
                     eq_refl eq_refl _ eq_refl) _).
    + discriminate.
    + exists (str "assets/test-image.png"). split; [right; left; reflexivity | reflexivity].
Defined.

(** C4 as the specification words it does not hold: a listing without any
    [assets/] segment is accepted when a longer directory name ends in
    [assets]. *)
Lemma assets_inside_a_longer_name :
  existsb has_assets_segment [str "gwd-test-a.html"; str "myassets/logo.png"] = false
  /\ Lodash.includes gwd_root_content (str "src=" ++ [dq] ++ str "assets/") = true
  /\ result (Handler.validateZipFile (Some (str "gwd")) (str "gwd-test-a")
               [str "gwd-test-a.html"; str "myassets/logo.png"] (read_as gwd_root_content))
     = Returns true
  /\ result (Part001.validateZipFile (Some (str "gwd")) (str "gwd-test-a")
               [str "gwd-test-a.html"; str "myassets/logo.png"] (read_as gwd_root_content))
     = Returns true.
Proof. repeat split; vm_compute; reflexivity. Qed.

(** C9 as amended.  A type that is neither 'gwd' nor 'conversion' is not
    rejected.  In [src/handler.js], [validateFile] validates such a bundle,
    and one whose type is left out, exactly as a 'gwd' bundle.  In the second
    handler file a type that is left out is validated as 'gwd', and any other
    unrecognized type leaves the root-file rule and the empty-content rule
    only: the bundle is accepted as soon as its root file is found, read and
    not empty. *)
Theorem unrecognized_type_not_rejected :
  forall (exporter : option jsstring) (fileBaseName : jsstring) (files : list jsstring)
         (reader : jsstring -> outcome jsstring),
    exporter <> Some (str "gwd") ->
    exporter <> Some (str "conversion") ->
    run (Handler.validateFile fileBaseName exporter files reader)
      = run (Handler.validateFile fileBaseName (Some (str "gwd")) files reader)
    /\ (exporter = None ->
        run (Part001.validateFile fileBaseName exporter files reader)
          = run (Part001.validateFile fileBaseName (Some (str "gwd")) files reader))
    /\ (forall root content,
          exporter <> None ->
          Lodash.find files (fun file => Lodash.includes file (str ".html")) = Some root ->
          reader root = Returns content ->
          content <> [] ->
          result (Part001.validateFile fileBaseName exporter files reader) = Returns tt).
Proof.
  intros exporter fileBaseName files reader Hg Hc. split; [|split].
  - destruct exporter as [e|]; [|reflexivity].
    unfold run, Handler.validateFile.
    rewrite (@jseq_neq e (str "gwd")) by congruence.
    rewrite (@jseq_neq e (str "conversion")) by congruence.
    reflexivity.
  - intros ->. reflexivity.
  - intros root content Hn Hroot Hread Hne.
    destruct exporter as [e|]; [|contradiction].
    unfold result, run, Part001.validateFile, bind.
    assert (He1 : e <> str "gwd") by congruence.
    assert (He2 : e <> str "conversion") by congruence.
    pose proof (@part001_other fileBaseName files reader e root He1 He2 Hroot) as H.
    unfold run in H. rewrite H, Hread.
    destruct content; [contradiction|reflexivity].
Qed.

Lemma unrecognized_type_not_rejected_witness :
  result (Part001.validateFile (str "banner") (Some (str "flash")) [str "banner.html"]
            (read_as conversion_root_content)) = Returns tt.
Proof.
  refine (proj2 (proj2 (@unrecognized_type_not_rejected (Some (str "flash")) (str "banner")
                          [str "banner.html"] (read_as conversion_root_content) _ _))
            (str "banner.html") conversion_root_content _ eq_refl eq_refl _);
    discriminate.
Defined.

(** C9 as stated fails: a bundle declared with the type 'flash' is accepted
    by [validateFile] in both handler files. *)
Lemma unrecognized_type_accepted :
  jseq (str "flash") (str "gwd") = false
  /\ jseq (str "flash") (str "conversion") = false
  /\ result (Handler.validateFile (str "banner") (Some (str "flash")) [str "banner.html"; str "assets/test-image.png"]
               (read_as gwd_root_content)) = Returns tt
  /\ result (Part001.validateFile (str "banner") (Some (str "flash")) [str "banner.html"; str "assets/test-image.png"]
               (read_as gwd_root_content)) = Returns tt
  /\ result (Handler.validateFile (str "banner") (Some (str "flash")) [str "banner.html"; str "assets/test-image.png"]
               (read_as gwd_root_content))
     = result (Handler.validateFile (str "banner") (Some (str "gwd")) [str "banner.html"; str "assets/test-image.png"]
                 (read_as gwd_root_content)).
Proof.
  repeat split; vm_compute; reflexivity.
Qed.

(** ** The matcher *)

Lemma or_else_none (A : Type) (x : option A) : or_else x None = x.
Proof. now destruct x. Qed.

Lemma one_ext (t : char -> bool) (k k' : continuation) (s : jsstring) :
  (forall x, k x = k' x) -> one t k s = one t k' s.
Proof.
  intros H. destruct s as [|c s]; simpl; [reflexivity|]. now rewrite H.
Qed.

Lemma one_inv (t : char -> bool) (k : continuation) (s r : jsstring) :
  one t k s = Some r -> exists c s', s = c :: s' /\ t c = true /\ k s' = Some r.
Proof.
  destruct s as [|c s]; simpl; [discriminate|].
  destruct (t c) eqn:E; [|discriminate]. intros H. now exists c, s.
Qed.

Lemma greedy_ext (t : char -> bool) (k k' : continuation) (s : jsstring) :
  (forall x, k x = k' x) -> greedy t k s = greedy t k' s.
Proof.
  intros H. induction s as [|c s IH]; simpl; [apply H|].
  now rewrite IH, H.
Qed.

Lemma repeat_one (t : char -> bool) (k : continuation) (fuel : nat) (s : jsstring) :
  length s <= fuel -> repeat (one t) k fuel s = greedy t k s.
Proof.
  revert s. induction fuel as [|fuel IH]; intros s Hlen.
  - destruct s; [reflexivity|simpl in Hlen; lia].
  - destruct s as [|c s]; simpl; [reflexivity|].
    destruct (t c); [|reflexivity].
    assert (E : (length s <? S (length s)) = true) by (apply Nat.ltb_lt; lia).
    rewrite E, IH by (simpl in Hlen; lia). reflexivity.
Qed.

(** A successful greedy run consumed a run of accepted characters. *)
Lemma greedy_inv (t : char -> bool) (k : continuation) (s r : jsstring) :
  greedy t k s = Some r ->
  exists l s', s = l ++ s' /\ forallb t l = true /\ k s' = Some r.
Proof.
  induction s as [|c s IH]; simpl; intros H.
  - now exists [], [].
  - destruct (t c) eqn:E.
    + destruct (greedy t k s) as [r'|] eqn:G; simpl in H.
      * injection H as <-. destruct (IH eq_refl) as (l & s' & -> & Hl & Hk).
        exists (c :: l), s'. simpl. now rewrite E, Hl.
      * now exists [], (c :: s).
    + now exists [], (c :: s).
Qed.

(** Nothing is found when the continuation fails after every run. *)
Lemma greedy_none (t : char -> bool) (k : continuation) (s : jsstring) :
  (forall l s', s = l ++ s' -> forallb t l = true -> k s' = None) ->
  greedy t k s = None.
Proof.
  induction s as [|c s IH]; simpl; intros H.
  - apply (H [] []); reflexivity.
  - assert (Hk : k (c :: s) = None) by (apply (H [] (c :: s)); reflexivity).
    destruct (t c) eqn:E; [|exact Hk].
    rewrite IH, Hk; [reflexivity|].
    intros l s' -> Hl. apply (H (c :: l) s'); [reflexivity|]. simpl. now rewrite E, Hl.
Qed.

(** The longest run wins: a success further on is kept. *)
Lemma greedy_run (t : char -> bool) (k : continuation) (l s r : jsstring) :
  forallb t l = true -> greedy t k s = Some r -> greedy t k (l ++ s) = Some r.
Proof.
  intros Hl Hs. induction l as [|c l IH]; simpl; [exact Hs|].
  simpl in Hl. apply andb_true_iff in Hl as [Hc Hl].
  now rewrite Hc, (IH Hl).
Qed.

(** When the continuation cannot start with an accepted character, the run
    is taken whole. *)
Lemma greedy_committed (t : char -> bool) (k : continuation) (l s : jsstring) :
  (forall c x, t c = true -> k (c :: x) = None) ->
  forallb t l = true ->
  match s with [] => True | c :: _ => t c = false end ->
  greedy t k (l ++ s) = k s.
Proof.
  intros Hk Hl Hs. induction l as [|c l IH]; simpl.
  - destruct s as [|c s]; simpl; [reflexivity|]. now rewrite Hs.
  - simpl in Hl. apply andb_true_iff in Hl as [Hc Hl].
    rewrite Hc, (IH Hl), (Hk c (l ++ s) Hc). apply or_else_none.
Qed.

(** Some run succeeds, so the greedy search does. *)
Lemma greedy_complete (t : char -> bool) (k : continuation) (l s r : jsstring) :
  forallb t l = true -> k s = Some r -> exists r', greedy t k (l ++ s) = Some r'.
Proof.
  intros Hl Hk. induction l as [|c l IH]; simpl.
  - destruct s as [|c s]; simpl; [now exists r|].
    destruct (t c); [|now exists r].
    destruct (greedy t k s) as [r'|]; simpl; [now exists r'|now exists r].
  - simpl in Hl. apply andb_true_iff in Hl as [Hc Hl].
    rewrite Hc. destruct (IH Hl) as [r' ->]. now exists r'.
Qed.

Lemma one_ext2 (t t' : char -> bool) (k k' : continuation) (s : jsstring) :
  (forall c, t c = t' c) -> (forall x, k x = k' x) -> one t k s = one t' k' s.
Proof.
  intros Ht Hk. destruct s as [|c s]; simpl; [reflexivity|]. now rewrite Ht, Hk.
Qed.

Lemma greedy_ext2 (t t' : char -> bool) (k k' : continuation) (s : jsstring) :
  (forall c, t c = t' c) -> (forall x, k x = k' x) -> greedy t k s = greedy t' k' s.
Proof.
  intros Ht Hk. induction s as [|c s IH]; simpl; [apply Hk|].
  now rewrite Ht, IH, Hk.
Qed.

Lemma star_atom (t t' : char -> bool) (k k' : continuation) (s : jsstring) :
  (forall c, t c = t' c) -> (forall x, k x = k' x) ->
  repeat (fun k0 s0 => one t k0 s0) k (length s) s = greedy t' k' s.
Proof.
  intros Ht Hk. change (fun k0 s0 => one t k0 s0) with (one t).
  rewrite repeat_one by lia. now apply greedy_ext2.
Qed.

Lemma opt_atom (t t' : char -> bool) (k k' : continuation) (s : jsstring) :
  (forall c, t c = t' c) -> (forall x, k x = k' x) ->
  or_else (one t (fun s' => if length s' <? length s then k s' else None) s) (k s)
    = optional t' k' s.
Proof.
  intros Ht Hk. destruct s as [|c s]; simpl; [apply Hk|].
  rewrite <- Ht, <- !Hk. destruct (t c); [|reflexivity].
  assert (E : (length s <? S (length s)) = true) by (apply Nat.ltb_lt; lia).
  now rewrite E.
Qed.

Lemma class_quote (c : char) :
  xorb false (existsb (item_matches false c) [CChar dq; CChar sq]) = is_quote c.
Proof.
  unfold is_quote. simpl. now rewrite orb_false_r.
Qed.

Lemma class_not_rparen (c : char) :
  xorb true (existsb (item_matches false c) [CChar rparen]) = not_rparen c.
Proof.
  unfold not_rparen. simpl. now rewrite orb_false_r.
Qed.

Lemma class_not_space (ic : bool) (c : char) :
  xorb true (existsb (item_matches ic c) [CSpace]) = not_space c.
Proof.
  unfold not_space. simpl. now rewrite orb_false_r.
Qed.

Lemma class_quote_i (c : char) :
  xorb false (existsb (item_matches true c) [CChar dq; CChar sq]) = is_quote c.
Proof.
  unfold is_quote. simpl. rewrite orb_false_r. unfold char_matches.
  change (canonicalize dq) with dq. change (canonicalize sq) with sq.
  unfold canonicalize.
  destruct ((97 <=? c)%N && (c <=? 122)%N) eqn:E; [|reflexivity].
  apply andb_true_iff in E as [E1 E2]. apply N.leb_le in E1, E2.
  assert (H1 : N.eqb (c - 32) dq = false) by (apply N.eqb_neq; unfold dq; lia).
  assert (H2 : N.eqb (c - 32) sq = false) by (apply N.eqb_neq; unfold sq; lia).
  assert (H3 : N.eqb c dq = false) by (apply N.eqb_neq; unfold dq; lia).
  assert (H4 : N.eqb c sq = false) by (apply N.eqb_neq; unfold sq; lia).
  now rewrite H1, H2, H3, H4.
Qed.

Lemma equals_i (c : char) : char_matches true equals c = is_char equals c.
Proof.
  unfold char_matches, is_char. change (canonicalize equals) with equals.
  unfold canonicalize.
  destruct ((97 <=? c)%N && (c <=? 122)%N) eqn:E; [|reflexivity].
  apply andb_true_iff in E as [E1 E2]. apply N.leb_le in E1, E2.
  assert (H1 : N.eqb (c - 32) equals = false) by (apply N.eqb_neq; unfold equals; lia).
  assert (H2 : N.eqb c equals = false) by (apply N.eqb_neq; unfold equals; lia).
  now rewrite H1, H2.
Qed.

Ltac step_one := apply one_ext2; [intros ?; try reflexivity | intros ?].

Lemma exit_call_compiled (k : continuation) (s : jsstring) :
  rmatch (ignore_case exit_call) (tree exit_call) k s = exit_call_matcher k s.
Proof.
  cbn [ignore_case tree exit_call lit str map list_ascii_of_string rmatch].
  unfold exit_call_matcher. cbn [letters str map list_ascii_of_string].
  do 6 step_one. step_one; [apply class_not_rparen|].
  apply star_atom; [apply class_not_rparen|]. intros ?. reflexivity.
Qed.

Lemma click_tag_compiled (k : continuation) (s : jsstring) :
  rmatch (ignore_case click_tag) (tree click_tag) k s = click_tag_matcher k s.
Proof.
  cbn [ignore_case tree click_tag lit str map list_ascii_of_string rmatch quote].
  unfold click_tag_matcher. cbn [letters str map list_ascii_of_string].
  do 8 step_one.
  apply star_atom; [reflexivity|intros ?].
  step_one; [apply equals_i|].
  apply star_atom; [reflexivity|intros ?].
  step_one; [apply class_quote_i|].
  apply star_atom; [reflexivity|intros ?].
  step_one; [apply class_quote_i|reflexivity].
Qed.

Lemma quoted_url_compiled (k : continuation) (s : jsstring) :
  rmatch (ignore_case quoted_url) (tree quoted_url) k s = quoted_url_matcher k s.
Proof.
  cbn [ignore_case tree quoted_url lit str map list_ascii_of_string rmatch quote].
  unfold quoted_url_matcher. cbn [letters str map list_ascii_of_string].
  step_one; [apply class_quote|].
  do 4 step_one.
  apply opt_atom; [reflexivity|intros ?].
  do 3 step_one.
  step_one; [apply class_not_space|].
  apply star_atom; [apply class_not_space|intros ?].
  step_one; [apply class_quote|reflexivity].
Qed.

Lemma quoted_url_comma_compiled (k : continuation) (s : jsstring) :
  rmatch (ignore_case quoted_url_comma) (tree quoted_url_comma) k s
    = quoted_url_comma_matcher k s.
Proof.
  cbn [ignore_case tree quoted_url_comma lit str map list_ascii_of_string rmatch quote].
  unfold quoted_url_comma_matcher, quoted_url_matcher.
  cbn [letters str map list_ascii_of_string].
  step_one; [apply class_quote|].
  do 4 step_one.
  apply opt_atom; [reflexivity|intros ?].
  do 3 step_one.
  step_one; [apply class_not_space|].
  apply star_atom; [apply class_not_space|intros ?].
  step_one; [apply class_quote|]. reflexivity.
Qed.

Lemma letters_char_inv (p : jsstring) (k : continuation) (s r : jsstring) :
  letters is_char p k s = Some r -> exists s', s = p ++ s' /\ k s' = Some r.
Proof.
  revert s. induction p as [|x p IH]; intros s H; simpl in H.
  - now exists s.
  - apply one_inv in H as (c & s1 & -> & Hc & H).
    apply N.eqb_eq in Hc. subst c.
    destruct (IH _ H) as (s' & -> & Hk). now exists s'.
Qed.

Lemma letters_char_app (p : jsstring) (k : continuation) (s : jsstring) :
  letters is_char p k (p ++ s) = k s.
Proof.
  induction p as [|x p IH]; simpl; [reflexivity|].
  unfold is_char at 1. now rewrite N.eqb_refl.
Qed.

Lemma letters_letter_inv (p : jsstring) (k : continuation) (s r : jsstring) :
  letters is_letter p k s = Some r ->
  exists id s', s = id ++ s' /\ same_letters p id = true /\ k s' = Some r.
Proof.
  revert s. induction p as [|x p IH]; intros s H; simpl in H.
  - now exists [], s.
  - apply one_inv in H as (c & s1 & -> & Hc & H).
    destruct (IH _ H) as (id & s' & -> & Hid & Hk).
    exists (c :: id), s'. simpl. now rewrite Hc, Hid.
Qed.

Lemma letters_letter_app (p id : jsstring) (k : continuation) (s : jsstring) :
  same_letters p id = true -> letters is_letter p k (id ++ s) = k s.
Proof.
  revert id. induction p as [|x p IH]; intros [|c id] H; simpl in *; try discriminate.
  - reflexivity.
  - apply andb_true_iff in H as [Hc Hid]. now rewrite Hc, IH.
Qed.

Lemma firstn_matched (m rest : jsstring) :
  firstn (length (m ++ rest) - length rest) (m ++ rest) = m.
Proof.
  rewrite length_app, Nat.add_sub. rewrite firstn_app, Nat.sub_diag, firstn_all.
  simpl. apply app_nil_r.
Qed.

(** ** Scanning *)

Lemma match_from_in (p : pattern) (s : jsstring) (skip : nat) (m : jsstring) :
  In m (match_from p s skip) ->
  exists before s' rest, s = before ++ s' /\ match_here p s' = Some (m, rest).
Proof.
  revert skip. induction s as [|c s IH]; intros skip H.
  - destruct skip; simpl in H; [|contradiction].
    destruct (match_here p []) as [[m' r]|] eqn:E; [|contradiction].
    destruct H as [<-|[]]. now exists [], [], r.
  - destruct skip as [|n]; simpl in H.
    + destruct (match_here p (c :: s)) as [[m' r]|] eqn:E.
      * destruct H as [<-|H]; [now exists [], (c :: s), r|].
        destruct (IH _ H) as (b & s' & r' & -> & Hm). now exists (c :: b), s', r'.
      * destruct (IH _ H) as (b & s' & r' & -> & Hm). now exists (c :: b), s', r'.
    + destruct (IH _ H) as (b & s' & r' & -> & Hm). now exists (c :: b), s', r'.
Qed.

Lemma match_all_nil_here (p : pattern) (s : jsstring) :
  match_all p s = [] -> match_here p s = None.
Proof.
  unfold match_all. destruct s; simpl; destruct (match_here p _) as [[m r]|];
    try discriminate; reflexivity.
Qed.

Lemma match_all_nil_tail (p : pattern) (c : char) (s : jsstring) :
  match_all p (c :: s) = [] -> match_all p s = [].
Proof.
  unfold match_all. simpl. destruct (match_here p (c :: s)) as [[m r]|];
    [discriminate|trivial].
Qed.

(** Without a match, replacing is the identity. *)
Lemma replace_all_nil (p : pattern) (f : jsstring -> jsstring) (s : jsstring) :
  match_all p s = [] -> replace_all p f s = s.
Proof.
  unfold replace_all. induction s as [|c s IH]; intros H.
  - simpl. now rewrite (match_all_nil_here _ _ H).
  - simpl. rewrite (match_all_nil_here _ _ H).
    f_equal. apply IH. exact (match_all_nil_tail _ _ _ H).
Qed.

(** ** Replacing a string by a string *)

Lemma indexOf_some (p s : jsstring) (i : nat) :
  Js.indexOf p s = Some i ->
  exists before after, s = before ++ p ++ after /\ length before = i.
Proof.
  revert i. induction s as [|c s IH]; intros i H; simpl in H.
  - destruct (Js.starts_with p []) eqn:E; [|discriminate].
    injection H as <-. apply starts_with_inv in E as [t E]. now exists [], t.
  - destruct (Js.starts_with p (c :: s)) eqn:E.
    + injection H as <-. apply starts_with_inv in E as [t E]. now exists [], t.
    + destruct (Js.indexOf p s) as [j|] eqn:F; [|discriminate].
      injection H as <-. destruct (IH _ eq_refl) as (b & a & -> & Hb).
      exists (c :: b), a. simpl. now rewrite Hb.
Qed.

Lemma get_substitution_plain (matched before after templ : jsstring) :
  mem dollar templ = false -> Js.get_substitution matched before after templ = templ.
Proof.
  unfold mem. induction templ as [|c t IH]; intros H; [reflexivity|].
  cbn [existsb] in H. apply orb_false_iff in H as [Hc Ht].
  rewrite N.eqb_sym in Hc. cbn [Js.get_substitution]. rewrite Hc. now rewrite IH.
Qed.

Lemma replace_by_itself (p s : jsstring) :
  mem dollar p = false -> Js.replace p p s = s.
Proof.
  intros H. unfold Js.replace.
  destruct (Js.indexOf p s) as [i|] eqn:E; [|reflexivity].
  apply indexOf_some in E as (b & a & -> & <-).
  rewrite get_substitution_plain by exact H.
  rewrite firstn_app, Nat.sub_diag, firstn_all. simpl. rewrite app_nil_r.
  rewrite skipn_app, skipn_all2 by lia. simpl.
  replace (length b + length p - length b) with (length p) by lia.
  rewrite skipn_app, skipn_all, Nat.sub_diag. reflexivity.
Qed.

(** ** What the four patterns match *)

Lemma optional_inv (t : char -> bool) (k : continuation) (s r : jsstring) :
  optional t k s = Some r ->
  (exists c s', s = c :: s' /\ t c = true /\ k s' = Some r) \/ k s = Some r.
Proof.
  destruct s as [|c s]; simpl; [now right|].
  destruct (t c) eqn:E; [|now right].
  destruct (k s) as [r'|] eqn:K; simpl; intros H; [|now right].
  injection H as <-. left. now exists c, s.
Qed.

Lemma match_here_inv (p : pattern) (s m rest : jsstring) :
  match_here p s = Some (m, rest) ->
  rmatch (ignore_case p) (tree p) (fun r => Some r) s = Some rest
  /\ m = firstn (length s - length rest) s.
Proof.
  unfold match_here.
  destruct (rmatch (ignore_case p) (tree p) (fun r => Some r) s) as [r|]; [|discriminate].
  intros H. injection H as <- <-. now split.
Qed.

Lemma match_here_intro (p : pattern) (m rest : jsstring) :
  rmatch (ignore_case p) (tree p) (fun r => Some r) (m ++ rest) = Some rest ->
  match_here p (m ++ rest) = Some (m, rest).
Proof.
  unfold match_here. intros ->. now rewrite firstn_matched.
Qed.

Lemma exit_call_here (s m rest : jsstring) :
  match_here exit_call s = Some (m, rest) -> s = m ++ rest /\ exit_call_shape m.
Proof.
  intros H. apply match_here_inv in H as [H ->].
  rewrite exit_call_compiled in H. unfold exit_call_matcher in H.
  apply one_inv in H as (c & s1 & -> & Hc & H).
  apply letters_char_inv in H as (s2 & -> & H).
  apply one_inv in H as (a & s3 & -> & Ha & H).
  apply greedy_inv in H as (args & s4 & -> & Hargs & H).
  apply one_inv in H as (c' & s5 & -> & Hc' & H).
  injection H as ->. apply N.eqb_eq in Hc'. subst c'.
  assert (E : c :: str "exit(" ++ a :: args ++ rparen :: rest
              = (c :: str "exit(" ++ a :: args ++ [rparen]) ++ rest).
  { simpl. now rewrite <- app_assoc. }
  rewrite E, firstn_matched. split; [reflexivity|].
  exists c, a, args. simpl forallb. now rewrite Ha, Hargs.
Qed.

Lemma quoted_url_matcher_inv (k : continuation) (s r : jsstring) :
  quoted_url_matcher k s = Some r ->
  exists u rest, s = u ++ rest /\ quoted_url_shape u /\ k rest = Some r.
Proof.
  unfold quoted_url_matcher. intros H.
  apply one_inv in H as (q & s1 & -> & Hq & H).
  apply letters_char_inv in H as (s2 & -> & H).
  assert (T : forall x, letters is_char (str "://")
                  (one not_space (greedy not_space (one is_quote k))) x = Some r ->
              exists c l q' rest, x = str "://" ++ c :: l ++ q' :: rest
                /\ forallb not_space (c :: l) = true /\ is_quote q' = true
                /\ k rest = Some r).
  { intros x Hx. apply letters_char_inv in Hx as (s3 & -> & Hx).
    apply one_inv in Hx as (c & s4 & -> & Hc & Hx).
    apply greedy_inv in Hx as (l & s5 & -> & Hl & Hx).
    apply one_inv in Hx as (q' & rest & -> & Hq' & Hx).
    exists c, l, q', rest. simpl forallb. now rewrite Hc, Hl. }
  apply optional_inv in H as [(c0 & s3 & -> & Hc0 & H)|H].
  - apply N.eqb_eq in Hc0. subst c0.
    destruct (T _ H) as (c & l & q' & rest & -> & Hcl & Hq' & Hk).
    exists (q :: str "https://" ++ c :: l ++ [q']), rest. split; [|split; [|exact Hk]].
    + simpl. now rewrite <- app_assoc.
    + exists q, (str "https://"), c, l, q'. auto.
  - destruct (T _ H) as (c & l & q' & rest & -> & Hcl & Hq' & Hk).
    exists (q :: str "http://" ++ c :: l ++ [q']), rest. split; [|split; [|exact Hk]].
    + simpl. now rewrite <- app_assoc.
    + exists q, (str "http://"), c, l, q'. auto.
Qed.

Lemma quoted_url_here (s m rest : jsstring) :
  match_here quoted_url s = Some (m, rest) -> s = m ++ rest /\ quoted_url_shape m.
Proof.
  intros H. apply match_here_inv in H as [H ->].
  rewrite quoted_url_compiled in H.
  apply quoted_url_matcher_inv in H as (u & rest' & -> & Hu & Hk).
  injection Hk as ->. now rewrite firstn_matched.
Qed.

Lemma quoted_url_comma_here (s m rest : jsstring) :
  match_here quoted_url_comma s = Some (m, rest) ->
  s = m ++ rest /\ exists u, m = u ++ [comma] /\ quoted_url_shape u.
Proof.
  intros H. apply match_here_inv in H as [H ->].
  rewrite quoted_url_comma_compiled in H. unfold quoted_url_comma_matcher in H.
  apply quoted_url_matcher_inv in H as (u & rest' & -> & Hu & Hk).
  apply one_inv in Hk as (c & s' & -> & Hc & Hk). injection Hk as ->.
  apply N.eqb_eq in Hc. subst c.
  assert (E : u ++ comma :: rest = (u ++ [comma]) ++ rest) by now rewrite <- app_assoc.
  rewrite E, firstn_matched. split; [reflexivity|]. now exists u.
Qed.

Lemma click_tag_here (s m rest : jsstring) :
  match_here click_tag s = Some (m, rest) -> s = m ++ rest /\ click_tag_shape m.
Proof.
  intros H. apply match_here_inv in H as [H ->].
  rewrite click_tag_compiled in H. unfold click_tag_matcher in H.
  apply letters_letter_inv in H as (id & s1 & -> & Hid & H).
  apply greedy_inv in H as (ws1 & s2 & -> & Hws1 & H).
  apply one_inv in H as (e & s3 & -> & He & H). apply N.eqb_eq in He. subst e.
  apply greedy_inv in H as (ws2 & s4 & -> & Hws2 & H).
  apply one_inv in H as (q & s5 & -> & Hq & H).
  apply greedy_inv in H as (v & s6 & -> & Hv & H).
  apply one_inv in H as (q' & s7 & -> & Hq' & H). injection H as ->.
  assert (E : id ++ ws1 ++ equals :: ws2 ++ q :: v ++ q' :: rest
              = (id ++ ws1 ++ equals :: ws2 ++ q :: v ++ [q']) ++ rest).
  { rewrite <- !app_assoc. simpl. rewrite <- !app_assoc. simpl.
    now rewrite <- !app_assoc. }
  rewrite E, firstn_matched. split; [reflexivity|].
  exists id, ws1, ws2, q, v, q'. auto 10.
Qed.

Lemma match_all_shape (t : bundle_type) (body m : jsstring) :
  In m (match_all (clickthrough_pattern t) body) ->
  clickthrough_shape t m /\ exists before after, body = before ++ m ++ after.
Proof.
  intros H. apply match_from_in in H as (b & s' & r & -> & H).
  destruct t; simpl in *.
  - apply exit_call_here in H as [-> H]. split; [exact H|]. now exists b, r.
  - apply click_tag_here in H as [-> H]. split; [exact H|]. now exists b, r.
Qed.

Lemma match_all_url_shape (t : bundle_type) (params u : jsstring) :
  In u (match_all (url_pattern t) params) ->
  url_shape t u /\ exists before after, params = before ++ u ++ after.
Proof.
  intros H. apply match_from_in in H as (b & s' & r & -> & H).
  destruct t; simpl in *.
  - apply quoted_url_comma_here in H as [-> H]. split; [exact H|]. now exists b, r.
  - apply quoted_url_here in H as [-> H]. split; [exact H|]. now exists b, r.
Qed.

(** ** The rewriter *)

Lemma handler_process (t : bundle_type) (body : jsstring) :
  Handler.processClickthroughUrls body (Some (tag t)) =
    fold_left
      (fun output params =>
         Js.replace params (Handler.formattedParams (is_generic t) (url_pattern t) params) output)
      (match_all (clickthrough_pattern t) body) body.
Proof. destruct t; reflexivity. Qed.

Lemma part001_process (t : bundle_type) (body : jsstring) :
  Part001.processClickthroughUrls body (Some (tag t)) =
    fold_left
      (fun output params =>
         Js.replace params (Part001.formattedParams (is_designer t) (url_pattern t) params) output)
      (match_all (clickthrough_pattern t) body) body.
Proof. destruct t; reflexivity. Qed.

(** The loop leaves the text alone when every occurrence is formatted to
    itself and holds no [$]. *)
Lemma each_unchanged (format : jsstring -> jsstring) (occurrences : list jsstring)
  (body : jsstring) :
  (forall p, In p occurrences -> format p = p /\ mem dollar p = false) ->
  fold_left (fun output params => Js.replace params (format params) output) occurrences body
    = body.
Proof.
  induction occurrences as [|p l IH]; intros H; simpl; [reflexivity|].
  destruct (H p (or_introl eq_refl)) as [-> Hd].
  rewrite replace_by_itself by exact Hd.
  apply IH. intros q Hq. apply H. now right.
Qed.


(** ** The loop in an engine with a longest string *)

Lemma each_thrown (limit : N) (format : jsstring -> jsstring) (occurrences : list jsstring)
  (e : jsstring) :
  fold_left
    (fun output params =>
       match output with
       | Throws e => Throws e
       | Returns output =>
           match Engine.built limit (format params) with
           | Throws e => Throws e
           | Returns formattedParams =>
               Engine.built limit (Js.replace params formattedParams output)
           end
       end)
    occurrences (Throws e) = Throws e.
Proof. induction occurrences as [|p l IH]; [reflexivity|exact IH]. Qed.

Lemma built_cases (limit : N) (s : jsstring) :
  (Engine.fits limit s = true /\ Engine.built limit s = Returns s)
  \/ (Engine.fits limit s = false /\ Engine.built limit s = Throws Engine.invalid_string_length).
Proof. unfold Engine.built. destruct (Engine.fits limit s); [left|right]; now split. Qed.

Lemma each_cons (limit : N) (format : jsstring -> jsstring) (p : jsstring)
  (occurrences : list jsstring) (body : jsstring) :
  Engine.each limit format (p :: occurrences) body
    = if Engine.fits limit (format p) && Engine.fits limit (Js.replace p (format p) body)
      then Engine.each limit format occurrences (Js.replace p (format p) body)
      else Throws Engine.invalid_string_length.
Proof.
  unfold Engine.each. cbn [fold_left]. unfold Engine.built at 3.
  destruct (Engine.fits limit (format p)); cbn [andb]; [|apply each_thrown].
  unfold Engine.built at 3.
  destruct (Engine.fits limit (Js.replace p (format p) body)); [reflexivity|apply each_thrown].
Qed.

(** The loop returns the text of the loop without a limit, or throws the
    [RangeError]. *)
Lemma each_cases (limit : N) (format : jsstring -> jsstring) (occurrences : list jsstring) :
  forall body,
    Engine.each limit format occurrences body
      = Returns (fold_left (fun output params => Js.replace params (format params) output)
                   occurrences body)
    \/ Engine.each limit format occurrences body = Throws Engine.invalid_string_length.
Proof.
  induction occurrences as [|p l IH]; intros body; [now left|].
  rewrite each_cons. cbn [fold_left].
  destruct (Engine.fits limit (format p) && Engine.fits limit (Js.replace p (format p) body));
    [apply IH|now right].
Qed.

Lemma engine_handler (limit : N) (body : jsstring) (type : option jsstring) :
  Engine.processClickthroughUrls limit body type
    = Returns (Handler.processClickthroughUrls body type)
  \/ Engine.processClickthroughUrls limit body type = Throws Engine.invalid_string_length.
Proof. apply each_cases. Qed.


Lemma engine_handler_returns (limit : N) (body text : jsstring) (type : option jsstring) :
  Engine.processClickthroughUrls limit body type = Returns text ->
  text = Handler.processClickthroughUrls body type.
Proof.
  intros H. destruct (engine_handler limit body type) as [E|E]; rewrite E in H.
  - now injection H.
  - discriminate.
Qed.

Lemma engine_handler_throws (limit : N) (body e : jsstring) (type : option jsstring) :
  Engine.processClickthroughUrls limit body type = Throws e ->
  e = Engine.invalid_string_length.
Proof.
  intros H. destruct (engine_handler limit body type) as [E|E]; rewrite E in H.
  - discriminate.
  - now injection H.
Qed.

(** C8 as stated fails: the run [[^\)]+] takes newlines, so this exit call
    written over two lines is one match, with the newline inside. *)
Lemma exit_call_match_spans_lines :
  match_all exit_call exit_over_two_lines
    = [str ".exit('gwd-ad'," ++ [10%N] ++ str "  'Btn-Exit')"]
  /\ In 10%N (str ".exit('gwd-ad'," ++ [10%N] ++ str "  'Btn-Exit')").
Proof.
  split; [vm_compute; reflexivity|].
  apply in_or_app. right. left. reflexivity.
Qed.

(** C8 as amended.  Every match of the exit-call pattern in a body is a piece
    of the body made of one character that is no line terminator, [exit(], a
    non-empty run of characters other than the closing parenthesis, and the
    closing parenthesis.  Only the first character is kept from being a line
    terminator: the run may hold newlines, so a match may span lines. *)
Theorem exit_call_match_shape :
  forall (body m : jsstring),
    In m (match_all exit_call body) ->
    (exists c a args,
        m = c :: str "exit(" ++ a :: args ++ [rparen]
        /\ is_line_terminator c = false
        /\ forallb (fun x => negb (N.eqb x rparen)) (a :: args) = true)
    /\ exists before after, body = before ++ m ++ after.
Proof.
  intros body m H. destruct (@match_all_shape DesignerTool body m H) as [(c & a & args & E & Hc & Ha) Hsub].
  split; [|exact Hsub]. exists c, a, args. split; [exact E|]. split; [|exact Ha].
  unfold not_line_terminator in Hc. now apply negb_true_iff in Hc.
Qed.

Lemma exit_call_match_shape_witness :
  exists c a args,
    str ".exit('gwd-ad'," ++ [10%N] ++ str "  'Btn-Exit')"
      = c :: str "exit(" ++ a :: args ++ [rparen]
    /\ is_line_terminator c = false
    /\ forallb (fun x => negb (N.eqb x rparen)) (a :: args) = true.
Proof.
  refine (proj1 (@exit_call_match_shape exit_over_two_lines
                   (str ".exit('gwd-ad'," ++ [10%N] ++ str "  'Btn-Exit')") _)).
  vm_compute. left. reflexivity.
Defined.

(** C10 as stated fails: the quoted value of this assignment starts with [x],
    not with [http://], and yet the assignment is rewritten, because the URL
    pattern is looked for anywhere in the occurrence and finds the inner
    quote followed by [http://a]. *)
Lemma nested_quote_is_rewritten :
  Handler.processClickthroughUrls nested_quote (Some (str "conversion"))
    = str "clickTag = " ++ [dq] ++ str "x" ++ decodeUri ++ [dq] ++ str "http://a'" ++ [dq]
  /\ Part001.processClickthroughUrls nested_quote (Some (str "conversion"))
    = str "clickTag = " ++ [dq] ++ str "x" ++ decodeUri ++ [dq] ++ str "http://a'" ++ [dq]
  /\ Part001.processClickthroughUrls nested_quote (Some (str "conversion")) <> nested_quote.
Proof.
  repeat split; try (vm_compute; reflexivity).
  vm_compute. discriminate.
Qed.

Lemma some_occurrence (f : jsstring -> bool) (l : list jsstring) :
  forallb f l = false -> exists p, In p l /\ f p = false.
Proof.
  induction l as [|x l IH]; [discriminate|]. cbn [forallb]. intros H.
  destruct (f x) eqn:E.
  - destruct (IH H) as (p & Hin & Hp). exists p. split; [now right|exact Hp].
  - exists x. split; [now left|exact E].
Qed.

(** The loop leaves the body alone when no occurrence holds a piece the URL
    pattern finds, nor a [$]. *)
Lemma nothing_to_rewrite (t : bundle_type) (body : jsstring) :
  (forall p, In p (match_all (clickthrough_pattern t) body) ->
             match_all (url_pattern t) p = [] /\ mem dollar p = false) ->
  Handler.processClickthroughUrls body (Some (tag t)) = body
  /\ Part001.processClickthroughUrls body (Some (tag t)) = body.
Proof.
  intros H. rewrite handler_process, part001_process.
  split; apply each_unchanged; intros p Hp; destruct (H p Hp) as [Hu Hd];
    (split; [|exact Hd]); now apply replace_all_nil.
Qed.

(** C10 as amended.  For both bundle types and both handler files: when no
    occurrence of the body holds a [$], nor anywhere in it a piece made of a
    quote character, [http://] or [https://], a non-empty run without
    whitespace and a quote character (followed by a comma for DesignerTool),
    the result is the body itself; so a result that differs from the body
    comes from an occurrence that holds a [$] or such a piece, which may
    start anywhere in the occurrence, not only where its quoted value
    starts. *)
Theorem rewrite_only_quoted_http_urls :
  forall (t : bundle_type) (body : jsstring),
    ((forall p, In p (match_all (clickthrough_pattern t) body) ->
                match_all (url_pattern t) p = [] /\ mem dollar p = false) ->
     Handler.processClickthroughUrls body (Some (tag t)) = body
     /\ Part001.processClickthroughUrls body (Some (tag t)) = body)
    /\
    (Handler.processClickthroughUrls body (Some (tag t)) <> body
     \/ Part001.processClickthroughUrls body (Some (tag t)) <> body ->
     exists p,
       In p (match_all (clickthrough_pattern t) body)
       /\ (mem dollar p = true
           \/ exists before u after, p = before ++ u ++ after /\ url_shape t u)).
Proof.
  intros t body. split; [apply nothing_to_rewrite|].
  intros Hdiff.
  set (plain := fun p => match match_all (url_pattern t) p with
                         | [] => true
                         | _ :: _ => false
                         end && negb (mem dollar p)).
  destruct (forallb plain (match_all (clickthrough_pattern t) body)) eqn:E.
  - exfalso.
    assert (H : forall p, In p (match_all (clickthrough_pattern t) body) ->
                          match_all (url_pattern t) p = [] /\ mem dollar p = false).
    { intros p Hp. apply (proj1 (forallb_forall _ _) E) in Hp. unfold plain in Hp.
      apply andb_true_iff in Hp as [Hu Hd]. apply negb_true_iff in Hd.
      split; [|exact Hd]. now destruct (match_all (url_pattern t) p). }
    destruct (nothing_to_rewrite t body H) as [HH HP].
    destruct Hdiff as [Hdiff|Hdiff]; contradiction.
  - apply some_occurrence in E as (p & Hin & Hp). exists p. split; [exact Hin|].
    unfold plain in Hp. apply andb_false_iff in Hp as [Hp|Hp].
    + right. destruct (match_all (url_pattern t) p) as [|u l] eqn:M; [discriminate|].
      assert (Hu : In u (match_all (url_pattern t) p)) by (rewrite M; now left).
      apply match_all_url_shape in Hu as [Hs (before & after & Hpiece)].
      now exists before, u, after.
    + left. now apply negb_false_iff in Hp.
Qed.

Lemma rewrite_only_quoted_http_urls_witness :
  Handler.processClickthroughUrls about_blank (Some (str "conversion")) = about_blank
  /\ Part001.processClickthroughUrls about_blank (Some (str "conversion")) = about_blank.
Proof.
  apply (proj1 (rewrite_only_quoted_http_urls Generic about_blank)).
  intros p Hp. vm_compute in Hp. destruct Hp as [<-|[]].
  split; vm_compute; reflexivity.
Defined.

Unset Implicit Arguments.

(** ** Character classes *)



Lemma space_cases (c : char) :
  is_space c = true -> (c < 65 \/ 122 < c)%N.
Proof.
  unfold is_space, mem. cbn [existsb]. intros H.
  repeat (apply orb_true_iff in H as [H|H]; [apply N.eqb_eq in H; subst c; lia|]).
  discriminate.
Qed.

Lemma quote_cases (c : char) : is_quote c = true -> c = dq \/ c = sq.
Proof.
  unfold is_quote. intros H. apply orb_true_iff in H as [H|H]; apply N.eqb_eq in H; auto.
Qed.

Lemma space_not_quote (c : char) : is_space c = true -> is_quote c = false.
Proof.
  intros H. destruct (is_quote c) eqn:Q; [|reflexivity].
  apply quote_cases in Q as [-> | ->]; discriminate.
Qed.

Lemma quote_not_space (c : char) : is_quote c = true -> not_space c = true.
Proof.
  intros Q. apply quote_cases in Q as [-> | ->]; reflexivity.
Qed.

Lemma space_not_equals (c : char) : is_space c = true -> is_char equals c = false.
Proof.
  unfold is_space, mem. cbn [existsb]. intros H.
  repeat (apply orb_true_iff in H as [H|H]; [apply N.eqb_eq in H; subst c; reflexivity|]).
  discriminate.
Qed.

Lemma alpha_iff (c : char) :
  is_alpha c = true <-> ((65 <= c <= 90) \/ (97 <= c <= 122))%N.
Proof.
  unfold is_alpha.
  destruct (N.leb_spec 65 c), (N.leb_spec c 90), (N.leb_spec 97 c), (N.leb_spec c 122);
    simpl; split; intros G; try discriminate; try reflexivity; lia.
Qed.

Lemma letter_alpha (p c : char) :
  is_alpha p = true -> is_letter p c = true -> is_alpha c = true.
Proof.
  unfold is_letter, canonicalize. intros Hp H.
  apply alpha_iff in Hp. apply alpha_iff. apply N.eqb_eq in H. revert H.
  destruct (N.leb_spec 97 c), (N.leb_spec c 122), (N.leb_spec 97 p), (N.leb_spec p 122);
    simpl; intros G; lia.
Qed.

Lemma alpha_range (c : char) : is_alpha c = true -> (65 <= c <= 122)%N.
Proof. intros H. apply alpha_iff in H. lia. Qed.

Lemma alpha_not_space (c : char) : is_alpha c = true -> is_space c = false.
Proof.
  intros H. apply alpha_range in H.
  destruct (is_space c) eqn:S; [|reflexivity]. apply space_cases in S. lia.
Qed.

Lemma alpha_not_quote (c : char) : is_alpha c = true -> is_quote c = false.
Proof.
  intros H. apply alpha_range in H.
  destruct (is_quote c) eqn:Q; [|reflexivity].
  apply quote_cases in Q as [-> | ->]; unfold dq, sq in H; lia.
Qed.

Lemma alpha_not_dollar (c : char) : is_alpha c = true -> N.eqb dollar c = false.
Proof.
  intros H. apply alpha_range in H. apply N.eqb_neq. unfold dollar. lia.
Qed.

Lemma same_letters_alpha (p id : jsstring) :
  forallb is_alpha p = true -> same_letters p id = true -> forallb is_alpha id = true.
Proof.
  revert id. induction p as [|x p IH]; intros [|c id] Hp H; simpl in *; try discriminate.
  - reflexivity.
  - apply andb_true_iff in Hp as [Hx Hp]. apply andb_true_iff in H as [Hc H].
    now rewrite (letter_alpha _ _ Hx Hc), (IH _ Hp H).
Qed.

Lemma clickTag_alpha (id : jsstring) : is_clickTag id = true -> forallb is_alpha id = true.
Proof. apply same_letters_alpha. reflexivity. Qed.

(** ** Finding an assignment *)

Lemma url_char_inv (c : char) :
  url_char c = true -> not_space c = true /\ is_quote c = false /\ N.eqb dollar c = false.
Proof.
  unfold url_char. intros H. apply andb_true_iff in H as [H _].
  apply andb_true_iff in H as [H Hd].
  apply andb_true_iff in H as [Hs Hq].
  apply negb_true_iff in Hq, Hd. rewrite N.eqb_sym in Hd. auto.
Qed.

Lemma url_char_plain (c : char) : url_char c = true -> Lodash.reHasUnicode c = false.
Proof.
  unfold url_char. intros H. apply andb_true_iff in H as [_ H]. now apply negb_true_iff in H.
Qed.

Lemma forallb_weaken (A : Type) (p q : A -> bool) (l : list A) :
  (forall x, p x = true -> q x = true) -> forallb p l = true -> forallb q l = true.
Proof.
  intros H. induction l as [|x l IH]; simpl; [reflexivity|].
  intros G. apply andb_true_iff in G as [Hx Hl]. now rewrite (H _ Hx), IH.
Qed.

Lemma is_http_url_inv (u : jsstring) :
  is_http_url u = true ->
  forallb url_char u = true
  /\ exists scheme c r,
      u = scheme ++ c :: r /\ (scheme = str "http://" \/ scheme = str "https://").
Proof.
  unfold is_http_url. intros H. apply andb_true_iff in H as [H Hu].
  split; [exact Hu|].
  apply orb_true_iff in H as [H|H]; apply andb_true_iff in H as [Hs Hl];
    apply starts_with_inv in Hs as [t ->]; apply Nat.ltb_lt in Hl;
    rewrite length_app in Hl; destruct t as [|c r]; simpl in Hl; try lia.
  - exists (str "http://"), c, r. auto.
  - exists (str "https://"), c, r. auto.
Qed.



Lemma well_formed_inv (a : assignment) : well_formed a = true -> well_formed_parts a.
Proof.
  unfold well_formed. intros H.
  repeat (apply andb_true_iff in H as [H ?]). now constructor.
Qed.

Lemma no_quote_run_fails (k : continuation) (s : jsstring) :
  no_quote_before_space s = true -> greedy not_space (one is_quote k) s = None.
Proof.
  induction s as [|c s IH]; intros H; [reflexivity|].
  simpl in H. simpl. unfold not_space at 1.
  destruct (is_space c) eqn:S; simpl.
  - now rewrite (space_not_quote _ S).
  - apply andb_true_iff in H as [Hq H]. apply negb_true_iff in Hq.
    now rewrite (IH H), Hq.
Qed.

Lemma assignment_text_app (a : assignment) (rest : jsstring) :
  assignment_text a ++ rest
    = a_id a ++ a_ws1 a ++ equals :: a_ws2 a ++ a_open a :: a_url a ++ a_close a :: rest.
Proof.
  unfold assignment_text. rewrite <- !app_assoc. simpl. rewrite <- !app_assoc. simpl.
  now rewrite <- !app_assoc.
Qed.

Lemma click_tag_finds (a : assignment) (rest : jsstring) :
  well_formed a = true ->
  no_quote_before_space rest = true ->
  match_here click_tag (assignment_text a ++ rest) = Some (assignment_text a, rest).
Proof.
  intros Hwf Hrest. apply well_formed_inv in Hwf as [Hid Hws1 Hws2 Hq1 Hq2 Hurl].
  apply is_http_url_inv in Hurl as [Hu _].
  apply match_here_intro. rewrite click_tag_compiled, assignment_text_app.
  unfold click_tag_matcher. unfold is_clickTag in Hid.
  rewrite (letters_letter_app _ _ _ _ Hid).
  rewrite greedy_committed;
    [|intros c x Hc; simpl; now rewrite (space_not_equals _ Hc)|exact Hws1|reflexivity].
  simpl one at 1.
  rewrite greedy_committed;
    [|intros c x Hc; simpl; now rewrite (space_not_quote _ Hc)|exact Hws2|].
  2:{ destruct (is_space (a_open a)) eqn:S; [|reflexivity].
      apply space_not_quote in S. congruence. }
  simpl one at 1. rewrite Hq1.
  apply greedy_run.
  - revert Hu. apply forallb_weaken. intros c Hc. now apply url_char_inv in Hc.
  - simpl. rewrite (quote_not_space _ Hq2), Hq2.
    now rewrite no_quote_run_fails.
Qed.

(** ** Scanning past text and past a match *)

Lemma match_from_skip (p : pattern) (l s : jsstring) :
  match_from p (l ++ s) (length l) = match_from p s 0.
Proof.
  induction l as [|c l IH]; simpl; [reflexivity|exact IH].
Qed.

Lemma replace_from_skip (p : pattern) (f : jsstring -> jsstring) (l s : jsstring) :
  replace_from p f (l ++ s) (length l) = replace_from p f s 0.
Proof.
  induction l as [|c l IH]; simpl; [reflexivity|exact IH].
Qed.

Lemma match_all_quiet (p : pattern) (gap rest : jsstring) :
  quiet p gap rest = true -> match_all p (gap ++ rest) = match_all p rest.
Proof.
  unfold match_all. induction gap as [|c gap IH]; intros H; [reflexivity|].
  simpl in H. simpl.
  destruct (match_here p (c :: gap ++ rest)); [discriminate|]. now apply IH.
Qed.

Lemma replace_all_quiet (p : pattern) (f : jsstring -> jsstring) (gap rest : jsstring) :
  quiet p gap rest = true -> replace_all p f (gap ++ rest) = gap ++ replace_all p f rest.
Proof.
  unfold replace_all. induction gap as [|c gap IH]; intros H; [reflexivity|].
  simpl in H. simpl.
  destruct (match_here p (c :: gap ++ rest)); [discriminate|]. now rewrite IH.
Qed.

Lemma match_all_found (p : pattern) (m rest : jsstring) :
  match_here p (m ++ rest) = Some (m, rest) -> m <> [] ->
  match_all p (m ++ rest) = m :: match_all p rest.
Proof.
  unfold match_all. intros H Hm. destruct m as [|c m]; [contradiction|].
  simpl app in *. cbn [match_from]. rewrite H. f_equal.
  replace (length (c :: m) - 1) with (length m) by (simpl; lia).
  apply match_from_skip.
Qed.

Lemma replace_all_found (p : pattern) (f : jsstring -> jsstring) (m rest : jsstring) :
  match_here p (m ++ rest) = Some (m, rest) -> m <> [] ->
  replace_all p f (m ++ rest) = f m ++ replace_all p f rest.
Proof.
  unfold replace_all. intros H Hm. destruct m as [|c m]; [contradiction|].
  simpl app in *. cbn [replace_from]. rewrite H. f_equal.
  apply replace_from_skip.
Qed.

(** The pattern is quiet on a text when it is on each of its characters. *)
Lemma quiet_chars (p : pattern) (test : char -> bool) (gap rest : jsstring) :
  (forall c s, test c = true -> match_here p (c :: s) = None) ->
  forallb test gap = true -> quiet p gap rest = true.
Proof.
  intros H. induction gap as [|c gap IH]; intros G; [reflexivity|].
  simpl in G. apply andb_true_iff in G as [Hc G]. simpl.
  now rewrite (H c _ Hc), IH.
Qed.

(** ** The arrow function on a quoted URL *)

Lemma quoted_url_needs_quote (c : char) (s : jsstring) :
  negb (is_quote c) = true -> match_here quoted_url (c :: s) = None.
Proof.
  intros H. apply negb_true_iff in H. unfold match_here.
  rewrite quoted_url_compiled. unfold quoted_url_matcher. simpl. now rewrite H.
Qed.

Lemma quoted_url_comma_needs_quote (c : char) (s : jsstring) :
  negb (is_quote c) = true -> match_here quoted_url_comma (c :: s) = None.
Proof.
  intros H. apply negb_true_iff in H. unfold match_here.
  rewrite quoted_url_comma_compiled. unfold quoted_url_comma_matcher, quoted_url_matcher.
  simpl. now rewrite H.
Qed.

Lemma optional_skip (t : char -> bool) (k : continuation) (c : char) (s : jsstring) :
  t c = false -> optional t k (c :: s) = k (c :: s).
Proof. intros H. simpl. now rewrite H. Qed.

Lemma optional_take (t : char -> bool) (k : continuation) (c : char) (s r : jsstring) :
  t c = true -> k s = Some r -> optional t k (c :: s) = Some r.
Proof. intros H K. simpl. now rewrite H, K. Qed.

Lemma quoted_url_matcher_url (k : continuation) (q : char) (u rest : jsstring) (r : jsstring) :
  is_quote q = true ->
  is_http_url u = true ->
  greedy not_space (one is_quote k) rest = Some r ->
  quoted_url_matcher k (q :: u ++ rest) = Some r.
Proof.
  intros Hq Hu Hk. apply is_http_url_inv in Hu as [Hchars (scheme & c & l & -> & Hs)].
  assert (Hns : forallb not_space (scheme ++ c :: l) = true).
  { revert Hchars. apply forallb_weaken. intros x Hx. now apply url_char_inv in Hx. }
  rewrite forallb_app in Hns. apply andb_true_iff in Hns as [_ Hns].
  simpl in Hns. apply andb_true_iff in Hns as [Hc Hl].
  assert (T : letters is_char (str "://")
                (one not_space (greedy not_space (one is_quote k)))
                (str "://" ++ (c :: l) ++ rest) = Some r).
  { etransitivity; [apply letters_char_app|]. simpl. rewrite Hc. now apply greedy_run. }
  unfold quoted_url_matcher. cbn [one]. rewrite Hq.
  destruct Hs as [-> | ->].
  - change (str "http://" ++ c :: l) with (str "http" ++ str "://" ++ c :: l).
    rewrite <- !app_assoc. etransitivity; [apply letters_char_app|].
    change (str "://" ++ (c :: l) ++ rest) with (58%N :: str "//" ++ (c :: l) ++ rest) at 1.
    rewrite optional_skip by reflexivity. exact T.
  - change (str "https://" ++ c :: l) with (str "http" ++ [115%N] ++ str "://" ++ c :: l).
    rewrite <- !app_assoc. etransitivity; [apply letters_char_app|].
    apply optional_take; [reflexivity|exact T].
Qed.

Lemma greedy_last_quote (q : char) :
  is_quote q = true ->
  greedy not_space (one is_quote (fun r => Some r)) [q] = Some [].
Proof.
  intros H. simpl. now rewrite (quote_not_space _ H), H.
Qed.

Lemma quoted_url_finds (q q' : char) (u : jsstring) :
  is_quote q = true -> is_http_url u = true -> is_quote q' = true ->
  match_here quoted_url ((q :: u ++ [q']) ++ []) = Some (q :: u ++ [q'], []).
Proof.
  intros Hq Hu Hq'. apply match_here_intro. rewrite quoted_url_compiled, app_nil_r.
  apply quoted_url_matcher_url; auto using greedy_last_quote.
Qed.

(** ** Trimming by code units *)

Lemma drop_start_cons (c : char) (s chars : jsstring) :
  drop_start (c :: s) chars
    = if mem c chars then drop_start s chars else c :: s.
Proof. reflexivity. Qed.

Lemma drop_end_snoc (c : char) (s chars : jsstring) :
  drop_end (s ++ [c]) chars
    = if mem c chars then drop_end s chars else s ++ [c].
Proof.
  unfold drop_end. rewrite rev_app_distr. simpl.
  destruct (mem c chars); [reflexivity|].
  simpl. now rewrite rev_involutive.
Qed.

Lemma drop_start_clean (s chars : jsstring) :
  forallb (fun c => negb (mem c chars)) s = true -> drop_start s chars = s.
Proof.
  destruct s as [|c s]; [reflexivity|]. simpl. intros H.
  apply andb_true_iff in H as [H _]. apply negb_true_iff in H.
  unfold drop_start. simpl. now rewrite H.
Qed.

Lemma drop_end_clean (s chars : jsstring) :
  forallb (fun c => negb (mem c chars)) s = true -> drop_end s chars = s.
Proof.
  intros H. destruct (rev s) as [|c r] eqn:E.
  - unfold drop_end. rewrite E. simpl.
    apply (f_equal (@rev char)) in E. now rewrite rev_involutive in E.
  - assert (Es : s = rev r ++ [c]).
    { apply (f_equal (@rev char)) in E. now rewrite rev_involutive in E. }
    rewrite Es, drop_end_snoc.
    rewrite Es, forallb_app in H. apply andb_true_iff in H as [_ H].
    simpl in H. rewrite andb_true_r in H. apply negb_true_iff in H. now rewrite H.
Qed.

Lemma url_no_sq (u : jsstring) :
  forallb url_char u = true -> forallb (fun c => negb (mem c [sq])) u = true.
Proof.
  apply forallb_weaken. intros c H. apply url_char_inv in H as (_ & H & _).
  unfold is_quote in H. apply orb_false_iff in H as [_ H].
  unfold mem. simpl. now rewrite H.
Qed.

Lemma url_no_dq (u : jsstring) :
  forallb url_char u = true -> forallb (fun c => negb (mem c [dq])) u = true.
Proof.
  apply forallb_weaken. intros c H. apply url_char_inv in H as (_ & H & _).
  unfold is_quote in H. apply orb_false_iff in H as [H _].
  unfold mem. simpl. now rewrite H.
Qed.

Lemma url_not_empty (u : jsstring) : is_http_url u = true -> u <> [].
Proof.
  intros H. apply is_http_url_inv in H as [_ (scheme & c & r & -> & _)].
  now destruct scheme.
Qed.

Lemma drop_start_app_clean (u l chars : jsstring) :
  u <> [] -> forallb (fun c => negb (mem c chars)) u = true ->
  drop_start (u ++ l) chars = u ++ l.
Proof.
  destruct u as [|x u]; [contradiction|]. intros _ H. cbn [forallb] in H.
  apply andb_true_iff in H as [Hx _]. apply negb_true_iff in Hx.
  change ((x :: u) ++ l) with (x :: u ++ l). rewrite drop_start_cons. now rewrite Hx.
Qed.

(** Dropping the single quotes and then the double quotes leaves the URL
    between the quotes. *)
Lemma drop_literal (q q' : char) (u : jsstring) :
  is_quote q = true -> is_http_url u = true -> is_quote q' = true ->
  drop_end (drop_start (drop_end (drop_start (q :: u ++ [q']) [sq]) [sq]) [dq]) [dq] = u.
Proof.
  intros Hq Hu Hq'. pose proof (url_not_empty _ Hu) as Hne.
  apply is_http_url_inv in Hu as [Hu _].
  pose proof (url_no_sq _ Hu) as Hs. pose proof (url_no_dq _ Hu) as Hd.
  assert (S1 : drop_start u [sq] = u) by now apply drop_start_clean.
  assert (S2 : drop_start u [dq] = u) by now apply drop_start_clean.
  assert (E1 : drop_end u [sq] = u) by now apply drop_end_clean.
  assert (E2 : drop_end u [dq] = u) by now apply drop_end_clean.
  assert (S3 : forall c, drop_start (u ++ [c]) [sq] = u ++ [c])
    by (intros c; now apply drop_start_app_clean).
  assert (S4 : forall c, drop_start (u ++ [c]) [dq] = u ++ [c])
    by (intros c; now apply drop_start_app_clean).
  apply quote_cases in Hq as [-> | ->]; apply quote_cases in Hq' as [-> | ->];
    rewrite drop_start_cons; change (mem dq [sq]) with false; change (mem sq [sq]) with true;
    cbv iota; rewrite ?S3;
    try (change (dq :: u ++ [dq]) with ((dq :: u) ++ [dq]));
    try (change (dq :: u ++ [sq]) with ((dq :: u) ++ [sq]));
    rewrite drop_end_snoc;
    change (mem dq [sq]) with false; change (mem sq [sq]) with true; cbv iota.
  - (* dq ... dq *)
    simpl app. rewrite drop_start_cons. change (mem dq [dq]) with true. cbv iota.
    rewrite S4, drop_end_snoc. change (mem dq [dq]) with true. cbv iota. exact E2.
  - (* dq ... sq *)
    assert (E3 : drop_end (dq :: u) [sq] = dq :: u).
    { apply drop_end_clean. cbn [forallb]. rewrite Hs. reflexivity. }
    rewrite E3, drop_start_cons. change (mem dq [dq]) with true. cbv iota.
    rewrite S2. exact E2.
  - (* sq ... dq *)
    rewrite S4, drop_end_snoc. change (mem dq [dq]) with true. cbv iota. exact E2.
  - (* sq ... sq *)
    rewrite E1, S2. exact E2.
Qed.

(** ** The trims of lodash on strings of one-unit symbols *)

Lemma among_unit (chars : jsstring) (c : char) :
  Lodash.among (Lodash.asciiToArray chars) [c] = mem c chars.
Proof.
  unfold Lodash.among, Lodash.asciiToArray, mem.
  induction chars as [|x chars IH]; [reflexivity|].
  cbn [map existsb]. rewrite IH. cbn [jseq]. now rewrite andb_true_r.
Qed.

Lemma concat_units (s : jsstring) : concat (Lodash.asciiToArray s) = s.
Proof. induction s as [|c s IH]; [reflexivity|]. simpl. now rewrite IH. Qed.

Lemma slice_units (s : jsstring) (start finish : nat) :
  Lodash.castSlice (Lodash.asciiToArray s) start finish = skipn start (firstn finish s).
Proof.
  unfold Lodash.castSlice, Lodash.asciiToArray.
  rewrite firstn_map, skipn_map. apply concat_units.
Qed.

Section Units.

Variable chars : jsstring.

(** The number of code units of [chars] a string starts with. *)
Let lead (s : jsstring) : nat :=
  Lodash.charsStartIndex (Lodash.asciiToArray s) (Lodash.asciiToArray chars).

Lemma lead_cons (c : char) (s : jsstring) :
  lead (c :: s) = if mem c chars then S (lead s) else 0.
Proof.
  unfold lead. cbn [Lodash.asciiToArray map Lodash.charsStartIndex].
  now rewrite among_unit.
Qed.

Lemma lead_length (s : jsstring) : lead s <= length s.
Proof.
  induction s as [|c s IH]; [apply Nat.le_refl|].
  rewrite lead_cons. destruct (mem c chars); simpl; lia.
Qed.

Lemma skipn_lead (s : jsstring) : skipn (lead s) s = drop_start s chars.
Proof.
  unfold drop_start. induction s as [|c s IH]; [reflexivity|].
  rewrite lead_cons. cbn [drop_while]. destruct (mem c chars); [exact IH|reflexivity].
Qed.

Lemma firstn_lead_rev (s : jsstring) :
  firstn (length s - lead (rev s)) s = drop_end s chars.
Proof.
  unfold drop_end. fold (drop_start (rev s) chars). rewrite <- skipn_lead.
  rewrite skipn_rev, rev_involutive. reflexivity.
Qed.

Lemma lead_all (s : jsstring) : lead s = length s -> drop_start s chars = [].
Proof.
  intros H. rewrite <- skipn_lead, H. apply skipn_all.
Qed.

Lemma lead_snoc (s : jsstring) (c : char) :
  lead (s ++ [c])
    = if Nat.eqb (lead s) (length s) then (if mem c chars then S (length s) else length s)
      else lead s.
Proof.
  induction s as [|x s IH].
  - cbn [app]. rewrite lead_cons. destruct (mem c chars); reflexivity.
  - cbn [app length]. rewrite !lead_cons. destruct (mem x chars).
    + rewrite IH. cbn [Nat.eqb]. destruct (Nat.eqb (lead s) (length s)); [|reflexivity].
      destruct (mem c chars); reflexivity.
    + reflexivity.
Qed.

Lemma slice_lead (s : jsstring) :
  skipn (lead s) (firstn (length s - lead (rev s)) s) = drop_end (drop_start s chars) chars.
Proof.
  induction s as [|c s IH]; [reflexivity|].
  rewrite lead_cons. destruct (mem c chars) eqn:E.
  - replace (drop_start (c :: s) chars) with (drop_start s chars)
      by (unfold drop_start; cbn [drop_while]; now rewrite E).
    rewrite <- IH. cbn [rev length]. rewrite lead_snoc, E, length_rev.
    destruct (Nat.eqb (lead (rev s)) (length s)) eqn:A.
    + apply Nat.eqb_eq in A. rewrite A, !Nat.sub_diag. cbn [firstn].
      now rewrite !skipn_nil.
    + apply Nat.eqb_neq in A. pose proof (lead_length (rev s)) as L.
      rewrite length_rev in L.
      replace (S (length s) - lead (rev s)) with (S (length s - lead (rev s))) by lia.
      reflexivity.
  - cbn [skipn]. rewrite firstn_lead_rev.
    replace (drop_start (c :: s) chars) with (c :: s)
      by (unfold drop_start; cbn [drop_while]; now rewrite E).
    reflexivity.
Qed.

End Units.

Lemma plain_symbols (s : jsstring) :
  Lodash.hasUnicode s = false -> Lodash.stringToArray s = Lodash.asciiToArray s.
Proof. intros H. unfold Lodash.stringToArray. now rewrite H. Qed.

Lemma rev_units (s : jsstring) : rev (Lodash.asciiToArray s) = Lodash.asciiToArray (rev s).
Proof. unfold Lodash.asciiToArray. symmetry. apply map_rev. Qed.

Lemma length_units (s : jsstring) : length (Lodash.asciiToArray s) = length s.
Proof. apply length_map. Qed.

Lemma trimStart_plain (s chars : jsstring) :
  Lodash.hasUnicode s = false -> Lodash.hasUnicode chars = false ->
  Lodash.trimStart s chars = drop_start s chars.
Proof.
  intros Hs Hc. destruct s as [|x s]; [reflexivity|].
  destruct chars as [|y chars].
  - unfold drop_start. reflexivity.
  - unfold Lodash.trimStart. rewrite !plain_symbols by assumption.
    rewrite slice_units, length_units, firstn_all. apply skipn_lead.
Qed.

Lemma trimEnd_plain (s chars : jsstring) :
  Lodash.hasUnicode s = false -> Lodash.hasUnicode chars = false ->
  Lodash.trimEnd s chars = drop_end s chars.
Proof.
  intros Hs Hc. destruct s as [|x s]; [reflexivity|].
  destruct chars as [|y chars].
  - unfold drop_end. cbn [mem existsb]. 
    assert (E : forall l : jsstring, drop_while (fun _ => false) l = l) by (intros [|? ?]; reflexivity).
    now rewrite E, rev_involutive.
  - unfold Lodash.trimEnd. rewrite !plain_symbols by assumption.
    rewrite slice_units. cbn [skipn]. unfold Lodash.charsEnd.
    rewrite length_units, rev_units.
    apply firstn_lead_rev.
Qed.

Lemma trim_plain (s chars : jsstring) :
  Lodash.hasUnicode s = false -> Lodash.hasUnicode chars = false ->
  Lodash.trim s chars = drop_end (drop_start s chars) chars.
Proof.
  intros Hs Hc. destruct s as [|x s]; [reflexivity|].
  destruct chars as [|y chars].
  - unfold drop_end, drop_start. cbn [mem existsb].
    assert (E : forall l : jsstring, drop_while (fun _ => false) l = l) by (intros [|? ?]; reflexivity).
    now rewrite !E, rev_involutive.
  - unfold Lodash.trim. rewrite !plain_symbols by assumption.
    rewrite slice_units. unfold Lodash.charsEnd.
    rewrite length_units, rev_units.
    apply slice_lead.
Qed.

Lemma drop_while_plain (p : char -> bool) (s : jsstring) :
  Lodash.hasUnicode s = false -> Lodash.hasUnicode (drop_while p s) = false.
Proof.
  induction s as [|c s IH]; [reflexivity|]. intros H. cbn [drop_while].
  destruct (p c); [|exact H]. apply IH. cbn [Lodash.hasUnicode existsb] in H.
  now apply orb_false_iff in H as [_ H].
Qed.

Lemma rev_plain (s : jsstring) : Lodash.hasUnicode (rev s) = Lodash.hasUnicode s.
Proof.
  unfold Lodash.hasUnicode. induction s as [|c s IH]; [reflexivity|].
  cbn [rev existsb]. rewrite existsb_app, IH. cbn [existsb].
  rewrite orb_false_r. apply orb_comm.
Qed.

Lemma drop_start_plain (s chars : jsstring) :
  Lodash.hasUnicode s = false -> Lodash.hasUnicode (drop_start s chars) = false.
Proof. apply drop_while_plain. Qed.

Lemma drop_end_plain (s chars : jsstring) :
  Lodash.hasUnicode s = false -> Lodash.hasUnicode (drop_end s chars) = false.
Proof.
  intros H. unfold drop_end. rewrite rev_plain. apply drop_while_plain. now rewrite rev_plain.
Qed.

Lemma url_plain (u : jsstring) : forallb url_char u = true -> Lodash.hasUnicode u = false.
Proof.
  unfold Lodash.hasUnicode. induction u as [|c u IH]; [reflexivity|].
  cbn [forallb existsb]. intros H. apply andb_true_iff in H as [Hc Hu].
  now rewrite (url_char_plain c Hc), (IH Hu).
Qed.

Lemma quoted_plain (q : char) (u l : jsstring) :
  is_quote q = true -> Lodash.hasUnicode u = false -> Lodash.hasUnicode l = false ->
  Lodash.hasUnicode (q :: u ++ l) = false.
Proof.
  intros Hq Hu Hl. unfold Lodash.hasUnicode in *. cbn [existsb].
  rewrite existsb_app, Hu, Hl.
  apply quote_cases in Hq as [-> | ->]; reflexivity.
Qed.

(** Both trims of the Generic branch leave the URL between the quotes. *)
Lemma trim_literal (q q' : char) (u : jsstring) :
  is_quote q = true -> is_http_url u = true -> is_quote q' = true ->
  Lodash.trim (Lodash.trim (q :: u ++ [q']) [sq]) [dq] = u.
Proof.
  intros Hq Hu Hq'.
  assert (P : Lodash.hasUnicode (q :: u ++ [q']) = false).
  { apply quoted_plain; [exact Hq| |].
    - apply url_plain. now apply is_http_url_inv in Hu as [Hu _].
    - apply quote_cases in Hq' as [-> | ->]; reflexivity. }
  rewrite (trim_plain (q :: u ++ [q']) [sq] P eq_refl).
  rewrite trim_plain; [|now apply drop_end_plain, drop_start_plain|reflexivity].
  now apply drop_literal.
Qed.

Ltac list_eq :=
  repeat (rewrite <- app_assoc || rewrite <- app_comm_cons || rewrite app_nil_r);
  reflexivity.

(** ** An assignment through the arrow function *)

Lemma assignment_head_no_quote (a : assignment) :
  well_formed a = true ->
  forallb (fun c => negb (is_quote c)) (a_id a ++ a_ws1 a ++ equals :: a_ws2 a) = true.
Proof.
  intros H. apply well_formed_inv in H as [Hid Hws1 Hws2 _ _ _].
  apply clickTag_alpha in Hid.
  rewrite !forallb_app. cbn [forallb]. rewrite !andb_true_iff. repeat split.
  - revert Hid. apply forallb_weaken. intros c Hc. now rewrite (alpha_not_quote _ Hc).
  - revert Hws1. apply forallb_weaken. intros c Hc. now rewrite (space_not_quote _ Hc).
  - revert Hws2. apply forallb_weaken. intros c Hc. now rewrite (space_not_quote _ Hc).
Qed.

Lemma replace_all_assignment (f : jsstring -> jsstring) (a : assignment) :
  well_formed a = true ->
  replace_all quoted_url f (assignment_text a)
    = a_id a ++ a_ws1 a ++ equals :: a_ws2 a ++ f (a_open a :: a_url a ++ [a_close a]).
Proof.
  intros H. pose proof (assignment_head_no_quote _ H) as Hhead.
  apply well_formed_inv in H as [_ _ _ Hq Hq' Hu].
  assert (E : assignment_text a
              = (a_id a ++ a_ws1 a ++ equals :: a_ws2 a)
                  ++ (a_open a :: a_url a ++ [a_close a]) ++ []).
  { unfold assignment_text. list_eq. }
  rewrite E, replace_all_quiet.
  - rewrite replace_all_found by (auto using quoted_url_finds; discriminate).
    change (replace_all quoted_url f []) with (@nil char). list_eq.
  - revert Hhead. apply quiet_chars. intros c s. apply quoted_url_needs_quote.
Qed.

Lemma handler_formats_assignment (a : assignment) :
  well_formed a = true ->
  Handler.formattedParams true quoted_url (assignment_text a) = rewritten_assignment a.
Proof.
  intros H. unfold Handler.formattedParams. rewrite replace_all_assignment by exact H.
  apply well_formed_inv in H as [_ _ _ Hq Hq' Hu].
  unfold Handler.replacer, Handler.trimmedUrl, rewritten_assignment.
  rewrite trim_literal by assumption. list_eq.
Qed.

Lemma part001_formats_assignment (a : assignment) :
  well_formed a = true ->
  Part001.formattedParams false quoted_url (assignment_text a) = rewritten_assignment a.
Proof.
  intros H. unfold Part001.formattedParams. rewrite replace_all_assignment by exact H.
  apply well_formed_inv in H as [_ _ _ Hq Hq' Hu].
  unfold Part001.replacer, Part001.trimmedUrl, rewritten_assignment.
  rewrite trim_literal by assumption. list_eq.
Qed.

Lemma mem_app (c : char) (l1 l2 : jsstring) : mem c (l1 ++ l2) = mem c l1 || mem c l2.
Proof. unfold mem. apply existsb_app. Qed.

Lemma mem_false (c : char) (test : char -> bool) (l : jsstring) :
  (forall x, test x = true -> N.eqb c x = false) -> forallb test l = true -> mem c l = false.
Proof.
  intros H. unfold mem. induction l as [|x l IH]; simpl; [reflexivity|].
  intros G. apply andb_true_iff in G as [Hx Hl]. now rewrite (H _ Hx), IH.
Qed.

Lemma rewritten_no_dollar (a : assignment) :
  well_formed a = true -> mem dollar (rewritten_assignment a) = false.
Proof.
  intros H. apply well_formed_inv in H as [Hid Hws1 Hws2 _ _ Hu].
  apply clickTag_alpha in Hid. apply is_http_url_inv in Hu as [Hu _].
  unfold rewritten_assignment.
  rewrite mem_app, (mem_false dollar is_alpha _ alpha_not_dollar Hid).
  rewrite mem_app, (mem_false dollar is_space (a_ws1 a)); [|intros x Hx|exact Hws1].
  2:{ destruct (N.eqb dollar x) eqn:E; [|reflexivity]. apply N.eqb_eq in E. subst x.
      discriminate. }
  change (equals :: ?l) with ([equals] ++ l). rewrite mem_app.
  change (mem dollar [equals]) with false.
  rewrite mem_app, (mem_false dollar is_space (a_ws2 a)); [|intros x Hx|exact Hws2].
  2:{ destruct (N.eqb dollar x) eqn:E; [|reflexivity]. apply N.eqb_eq in E. subst x.
      discriminate. }
  rewrite mem_app. change (mem dollar decodeUri) with false.
  change (dq :: ?l) with ([dq] ++ l). rewrite mem_app. change (mem dollar [dq]) with false.
  rewrite mem_app. change (mem dollar [dq]) with false.
  rewrite (mem_false dollar url_char (a_url a)); [reflexivity| |exact Hu].
  intros x Hx. now apply url_char_inv in Hx.
Qed.

(** ** The loop over the assignments of a body *)

Lemma found_well_formed (items : list (jsstring * assignment)) (last : jsstring) :
  found items last = true -> Forall (fun i => well_formed (snd i) = true) items.
Proof.
  induction items as [|[gap a] items IH]; intros H; [constructor|].
  cbn [found] in H. do 3 (apply andb_true_iff in H as [H ?]).
  constructor; [cbn [snd]; assumption|now apply IH].
Qed.

Lemma assignment_text_not_empty (a : assignment) : assignment_text a <> [].
Proof.
  unfold assignment_text. destruct (a_id a); [|discriminate].
  destruct (a_ws1 a); discriminate.
Qed.

Lemma found_matches (items : list (jsstring * assignment)) (last : jsstring) :
  found items last = true ->
  match_all click_tag (assemble assignment_text items last)
    = map (fun i => assignment_text (snd i)) items.
Proof.
  induction items as [|[gap a] items IH]; intros H.
  - cbn [found] in H. simpl. now destruct (match_all click_tag last).
  - cbn [found] in H. do 3 (apply andb_true_iff in H as [H ?]).
    cbn [assemble map snd].
    rewrite match_all_quiet by assumption.
    rewrite match_all_found;
      [|now apply click_tag_finds|apply assignment_text_not_empty].
    f_equal. now apply IH.
Qed.

Lemma same_index_eq (x : option nat) (i : nat) : same_index x (Some i) = true -> x = Some i.
Proof.
  destruct x as [j|]; simpl; [|discriminate]. intros H. apply Nat.eqb_eq in H. now subst.
Qed.

Lemma replace_in_place (done text formatted rest : jsstring) :
  Js.indexOf text (done ++ text ++ rest) = Some (length done) ->
  mem dollar formatted = false ->
  Js.replace text formatted (done ++ text ++ rest) = done ++ formatted ++ rest.
Proof.
  intros Hi Hd. unfold Js.replace. rewrite Hi.
  rewrite get_substitution_plain by exact Hd.
  rewrite firstn_app, Nat.sub_diag, firstn_all. simpl. rewrite app_nil_r.
  f_equal. f_equal.
  rewrite skipn_app, skipn_all2 by lia. simpl.
  replace (length done + length text - length done) with (length text) by lia.
  rewrite skipn_app, skipn_all, Nat.sub_diag. reflexivity.
Qed.

Lemma each_in_place (format : jsstring -> jsstring) (items : list (jsstring * assignment))
  (last done : jsstring) :
  (forall a, well_formed a = true -> format (assignment_text a) = rewritten_assignment a) ->
  Forall (fun i => well_formed (snd i) = true) items ->
  in_place done items last = true ->
  fold_left (fun output params => Js.replace params (format params) output)
    (map (fun i => assignment_text (snd i)) items)
    (done ++ assemble assignment_text items last)
    = done ++ assemble rewritten_assignment items last.
Proof.
  intros Hf. revert done. induction items as [|[gap a] items IH]; intros done Hwf Hin.
  - reflexivity.
  - inversion Hwf as [|? ? Ha Hrest]; subst. cbn [snd] in Ha.
    cbn [in_place] in Hin. apply andb_true_iff in Hin as [Hi Hin].
    apply same_index_eq in Hi.
    cbn [map snd fold_left assemble].
    rewrite (Hf _ Ha).
    replace (done ++ gap ++ assignment_text a ++ assemble assignment_text items last)
      with ((done ++ gap) ++ assignment_text a ++ assemble assignment_text items last)
      by list_eq.
    rewrite replace_in_place;
      [|now rewrite <- app_assoc|now apply rewritten_no_dollar].
    replace ((done ++ gap) ++ rewritten_assignment a ++ assemble assignment_text items last)
      with ((done ++ gap ++ rewritten_assignment a) ++ assemble assignment_text items last)
      by list_eq.
    rewrite IH by assumption. list_eq.
Qed.



Lemma assignments_rewritten_in_place :
  forall (items : list (jsstring * assignment)) (last : jsstring),
    found items last = true ->
    in_place [] items last = true ->
    Handler.processClickthroughUrls (assemble assignment_text items last)
      (Some (str "conversion"))
      = assemble rewritten_assignment items last
    /\ Part001.processClickthroughUrls (assemble assignment_text items last)
         (Some (str "conversion"))
      = assemble rewritten_assignment items last.
Proof.
  intros items last Hfound Hin.
  pose proof (found_well_formed _ _ Hfound) as Hwf.
  rewrite (handler_process Generic), (part001_process Generic).
  cbn [clickthrough_pattern url_pattern is_generic is_designer].
  rewrite found_matches by exact Hfound.
  split.
  - apply (each_in_place (Handler.formattedParams true quoted_url) items last []);
      auto using handler_formats_assignment.
  - apply (each_in_place (Part001.formattedParams false quoted_url) items last []);
      auto using part001_formats_assignment.
Qed.

(** ** Rewriting an assignment creates no match before or inside it *)





Lemma is_some_or_else (A : Type) (x y : option A) :
  is_some (or_else x y) = is_some x || is_some y.
Proof. now destruct x. Qed.

Section Carries.

Variables Z1 Z2 : jsstring.

Lemma carries_top : carries Z1 Z2 (fun r => Some r).
Proof. intros l _. reflexivity. Qed.

Lemma carries_one (t : char -> bool) (k : continuation) :
  carries Z1 Z2 k ->
  (is_some (one t k Z2) = true -> is_some (one t k Z1) = true) ->
  carries Z1 Z2 (one t k).
Proof.
  intros Hk Hbase [|c l]; [exact Hbase|].
  simpl. destruct (t c); [apply Hk|trivial].
Qed.

Lemma carries_greedy (t : char -> bool) (k : continuation) :
  carries Z1 Z2 k ->
  (is_some (greedy t k Z2) = true -> is_some (greedy t k Z1) = true) ->
  carries Z1 Z2 (greedy t k).
Proof.
  intros Hk Hbase l. induction l as [|c l IH]; [exact Hbase|].
  simpl. destruct (t c).
  - rewrite !is_some_or_else. intros H. apply orb_true_iff in H as [H|H].
    + now rewrite (IH H).
    + pose proof (Hk (c :: l)) as E. simpl in E. rewrite (E H). apply orb_true_r.
  - apply (Hk (c :: l)).
Qed.

End Carries.

Lemma decode_quiet (x : jsstring) : quiet click_tag decodeUri x = true.
Proof. vm_compute. reflexivity. Qed.

Lemma alpha_not_equals (c : char) : is_alpha c = true -> is_char equals c = false.
Proof.
  intros H. apply alpha_range in H. apply N.eqb_neq. unfold equals. lia.
Qed.

Lemma not_alpha_not_letter (p c : char) :
  is_alpha p = true -> is_alpha c = false -> is_letter p c = false.
Proof.
  intros Hp Hc. destruct (is_letter p c) eqn:E; [|reflexivity].
  now rewrite (letter_alpha _ _ Hp E) in Hc.
Qed.

Lemma clickTag_chars (id : jsstring) :
  is_clickTag id = true ->
  exists c1 c2 c3 c4 c5 c6 c7 c8,
    id = [c1; c2; c3; c4; c5; c6; c7; c8]
    /\ is_letter 99%N c1 = true /\ is_letter 108%N c2 = true /\ is_letter 105%N c3 = true
    /\ is_letter 99%N c4 = true /\ is_letter 107%N c5 = true /\ is_letter 84%N c6 = true
    /\ is_letter 97%N c7 = true /\ is_letter 103%N c8 = true.
Proof.
  unfold is_clickTag. cbn [str map list_ascii_of_string].
  destruct id as [|c1 [|c2 [|c3 [|c4 [|c5 [|c6 [|c7 [|c8 [|c9 id]]]]]]]]];
    cbn [same_letters]; intros H; try discriminate;
    repeat (apply andb_true_iff in H as [? H]); try discriminate.
  exists c1, c2, c3, c4, c5, c6, c7, c8.
  repeat split; assumption.
Qed.

(** The stages of the matcher that come after the identifier fail on a
    letter. *)
Lemma after_id_needs_equals (k : continuation) (c : char) (x : jsstring) :
  is_alpha c = true -> greedy is_space (one (is_char equals) k) (c :: x) = None.
Proof.
  intros H. simpl. now rewrite (alpha_not_space _ H), (alpha_not_equals _ H).
Qed.

Lemma after_equals_needs_quote (k : continuation) (c : char) (x : jsstring) :
  is_alpha c = true -> greedy is_space (one is_quote k) (c :: x) = None.
Proof.
  intros H. simpl. now rewrite (alpha_not_space _ H), (alpha_not_quote _ H).
Qed.

Lemma base_none (A : Type) (x y : option A) :
  x = None -> is_some x = true -> is_some y = true.
Proof. intros ->. discriminate. Qed.

(** The run after the opening quote passes over characters that are neither
    whitespace nor quotes. *)
Lemma run_passes (k : continuation) (l s : jsstring) :
  forallb (fun c => not_space c && negb (is_quote c)) l = true ->
  greedy not_space (one is_quote k) (l ++ s) = greedy not_space (one is_quote k) s.
Proof.
  induction l as [|c l IH]; intros H; [reflexivity|].
  simpl in H. apply andb_true_iff in H as [Hc H]. apply andb_true_iff in Hc as [Hs Hq].
  apply negb_true_iff in Hq. simpl. rewrite Hs, Hq, (IH H). apply or_else_none.
Qed.

Lemma run_stops_at_space (k : continuation) (l s : jsstring) :
  l <> [] -> forallb is_space l = true ->
  greedy not_space (one is_quote k) (l ++ s) = None.
Proof.
  destruct l as [|c l]; [contradiction|]. intros _ H. simpl in H.
  apply andb_true_iff in H as [Hc _]. simpl. unfold not_space. rewrite Hc. simpl.
  now rewrite (space_not_quote _ Hc).
Qed.

Lemma rewritten_assignment_app (a : assignment) (rest : jsstring) :
  rewritten_assignment a ++ rest
    = a_id a ++ a_ws1 a ++ equals :: a_ws2 a ++ decodeUri ++ dq :: a_url a ++ dq :: rest.
Proof. unfold rewritten_assignment. list_eq. Qed.

(** After the identifier and what surrounds [=], the rewritten text goes on
    with the [d] of the indirection expression, where the pattern wants a
    quote. *)
Lemma after_id_rewritten (k : continuation) (ws1 ws2 x : jsstring) :
  forallb is_space ws1 = true -> forallb is_space ws2 = true ->
  greedy is_space (one (is_char equals) (greedy is_space (one is_quote k)))
    (ws1 ++ equals :: ws2 ++ decodeUri ++ x) = None.
Proof.
  intros H1 H2.
  rewrite greedy_committed;
    [|intros c y Hc; simpl; now rewrite (space_not_equals _ Hc)|exact H1|reflexivity].
  cbn [one]. change (is_char equals equals) with true. cbv iota.
  rewrite greedy_committed;
    [|intros c y Hc; simpl; now rewrite (space_not_quote _ Hc)|exact H2|reflexivity].
  reflexivity.
Qed.

Ltac split_tests :=
  repeat match goal with
         | |- context [if ?t ?c then _ else _] => destruct (t c)
         end.

Lemma rewrite_carries (a : assignment) (rest : jsstring) :
  well_formed a = true ->
  carries (assignment_text a ++ rest) (rewritten_assignment a ++ rest)
    (click_tag_matcher (fun r => Some r)).
Proof.
  intros Hwf. pose proof (well_formed_inv _ Hwf) as [Hid Hws1 Hws2 Hq1 Hq2 Hu].
  destruct (clickTag_chars _ Hid)
    as (c1 & c2 & c3 & c4 & c5 & c6 & c7 & c8 & Eid & L1 & L2 & L3 & L4 & L5 & L6 & L7 & L8).
  assert (A1 : is_alpha c1 = true) by (now apply (letter_alpha 99%N c1)).
  assert (A2 : is_alpha c2 = true) by (now apply (letter_alpha 108%N c2)).
  assert (A3 : is_alpha c3 = true) by (now apply (letter_alpha 105%N c3)).
  assert (A4 : is_alpha c4 = true) by (now apply (letter_alpha 99%N c4)).
  assert (A5 : is_alpha c5 = true) by (now apply (letter_alpha 107%N c5)).
  assert (A6 : is_alpha c6 = true) by (now apply (letter_alpha 84%N c6)).
  assert (A7 : is_alpha c7 = true) by (now apply (letter_alpha 97%N c7)).
  assert (A8 : is_alpha c8 = true) by (now apply (letter_alpha 103%N c8)).
  rewrite assignment_text_app, rewritten_assignment_app, Eid. cbn [app].
  unfold click_tag_matcher. cbn [letters str map list_ascii_of_string].
  do 8 (apply carries_one;
        [|apply base_none; cbn [one]; split_tests; try reflexivity;
          first [now apply after_id_needs_equals | now apply after_id_rewritten]]).
  apply carries_greedy; [|apply base_none; now apply after_id_needs_equals].
  apply carries_one;
    [|apply base_none; cbn [one]; now rewrite (alpha_not_equals _ A1)].
  apply carries_greedy; [|apply base_none; now apply after_equals_needs_quote].
  apply carries_one;
    [|apply base_none; cbn [one]; now rewrite (alpha_not_quote _ A1)].
  apply carries_greedy.
  - apply carries_one; [apply carries_top|].
    apply base_none. cbn [one]. now rewrite (alpha_not_quote _ A1).
  - assert (Hpass : forallb (fun c => not_space c && negb (is_quote c))
                      [c1; c2; c3; c4; c5; c6; c7; c8] = true).
    { cbn [forallb]. unfold not_space.
      now rewrite (alpha_not_space _ A1), (alpha_not_space _ A2), (alpha_not_space _ A3),
        (alpha_not_space _ A4), (alpha_not_space _ A5), (alpha_not_space _ A6),
        (alpha_not_space _ A7), (alpha_not_space _ A8),
        (alpha_not_quote _ A1), (alpha_not_quote _ A2), (alpha_not_quote _ A3),
        (alpha_not_quote _ A4), (alpha_not_quote _ A5), (alpha_not_quote _ A6),
        (alpha_not_quote _ A7), (alpha_not_quote _ A8). }
    pose proof (run_passes (fun r => Some r) [c1; c2; c3; c4; c5; c6; c7; c8]) as P.
    cbn [app] in P. rewrite !P by exact Hpass.
    destruct (a_ws1 a) as [|w ws1] eqn:E1.
    + cbn [app].
      pose proof (run_passes (fun r => Some r) [equals]) as Q. cbn [app] in Q.
      rewrite !Q by reflexivity.
      destruct (a_ws2 a) as [|w ws2] eqn:E2.
      * intros _. cbn [app greedy]. rewrite (quote_not_space _ Hq1).
        rewrite is_some_or_else. cbn [one]. rewrite Hq1. apply orb_true_r.
      * apply base_none. apply run_stops_at_space; [discriminate|exact Hws2].
    + apply base_none. apply run_stops_at_space; [discriminate|exact Hws1].
Qed.

Lemma match_here_is_some (p : pattern) (s : jsstring) :
  is_some (match_here p s) = is_some (rmatch (ignore_case p) (tree p) (fun r => Some r) s).
Proof.
  unfold match_here. now destruct (rmatch _ _ _ s).
Qed.

Lemma quiet_cons (p : pattern) (c : char) (gap rest : jsstring) :
  quiet p (c :: gap) rest = negb (is_some (match_here p (c :: gap ++ rest))) && quiet p gap rest.
Proof.
  simpl. now destruct (match_here p (c :: gap ++ rest)).
Qed.

Lemma quiet_app (p : pattern) (g1 g2 rest : jsstring) :
  quiet p (g1 ++ g2) rest = quiet p g1 (g2 ++ rest) && quiet p g2 rest.
Proof.
  induction g1 as [|c g1 IH]; [reflexivity|].
  change ((c :: g1) ++ g2) with (c :: g1 ++ g2).
  rewrite !quiet_cons, IH, <- app_assoc. apply andb_assoc.
Qed.

(** Replacing an assignment by its rewritten text makes the pattern match at
    no position before it where it did not match already. *)
Lemma quiet_carries (a : assignment) (before rest : jsstring) :
  well_formed a = true ->
  quiet click_tag before (assignment_text a ++ rest) = true ->
  quiet click_tag before (rewritten_assignment a ++ rest) = true.
Proof.
  intros Hwf. pose proof (rewrite_carries a rest Hwf) as C.
  induction before as [|c before IH]; [reflexivity|].
  rewrite !quiet_cons. intros H. apply andb_true_iff in H as [H1 H2].
  rewrite (IH H2), andb_true_r.
  apply negb_true_iff in H1. apply negb_true_iff.
  destruct (is_some (match_here click_tag (c :: before ++ rewritten_assignment a ++ rest)))
    eqn:E; [|reflexivity].
  rewrite match_here_is_some, click_tag_compiled in E.
  apply (C (c :: before)) in E.
  rewrite <- click_tag_compiled, <- match_here_is_some in E.
  simpl app in E. congruence.
Qed.

(** ** The rewritten text holds no match *)

Lemma click_tag_needs_letter (c : char) (s : jsstring) :
  negb (is_alpha c) = true -> match_here click_tag (c :: s) = None.
Proof.
  intros H. apply negb_true_iff in H. unfold match_here.
  rewrite click_tag_compiled. unfold click_tag_matcher.
  cbn [letters str map list_ascii_of_string one].
  rewrite (not_alpha_not_letter _ c) by (reflexivity || exact H). reflexivity.
Qed.

Lemma letters_short (p l : jsstring) (w : char) (x : jsstring) (k : continuation) :
  forallb is_alpha p = true -> length l < length p -> is_alpha w = false ->
  letters is_letter p k (l ++ w :: x) = None.
Proof.
  revert l. induction p as [|y p IH]; intros l Hp Hl Hw; simpl in Hl; [lia|].
  simpl in Hp. apply andb_true_iff in Hp as [Hy Hp].
  destruct l as [|c l]; simpl.
  - now rewrite (not_alpha_not_letter y w Hy Hw).
  - destruct (is_letter y c); [|reflexivity]. apply IH; auto. simpl in Hl. lia.
Qed.

Lemma quiet_short (l : jsstring) (w : char) (x : jsstring) :
  length l < 8 -> is_alpha w = false -> quiet click_tag l (w :: x) = true.
Proof.
  intros Hl Hw. induction l as [|c l IH]; [reflexivity|].
  rewrite quiet_cons, IH by (simpl in Hl; lia). rewrite andb_true_r.
  apply negb_true_iff. rewrite match_here_is_some, click_tag_compiled.
  unfold click_tag_matcher.
  change (c :: l ++ w :: x) with ((c :: l) ++ w :: x).
  rewrite letters_short; auto.
Qed.

Lemma first_quote (A B X Y : jsstring) (a b : char) :
  forallb (fun c => negb (is_quote c)) A = true ->
  forallb (fun c => negb (is_quote c)) B = true ->
  is_quote a = true -> is_quote b = true ->
  A ++ a :: X = B ++ b :: Y -> A = B /\ a = b /\ X = Y.
Proof.
  revert B. induction A as [|c A IH]; intros [|d B] HA HB Ha Hb E; simpl in *.
  - injection E as -> ->. auto.
  - injection E as -> _. apply andb_true_iff in HB as [HB _]. rewrite Ha in HB. discriminate.
  - injection E as -> _. apply andb_true_iff in HA as [HA _]. rewrite Hb in HA. discriminate.
  - injection E as -> E. apply andb_true_iff in HA as [_ HA]. apply andb_true_iff in HB as [_ HB].
    destruct (IH B HA HB Ha Hb E) as (-> & -> & ->). auto.
Qed.

Lemma run_has_quote (v r : jsstring) (q : char) :
  forallb not_space v = true -> is_quote q = true ->
  no_quote_before_space (v ++ q :: r) = false.
Proof.
  intros Hv Hq. induction v as [|c v IH]; simpl.
  - pose proof (quote_not_space _ Hq) as S. unfold not_space in S.
    apply negb_true_iff in S. now rewrite S, Hq.
  - simpl in Hv. apply andb_true_iff in Hv as [Hc Hv]. unfold not_space in Hc.
    apply negb_true_iff in Hc. rewrite Hc, (IH Hv). apply andb_false_r.
Qed.

Lemma url_dead (u rest : jsstring) :
  forallb url_char u = true -> no_quote_before_space rest = true ->
  match_here click_tag (u ++ dq :: rest) = None.
Proof.
  intros Hu Hrest.
  destruct (match_here click_tag (u ++ dq :: rest)) as [[m r]|] eqn:E; [exfalso|reflexivity].
  apply click_tag_here in E as [E (id & ws1 & ws2 & q & v & q' & -> & Hid & H1 & H2 & Hq & Hv & Hq')].
  replace ((id ++ ws1 ++ equals :: ws2 ++ q :: v ++ [q']) ++ r)
    with ((id ++ ws1 ++ equals :: ws2) ++ q :: (v ++ q' :: r)) in E by list_eq.
  apply first_quote in E as (_ & _ & ->); auto.
  - now rewrite run_has_quote in Hrest.
  - revert Hu. apply forallb_weaken. intros c Hc.
    apply url_char_inv in Hc as (_ & Hc & _). now rewrite Hc.
  - apply clickTag_alpha in Hid. rewrite !forallb_app. cbn [forallb].
    rewrite !andb_true_iff. repeat split.
    + revert Hid. apply forallb_weaken. intros c Hc. now rewrite (alpha_not_quote _ Hc).
    + revert H1. apply forallb_weaken. intros c Hc. now rewrite (space_not_quote _ Hc).
    + revert H2. apply forallb_weaken. intros c Hc. now rewrite (space_not_quote _ Hc).
Qed.

Lemma url_quiet (u rest : jsstring) :
  forallb url_char u = true -> no_quote_before_space rest = true ->
  quiet click_tag u (dq :: rest) = true.
Proof.
  intros Hu Hrest. induction u as [|c u IH]; [reflexivity|].
  rewrite quiet_cons. change (c :: u ++ dq :: rest) with ((c :: u) ++ dq :: rest).
  rewrite url_dead by assumption. simpl in Hu. apply andb_true_iff in Hu as [_ Hu].
  now rewrite IH.
Qed.

Lemma rewritten_not_matched (a : assignment) (rest : jsstring) :
  well_formed a = true ->
  match_here click_tag (rewritten_assignment a ++ rest) = None.
Proof.
  intros Hwf. apply well_formed_inv in Hwf as [Hid Hws1 Hws2 _ _ _].
  unfold match_here. rewrite click_tag_compiled, rewritten_assignment_app.
  unfold click_tag_matcher. unfold is_clickTag in Hid.
  rewrite (letters_letter_app _ _ _ _ Hid), after_id_rewritten by assumption.
  reflexivity.
Qed.

Lemma rewritten_quiet (a : assignment) (rest : jsstring) :
  well_formed a = true -> no_quote_before_space rest = true ->
  quiet click_tag (rewritten_assignment a) rest = true.
Proof.
  intros Hwf Hrest. pose proof (rewritten_not_matched a rest Hwf) as H0.
  pose proof (well_formed_inv _ Hwf) as [Hid Hws1 Hws2 _ _ Hu].
  apply is_http_url_inv in Hu as [Hu _].
  destruct (clickTag_chars _ Hid)
    as (c1 & c2 & c3 & c4 & c5 & c6 & c7 & c8 & Eid & _).
  rewrite rewritten_assignment_app in H0. unfold rewritten_assignment.
  rewrite Eid in *.
  change ([c1; c2; c3; c4; c5; c6; c7; c8] ++ ?x) with (c1 :: [c2; c3; c4; c5; c6; c7; c8] ++ x)
    in *.
  rewrite quiet_cons.
  replace (([c2; c3; c4; c5; c6; c7; c8]
              ++ a_ws1 a ++ equals :: a_ws2 a ++ decodeUri ++ dq :: a_url a ++ [dq]) ++ rest)
    with ([c2; c3; c4; c5; c6; c7; c8]
            ++ a_ws1 a ++ equals :: a_ws2 a ++ decodeUri ++ dq :: a_url a ++ dq :: rest)
    by list_eq.
  rewrite H0. cbn [is_some negb andb].
  rewrite quiet_app. apply andb_true_iff. split.
  - (* the rest of the identifier: too short, then no letter *)
    destruct (a_ws1 a) as [|w ws1] eqn:E1.
    + apply quiet_short; [simpl; lia|reflexivity].
    + apply quiet_short; [simpl; lia|].
      simpl in Hws1. apply andb_true_iff in Hws1 as [Hw _].
      destruct (is_alpha w) eqn:A; [|reflexivity].
      now rewrite (alpha_not_space _ A) in Hw.
  - replace (a_ws1 a ++ equals :: a_ws2 a ++ decodeUri ++ dq :: a_url a ++ [dq])
      with (a_ws1 a ++ (equals :: a_ws2 a) ++ decodeUri ++ [dq] ++ a_url a ++ [dq])
      by list_eq.
    assert (Hn1 : forallb (fun c => negb (is_alpha c)) (a_ws1 a) = true).
    { revert Hws1. apply forallb_weaken. intros c Hc.
      destruct (is_alpha c) eqn:A; [|reflexivity]. now rewrite (alpha_not_space _ A) in Hc. }
    assert (Hn2 : forallb (fun c => negb (is_alpha c)) (equals :: a_ws2 a) = true).
    { cbn [forallb]. apply andb_true_iff. split; [reflexivity|].
      revert Hws2. apply forallb_weaken. intros c Hc.
      destruct (is_alpha c) eqn:A; [|reflexivity]. now rewrite (alpha_not_space _ A) in Hc. }
    rewrite !quiet_app, !andb_true_iff. repeat apply conj.
    + revert Hn1. apply quiet_chars. intros c s. apply click_tag_needs_letter.
    + revert Hn2. apply quiet_chars. intros c s. apply click_tag_needs_letter.
    + apply decode_quiet.
    + apply (quiet_chars click_tag (fun c => negb (is_alpha c)));
        [intros c s; apply click_tag_needs_letter|reflexivity].
    + change ([dq] ++ rest) with (dq :: rest). now apply url_quiet.
    + apply (quiet_chars click_tag (fun c => negb (is_alpha c)));
        [intros c s; apply click_tag_needs_letter|reflexivity].
Qed.

(** ** Where the assignment's text first occurs *)

Lemma click_tag_matches_text (a : assignment) (s : jsstring) :
  well_formed a = true ->
  Js.starts_with (assignment_text a) s = true ->
  is_some (match_here click_tag s) = true.
Proof.
  intros Hwf Hs. apply starts_with_inv in Hs as [y ->].
  apply well_formed_inv in Hwf as [Hid Hws1 Hws2 Hq1 Hq2 Hurl].
  apply is_http_url_inv in Hurl as [Hu _].
  rewrite match_here_is_some, click_tag_compiled, assignment_text_app.
  unfold click_tag_matcher. unfold is_clickTag in Hid.
  rewrite (letters_letter_app _ _ _ _ Hid).
  rewrite greedy_committed;
    [|intros c x Hc; simpl; now rewrite (space_not_equals _ Hc)|exact Hws1|reflexivity].
  cbn [one]. change (is_char equals equals) with true. cbv iota.
  rewrite greedy_committed;
    [|intros c x Hc; simpl; now rewrite (space_not_quote _ Hc)|exact Hws2|].
  2:{ destruct (is_space (a_open a)) eqn:S; [|reflexivity].
      apply space_not_quote in S. congruence. }
  cbn [one]. rewrite Hq1.
  destruct (@greedy_complete not_space (one is_quote (fun r => Some r))
              (a_url a) (a_close a :: y) y) as [r' ->].
  - revert Hu. apply forallb_weaken. intros c Hc. now apply url_char_inv in Hc.
  - cbn [one]. now rewrite Hq2.
  - reflexivity.
Qed.

Lemma indexOf_quiet (a : assignment) (before rest : jsstring) :
  well_formed a = true ->
  quiet click_tag before (assignment_text a ++ rest) = true ->
  Js.indexOf (assignment_text a) (before ++ assignment_text a ++ rest)
    = Some (length before).
Proof.
  intros Hwf. induction before as [|c before IH]; intros H.
  - simpl app. destruct (assignment_text a ++ rest) eqn:E.
    + simpl. destruct (assignment_text a); [reflexivity|discriminate].
    + simpl Js.indexOf. now rewrite <- E, starts_with_app.
  - rewrite quiet_cons in H. apply andb_true_iff in H as [H1 H2].
    apply negb_true_iff in H1.
    change ((c :: before) ++ ?x) with (c :: before ++ x).
    cbn [Js.indexOf].
    destruct (Js.starts_with (assignment_text a) (c :: before ++ assignment_text a ++ rest))
      eqn:S.
    + apply (click_tag_matches_text a _ Hwf) in S. congruence.
    + now rewrite (IH H2).
Qed.

(** ** From the conditions of [found] to those of [in_place] *)

Lemma found_in_place (items : list (jsstring * assignment)) (last done : jsstring) :
  found items last = true ->
  quiet click_tag done (assemble assignment_text items last) = true ->
  in_place done items last = true.
Proof.
  revert done. induction items as [|[gap a] items IH]; intros done Hf Hq; [reflexivity|].
  cbn [found] in Hf. do 3 (apply andb_true_iff in Hf as [Hf ?]).
  cbn [assemble] in Hq. cbn [in_place].
  assert (Hq' : quiet click_tag (done ++ gap)
                  (assignment_text a ++ assemble assignment_text items last) = true).
  { rewrite quiet_app. apply andb_true_iff. now split. }
  apply andb_true_iff. split.
  - replace (done ++ gap ++ assignment_text a ++ assemble assignment_text items last)
      with ((done ++ gap) ++ assignment_text a ++ assemble assignment_text items last)
      by list_eq.
    rewrite indexOf_quiet by assumption. simpl. apply Nat.eqb_refl.
  - apply IH; [assumption|].
    replace (done ++ gap ++ rewritten_assignment a)
      with ((done ++ gap) ++ rewritten_assignment a) by list_eq.
    rewrite quiet_app. apply andb_true_iff. split.
    + now apply quiet_carries.
    + now apply rewritten_quiet.
Qed.


(** ** Generic bodies *)

(** C2 as stated fails: in this script without whitespace the greedy run of
    the pattern goes on to the last quote before the next whitespace, which
    is the closing quote of the second statement; the literal replaced is
    everything from the first quote to that one, and the result is not the
    first literal rewritten with the rest kept. *)
Lemma minified_assignment_not_rewritten :
  Handler.processClickthroughUrls minified_script (Some (str "conversion"))
    = str "clickTag=" ++ decodeUri ++ [dq] ++ str "http://a.com/';w='1" ++ [dq] ++ str ";"
  /\ Part001.processClickthroughUrls minified_script (Some (str "conversion"))
    = str "clickTag=" ++ decodeUri ++ [dq] ++ str "http://a.com/';w='1" ++ [dq] ++ str ";"
  /\ Part001.processClickthroughUrls minified_script (Some (str "conversion"))
    <> str "clickTag=" ++ decodeUri ++ [dq] ++ str "http://a.com/" ++ [dq] ++ str ";w='1';".
Proof.
  repeat split; try (vm_compute; reflexivity).
  vm_compute. discriminate.
Qed.

(** C2 as amended.  Take a Generic body made of clickTag assignments and the
    text around them ([assemble assignment_text items last]), where [found]
    holds: every assignment is the identifier [clickTag] in any case,
    whitespace, [=], whitespace, a quote of either kind, a URL that starts
    with [http://] or [https://], has at least one more character and holds
    no whitespace, quote or [$] and no code unit by which lodash cuts a
    string into symbols (a surrogate, a combining mark, a variation
    selector, the zero-width joiner), and a quote of either kind; the pattern
    matches nowhere in the text before an assignment nor after the last one;
    and after the closing quote of an assignment no further quote comes
    before the next whitespace.  Then both handler files return the body with
    every assignment's literal replaced by the indirection expression, [ + ]
    and the URL in double quotes, whichever quotes it had, and everything
    else, the whitespace around [=] included, character for character as it
    was. *)
Theorem generic_assignments_rewritten :
  forall (items : list (jsstring * assignment)) (last : jsstring),
    found items last = true ->
    Handler.processClickthroughUrls (assemble assignment_text items last)
      (Some (str "conversion"))
      = assemble rewritten_assignment items last
    /\ Part001.processClickthroughUrls (assemble assignment_text items last)
         (Some (str "conversion"))
      = assemble rewritten_assignment items last.
Proof.
  intros items last Hfound.
  apply assignments_rewritten_in_place; [exact Hfound|].
  now apply found_in_place.
Qed.

Lemma generic_assignments_rewritten_witness :
  Handler.processClickthroughUrls (assemble assignment_text two_assignments after_assignments)
    (Some (str "conversion"))
    = assemble rewritten_assignment two_assignments after_assignments
  /\ Part001.processClickthroughUrls (assemble assignment_text two_assignments after_assignments)
       (Some (str "conversion"))
    = assemble rewritten_assignment two_assignments after_assignments.
Proof.
  apply (generic_assignments_rewritten two_assignments after_assignments).
  vm_compute. reflexivity.
Defined.

(** ** A second application *)


Lemma needs_quoted_http (k : continuation) (c : char) (s : jsstring) :
  is_quote c && match s with h :: _ => N.eqb h 104 | [] => false end = false ->
  quoted_url_matcher k (c :: s) = None.
Proof.
  intros H. unfold quoted_url_matcher. cbn [one].
  destruct (is_quote c); [|reflexivity]. simpl in H.
  destruct s as [|h s]; [reflexivity|].
  cbn [letters str map list_ascii_of_string one].
  change (is_char _ h) with (N.eqb h 104). now rewrite H.
Qed.

Lemma no_quoted_http_quiet (t : bundle_type) (s : jsstring) :
  no_quoted_http s = true -> match_all (url_pattern t) s = [].
Proof.
  unfold match_all. induction s as [|c s IH]; intros H.
  - destruct t; reflexivity.
  - cbn [no_quoted_http] in H. apply andb_true_iff in H as [H1 H2].
    apply negb_true_iff in H1. cbn [match_from].
    assert (E : match_here (url_pattern t) (c :: s) = None).
    { unfold match_here. destruct t; cbn [url_pattern].
      - rewrite quoted_url_comma_compiled. unfold quoted_url_comma_matcher.
        now rewrite needs_quoted_http.
      - rewrite quoted_url_compiled. now rewrite needs_quoted_http. }
    rewrite E. now apply IH.
Qed.


Lemma no_quoted_http_snoc (x y : jsstring) (c : char) :
  no_quoted_http (x ++ [c]) = true -> is_quote c = false -> no_quoted_http y = true ->
  no_quoted_http ((x ++ [c]) ++ y) = true.
Proof.
  intros Hx Hc Hy. induction x as [|d x IH].
  - cbn [app no_quoted_http]. now rewrite Hc, Hy.
  - cbn [app no_quoted_http] in Hx. apply andb_true_iff in Hx as [H1 H2].
    cbn [app no_quoted_http]. rewrite (IH H2), andb_true_r.
    destruct x; exact H1.
Qed.






(** ** DesignerTool bodies *)

(** ** An exit call through the arrow function *)

Lemma url_quiet_before (t : bundle_type) (g rest : jsstring) :
  no_quoted_http g = true ->
  match rest with h :: _ => N.eqb h 104 = false | [] => True end ->
  quiet (url_pattern t) g rest = true.
Proof.
  intros Hg Hrest. induction g as [|c g IH]; [reflexivity|].
  cbn [no_quoted_http] in Hg. apply andb_true_iff in Hg as [H1 H2].
  apply negb_true_iff in H1.
  rewrite quiet_cons, (IH H2), andb_true_r. apply negb_true_iff.
  assert (E : is_quote c && match g ++ rest with h :: _ => N.eqb h 104 | [] => false end
              = false).
  { destruct g as [|h g]; [|exact H1]. cbn [app].
    destruct rest as [|h rest]; [exact H1|]. rewrite Hrest. apply andb_false_r. }
  rewrite match_here_is_some. destruct t; cbn [url_pattern].
  - rewrite quoted_url_comma_compiled. unfold quoted_url_comma_matcher.
    now rewrite needs_quoted_http.
  - rewrite quoted_url_compiled. now rewrite needs_quoted_http.
Qed.

Lemma no_quote_comma_run_fails (k : continuation) (s : jsstring) :
  no_quote_comma_before_space s = true ->
  greedy not_space (one is_quote (one (is_char comma) k)) s = None.
Proof.
  induction s as [|c s IH]; intros H; [reflexivity|].
  cbn [no_quote_comma_before_space] in H. cbn [greedy]. unfold not_space at 1.
  destruct (is_space c) eqn:S; cbn [negb].
  - cbn [one]. now rewrite (space_not_quote _ S).
  - apply andb_true_iff in H as [Hq H]. apply negb_true_iff in Hq.
    rewrite (IH H). cbn [or_else one].
    destruct (is_quote c); [|reflexivity]. simpl in Hq.
    destruct s as [|d s]; [reflexivity|]. cbn [one]. unfold is_char. now rewrite Hq.
Qed.

Lemma greedy_cons (t : char -> bool) (k : continuation) (c : char) (s : jsstring) :
  greedy t k (c :: s) = if t c then or_else (greedy t k s) (k (c :: s)) else k (c :: s).
Proof. reflexivity. Qed.

Lemma quoted_url_comma_finds (q q' : char) (u rest : jsstring) :
  is_quote q = true -> is_http_url u = true -> is_quote q' = true ->
  no_quote_comma_before_space rest = true ->
  match_here quoted_url_comma ((q :: u ++ [q'; comma]) ++ rest)
    = Some (q :: u ++ [q'; comma], rest).
Proof.
  intros Hq Hu Hq' Hrest. apply match_here_intro.
  rewrite quoted_url_comma_compiled. unfold quoted_url_comma_matcher.
  replace ((q :: u ++ [q'; comma]) ++ rest) with (q :: u ++ q' :: comma :: rest) by list_eq.
  apply quoted_url_matcher_url; auto.
  rewrite greedy_cons, (quote_not_space _ Hq').
  rewrite greedy_cons. change (not_space comma) with true. cbv iota.
  rewrite no_quote_comma_run_fails by exact Hrest.
  cbn [or_else one]. rewrite Hq'.
  change (is_quote comma) with false. change (is_char comma comma) with true.
  reflexivity.
Qed.

(** ** Trimming a URL argument *)

Lemma url_no_sq_comma (u : jsstring) :
  forallb url_char u = true -> last_is comma u = false ->
  drop_end u [sq; comma] = u /\ drop_end u [dq; comma] = u.
Proof.
  intros Hu Hl. unfold last_is in Hl.
  destruct (rev u) as [|c r] eqn:E.
  - apply (f_equal (@rev char)) in E. rewrite rev_involutive in E. subst u. now split.
  - assert (Es : u = rev r ++ [c]).
    { apply (f_equal (@rev char)) in E. now rewrite rev_involutive in E. }
    rewrite Es, forallb_app in Hu. apply andb_true_iff in Hu as [_ Hc].
    cbn [forallb] in Hc. rewrite andb_true_r in Hc.
    apply url_char_inv in Hc as (_ & Hq & _).
    unfold is_quote in Hq. apply orb_false_iff in Hq as [Hd Hs].
    rewrite Es, !drop_end_snoc. unfold mem. cbn [existsb].
    now rewrite Hd, Hs, Hl.
Qed.

Lemma drop_end_length (s chars : jsstring) : length (drop_end s chars) <= length s.
Proof.
  unfold drop_end. rewrite length_rev, <- (length_rev s).
  induction (rev s) as [|c r IH]; simpl; [lia|].
  destruct (mem c chars); simpl; lia.
Qed.

Lemma drop_end_cons_keep (c : char) (s chars : jsstring) :
  s <> [] -> drop_end s chars = s -> drop_end (c :: s) chars = c :: s.
Proof.
  intros Hne H. destruct (rev s) as [|z r] eqn:E.
  - apply (f_equal (@rev char)) in E. rewrite rev_involutive in E. contradiction.
  - assert (Es : s = rev r ++ [z]).
    { apply (f_equal (@rev char)) in E. now rewrite rev_involutive in E. }
    rewrite Es in *. rewrite drop_end_snoc in H.
    change (c :: rev r ++ [z]) with ((c :: rev r) ++ [z]). rewrite drop_end_snoc.
    destruct (mem z chars); [|reflexivity]. exfalso.
    pose proof (drop_end_length (rev r) chars) as L. rewrite H, length_app in L.
    simpl in L. lia.
Qed.

Lemma drop_argument (q q' : char) (u : jsstring) :
  is_quote q = true -> is_http_url u = true -> is_quote q' = true ->
  last_is comma u = false ->
  drop_end
    (drop_start
       (drop_end (drop_start (q :: u ++ [q'; comma]) [sq]) [sq; comma]) [dq])
    [dq; comma] = u.
Proof.
  intros Hq Hu Hq' Hl. pose proof (url_not_empty _ Hu) as Hne.
  apply is_http_url_inv in Hu as [Hu _].
  pose proof (url_no_sq _ Hu) as Hs. pose proof (url_no_dq _ Hu) as Hd.
  destruct (url_no_sq_comma u Hu Hl) as [E1 E2].
  assert (S3 : forall l, drop_start (u ++ l) [sq] = u ++ l)
    by (intros l; now apply drop_start_app_clean).
  assert (S4 : forall l, drop_start (u ++ l) [dq] = u ++ l)
    by (intros l; now apply drop_start_app_clean).
  assert (S1 : drop_start u [dq] = u) by now apply drop_start_clean.
  assert (T : forall x y, (x :: u ++ [y; comma]) = ((x :: u) ++ [y]) ++ [comma])
    by (intros; list_eq).
  assert (T' : forall y, (u ++ [y; comma]) = (u ++ [y]) ++ [comma]) by (intros; list_eq).
  apply quote_cases in Hq as [-> | ->]; apply quote_cases in Hq' as [-> | ->];
    rewrite drop_start_cons; change (mem dq [sq]) with false; change (mem sq [sq]) with true;
    cbv iota; rewrite ?S3.
  - (* dq ... dq , *)
    rewrite T, drop_end_snoc. change (mem comma [sq; comma]) with true. cbv iota.
    rewrite drop_end_snoc. change (mem dq [sq; comma]) with false. cbv iota.
    change ((dq :: u) ++ [dq]) with (dq :: u ++ [dq]).
    rewrite drop_start_cons. change (mem dq [dq]) with true. cbv iota.
    rewrite S4, drop_end_snoc. change (mem dq [dq; comma]) with true. cbv iota. exact E2.
  - (* dq ... sq , *)
    rewrite T, drop_end_snoc. change (mem comma [sq; comma]) with true. cbv iota.
    rewrite drop_end_snoc. change (mem sq [sq; comma]) with true. cbv iota.
    assert (E3 : drop_end (dq :: u) [sq; comma] = dq :: u)
      by (now apply drop_end_cons_keep).
    rewrite E3, drop_start_cons. change (mem dq [dq]) with true. cbv iota.
    rewrite S1. exact E2.
  - (* sq ... dq , *)
    rewrite T', drop_end_snoc. change (mem comma [sq; comma]) with true. cbv iota.
    rewrite drop_end_snoc. change (mem dq [sq; comma]) with false. cbv iota.
    rewrite S4, drop_end_snoc. change (mem dq [dq; comma]) with true. cbv iota. exact E2.
  - (* sq ... sq , *)
    rewrite T', drop_end_snoc. change (mem comma [sq; comma]) with true. cbv iota.
    rewrite drop_end_snoc. change (mem sq [sq; comma]) with true. cbv iota.
    rewrite E1, S1. exact E2.
Qed.



(** The four trims of the DesignerTool branch leave the URL between the
    quotes, without the comma. *)
Lemma trim_argument (q q' : char) (u : jsstring) :
  is_quote q = true -> is_http_url u = true -> is_quote q' = true ->
  last_is comma u = false ->
  Lodash.trimEnd
    (Lodash.trimStart
       (Lodash.trimEnd (Lodash.trimStart (q :: u ++ [q'; comma]) [sq]) [sq; comma]) [dq])
    [dq; comma] = u.
Proof.
  intros Hq Hu Hq' Hl.
  assert (P : Lodash.hasUnicode (q :: u ++ [q'; comma]) = false).
  { apply quoted_plain; [exact Hq| |].
    - apply url_plain. now apply is_http_url_inv in Hu as [Hu _].
    - apply quote_cases in Hq' as [-> | ->]; reflexivity. }
  rewrite (trimStart_plain (q :: u ++ [q'; comma]) [sq] P eq_refl).
  pose proof (drop_start_plain _ [sq] P) as P1.
  rewrite (trimEnd_plain _ [sq; comma] P1 eq_refl).
  pose proof (drop_end_plain _ [sq; comma] P1) as P2.
  rewrite (trimStart_plain _ [dq] P2 eq_refl).
  pose proof (drop_start_plain _ [dq] P2) as P3.
  rewrite (trimEnd_plain _ [dq; comma] P3 eq_refl).
  now apply drop_argument.
Qed.

Lemma well_formed_call_inv (e : exit_site) :
  well_formed_call e = true -> well_formed_call_parts e.
Proof.
  unfold well_formed_call. intros H.
  do 9 (apply andb_true_iff in H as [H ?]).
  constructor; try assumption; now apply negb_true_iff.
Qed.

Lemma call_text_split (e : exit_site) :
  call_text e
    = (e_before e :: str "exit(" ++ e_args e)
        ++ (e_open e :: e_url e ++ [e_close e; comma]) ++ (e_rest e ++ [rparen]).
Proof. unfold call_text. list_eq. Qed.

Lemma call_head_no_url (e : exit_site) :
  no_quoted_http (e_args e) = true ->
  no_quoted_http (e_before e :: str "exit(" ++ e_args e) = true.
Proof.
  intros H.
  change (e_before e :: str "exit(" ++ e_args e)
    with (((e_before e :: str "exit") ++ [lparen]) ++ e_args e).
  apply no_quoted_http_snoc; [|reflexivity|exact H].
  cbn [no_quoted_http str map list_ascii_of_string app]. rewrite andb_false_r. reflexivity.
Qed.

Lemma replace_all_call (f : jsstring -> jsstring) (e : exit_site) :
  well_formed_call e = true ->
  replace_all quoted_url_comma f (call_text e)
    = (e_before e :: str "exit(" ++ e_args e)
        ++ f (e_open e :: e_url e ++ [e_close e; comma]) ++ (e_rest e ++ [rparen]).
Proof.
  intros H. apply well_formed_call_inv in H as [_ _ _ Ha Hr Ht Hq Hq' Hu _].
  rewrite call_text_split.
  rewrite (replace_all_quiet quoted_url_comma).
  - rewrite replace_all_found;
      [|now apply quoted_url_comma_finds|discriminate].
    rewrite (replace_all_nil quoted_url_comma); [reflexivity|].
    now apply (no_quoted_http_quiet DesignerTool).
  - apply (url_quiet_before DesignerTool); [now apply call_head_no_url|].
    cbn [app]. apply quote_cases in Hq as [-> | ->]; reflexivity.
Qed.

Lemma part001_formats_call (e : exit_site) :
  well_formed_call e = true ->
  Part001.formattedParams true quoted_url_comma (call_text e) = call_rewritten e.
Proof.
  intros H. unfold Part001.formattedParams. rewrite replace_all_call by exact H.
  apply well_formed_call_inv in H as [_ _ _ _ _ _ Hq Hq' Hu Hl].
  unfold Part001.replacer, Part001.trimmedUrl, call_rewritten.
  rewrite trim_argument by assumption. list_eq.
Qed.

Lemma handler_formats_call (e : exit_site) :
  well_formed_call e = true ->
  Handler.formattedParams false quoted_url_comma (call_text e) = call_rewritten_handler e.
Proof.
  intros H. unfold Handler.formattedParams. rewrite replace_all_call by exact H.
  apply well_formed_call_inv in H as [_ _ _ _ _ _ Hq Hq' Hu Hl].
  unfold Handler.replacer, Handler.trimmedUrl, call_rewritten_handler.
  rewrite trim_argument by assumption. list_eq.
Qed.

(** ** Finding the call *)

Lemma quote_not_rparen (c : char) : is_quote c = true -> not_rparen c = true.
Proof. intros H. apply quote_cases in H as [-> | ->]; reflexivity. Qed.

Lemma exit_call_finds (e : exit_site) (after : jsstring) :
  well_formed_call e = true ->
  match_here exit_call (call_text e ++ after) = Some (call_text e, after).
Proof.
  intros H. apply well_formed_call_inv in H as [Hc Hn _ _ _ _ Hq Hq' _ _].
  apply match_here_intro. rewrite exit_call_compiled.
  unfold exit_call_matcher, call_text. cbn [app one]. rewrite Hc.
  set (run := e_args e ++ e_open e :: e_url e ++ e_close e :: comma :: e_rest e).
  replace ((str "exit(" ++ e_args e ++ e_open e :: e_url e
              ++ e_close e :: comma :: e_rest e ++ [rparen]) ++ after)
    with (str "exit(" ++ run ++ rparen :: after) by (unfold run; list_eq).
  etransitivity; [apply letters_char_app|].
  assert (Hrun : forallb not_rparen run = true).
  { unfold run. rewrite !forallb_app in Hn.
    apply andb_true_iff in Hn as [Ha Hn]. apply andb_true_iff in Hn as [Hu Hr].
    rewrite forallb_app, Ha. cbn [forallb andb].
    rewrite (quote_not_rparen _ Hq), forallb_app, Hu. cbn [forallb andb].
    now rewrite (quote_not_rparen _ Hq'), Hr. }
  destruct run as [|a l] eqn:E.
  - unfold run in E. destruct (e_args e); discriminate.
  - cbn [forallb] in Hrun. apply andb_true_iff in Hrun as [Ha Hl].
    cbn [app one]. rewrite Ha.
    rewrite greedy_committed; [| |exact Hl|reflexivity].
    + cbn [one]. change (is_char rparen rparen) with true. reflexivity.
    + intros c x Hcx. cbn [one]. unfold not_rparen in Hcx. apply negb_true_iff in Hcx.
      unfold is_char. now rewrite Hcx.
Qed.

Lemma call_text_not_empty (e : exit_site) : call_text e <> [].
Proof. discriminate. Qed.

Lemma indexOf_where_quiet (p : pattern) (text before rest : jsstring) :
  (forall s, Js.starts_with text s = true -> is_some (match_here p s) = true) ->
  quiet p before (text ++ rest) = true ->
  Js.indexOf text (before ++ text ++ rest) = Some (length before).
Proof.
  intros Hp. induction before as [|c before IH]; intros H.
  - cbn [app]. destruct (text ++ rest) eqn:E.
    + simpl. destruct text; [reflexivity|discriminate].
    + cbn [Js.indexOf]. now rewrite <- E, starts_with_app.
  - rewrite quiet_cons in H. apply andb_true_iff in H as [H1 H2].
    apply negb_true_iff in H1.
    change ((c :: before) ++ ?x) with (c :: before ++ x).
    cbn [Js.indexOf].
    destruct (Js.starts_with text (c :: before ++ text ++ rest)) eqn:S.
    + apply Hp in S. congruence.
    + now rewrite (IH H2).
Qed.

Lemma exit_call_matches_text (e : exit_site) (s : jsstring) :
  well_formed_call e = true ->
  Js.starts_with (call_text e) s = true ->
  is_some (match_here exit_call s) = true.
Proof.
  intros H Hs. apply starts_with_inv in Hs as [y ->].
  now rewrite exit_call_finds.
Qed.

Lemma call_rewritten_no_dollar (e : exit_site) :
  well_formed_call e = true ->
  mem dollar (call_rewritten e) = false /\ mem dollar (call_rewritten_handler e) = false.
Proof.
  intros H. apply well_formed_call_inv in H as [_ _ Hd _ _ _ _ _ Hu _].
  apply is_http_url_inv in Hu as [Hu _].
  assert (Hurl : mem dollar (e_url e) = false).
  { apply (mem_false dollar url_char); [|exact Hu].
    intros x Hx. now apply url_char_inv in Hx. }
  change (e_before e :: e_args e ++ e_rest e) with ([e_before e] ++ e_args e ++ e_rest e) in Hd.
  rewrite !mem_app in Hd. apply orb_false_iff in Hd as [H0 Hd].
  apply orb_false_iff in Hd as [Ha Hr].
  unfold call_rewritten, call_rewritten_handler. split.
  - change (e_before e :: str "exit(" ++ e_args e
              ++ decodeUri ++ sq :: e_url e ++ sq :: comma :: e_rest e ++ [rparen])
      with ([e_before e] ++ str "exit(" ++ e_args e
              ++ decodeUri ++ [sq] ++ e_url e ++ [sq; comma] ++ e_rest e ++ [rparen]).
    rewrite !mem_app, H0, Ha, Hurl, Hr. reflexivity.
  - change (e_before e :: str "exit(" ++ e_args e
              ++ decodeUri ++ dq :: e_url e ++ dq :: e_rest e ++ [rparen])
      with ([e_before e] ++ str "exit(" ++ e_args e
              ++ decodeUri ++ [dq] ++ e_url e ++ [dq] ++ e_rest e ++ [rparen]).
    rewrite !mem_app, H0, Ha, Hurl, Hr. reflexivity.
Qed.

Lemma exit_call_rewritten_body (e : exit_site) (gap after : jsstring) :
  well_formed_call e = true ->
  quiet exit_call gap (call_text e ++ after) = true ->
  match_all exit_call after = [] ->
  Part001.processClickthroughUrls (gap ++ call_text e ++ after) (Some (str "gwd"))
    = gap ++ call_rewritten e ++ after
  /\ Handler.processClickthroughUrls (gap ++ call_text e ++ after) (Some (str "gwd"))
    = gap ++ call_rewritten_handler e ++ after.
Proof.
  intros Hwf Hq Hafter.
  rewrite (part001_process DesignerTool), (handler_process DesignerTool).
  cbn [clickthrough_pattern url_pattern is_generic is_designer].
  rewrite match_all_quiet by exact Hq.
  rewrite match_all_found; [|now apply exit_call_finds|apply call_text_not_empty].
  rewrite Hafter. cbn [fold_left].
  rewrite part001_formats_call, handler_formats_call by exact Hwf.
  destruct (call_rewritten_no_dollar e Hwf) as [D1 D2].
  assert (Hi : Js.indexOf (call_text e) (gap ++ call_text e ++ after) = Some (length gap)).
  { apply (indexOf_where_quiet exit_call); [|exact Hq].
    intros s. now apply exit_call_matches_text. }
  split; now apply replace_in_place.
Qed.

Lemma call_rewritten_differ (e : exit_site) : call_rewritten_handler e <> call_rewritten e.
Proof.
  unfold call_rewritten_handler, call_rewritten. intros H.
  replace (e_before e :: str "exit(" ++ e_args e
             ++ decodeUri ++ dq :: e_url e ++ dq :: e_rest e ++ [rparen])
    with ((e_before e :: str "exit(" ++ e_args e ++ decodeUri)
            ++ dq :: e_url e ++ dq :: e_rest e ++ [rparen]) in H by list_eq.
  replace (e_before e :: str "exit(" ++ e_args e
             ++ decodeUri ++ sq :: e_url e ++ sq :: comma :: e_rest e ++ [rparen])
    with ((e_before e :: str "exit(" ++ e_args e ++ decodeUri)
            ++ sq :: e_url e ++ sq :: comma :: e_rest e ++ [rparen]) in H by list_eq.
  apply app_inv_head in H. discriminate.
Qed.

(** C1, for a body with one exit call.  Let the call be one the exit-call
    pattern takes whole and in which the URL pattern finds the URL argument
    and nothing else ([well_formed_call]), the URL holding no whitespace,
    quote or [$] and no code unit by which lodash cuts a string into symbols
    (a surrogate, a combining mark, a variation selector, the zero-width
    joiner); let the pattern match nowhere in the text before the call nor
    after it.  The second handler file returns the
    body with the quoted URL argument replaced by the indirection expression,
    the URL in single quotes and the comma, and everything else as it was:
    what the claim and the repository's test say.  [src/handler.js] returns
    the URL in double quotes and without the comma, which is never the
    same. *)
Theorem exit_call_url_argument :
  forall (e : exit_site) (gap after : jsstring),
    well_formed_call e = true ->
    quiet exit_call gap (call_text e ++ after) = true ->
    match_all exit_call after = [] ->
    Part001.processClickthroughUrls (gap ++ call_text e ++ after) (Some (str "gwd"))
      = gap ++ (e_before e :: str "exit(" ++ e_args e
                  ++ decodeUri ++ sq :: e_url e ++ sq :: comma :: e_rest e ++ [rparen])
          ++ after
    /\ Handler.processClickthroughUrls (gap ++ call_text e ++ after) (Some (str "gwd"))
      = gap ++ (e_before e :: str "exit(" ++ e_args e
                  ++ decodeUri ++ dq :: e_url e ++ dq :: e_rest e ++ [rparen])
          ++ after
    /\ Handler.processClickthroughUrls (gap ++ call_text e ++ after) (Some (str "gwd"))
      <> Part001.processClickthroughUrls (gap ++ call_text e ++ after) (Some (str "gwd")).
Proof.
  intros e gap after Hwf Hq Hafter.
  destruct (exit_call_rewritten_body e gap after Hwf Hq Hafter) as [HP HH].
  repeat apply conj; [exact HP|exact HH|].
  rewrite HP, HH. intros E. apply app_inv_head in E. apply app_inv_tail in E.
  exact (call_rewritten_differ e E).
Qed.

Lemma exit_call_url_argument_witness :
  Part001.processClickthroughUrls exit_handler (Some (str "gwd"))
    = str "gwd.actions.gwdGoogleAd.exit('gwd-ad', 'Btn-Exit', " ++ decodeUri
        ++ str "'http://www.google.com/', true, true);"
  /\ Handler.processClickthroughUrls exit_handler (Some (str "gwd"))
    = str "gwd.actions.gwdGoogleAd.exit('gwd-ad', 'Btn-Exit', " ++ decodeUri
        ++ [dq] ++ str "http://www.google.com/" ++ [dq] ++ str " true, true);".
Proof.
  destruct (exit_call_url_argument test_call (str "gwd.actions.gwdGoogleAd") (str ";")
              eq_refl eq_refl eq_refl) as (HP & HH & _).
  split; [exact HP|exact HH].
Defined.

(** ** A second application to a DesignerTool body *)








(** ** The variable [trimmedUrl] *)






(** ** A rewritten body longer than the longest string *)








(** ** The object key *)

Lemma replace_prefix (p s : jsstring) : Js.replace p [] (p ++ s) = s.
Proof.
  unfold Js.replace.
  assert (E : Js.indexOf p (p ++ s) = Some 0).
  { destruct (p ++ s) eqn:F; simpl.
    - destruct p; [reflexivity|discriminate].
    - rewrite <- F, starts_with_app. reflexivity. }
  rewrite E. simpl. rewrite skipn_app, skipn_all, Nat.sub_diag. reflexivity.
Qed.

Lemma replace_absent (p r s : jsstring) : Lodash.includes s p = false -> Js.replace p r s = s.
Proof.
  unfold Lodash.includes, Js.replace. destruct (Js.indexOf p s); [discriminate|reflexivity].
Qed.

Lemma indexOf_fits (p s : jsstring) (i : nat) :
  Js.indexOf p s = Some i -> i + length p <= length s.
Proof.
  intros H. apply indexOf_some in H as (b & a & -> & <-).
  rewrite !length_app. lia.
Qed.

(** The first piece of a split is what stands before the first separator. *)
Lemma split_from_first (sep s cur : jsstring) :
  sep <> [] ->
  hd [] (Js.split_from sep s 0 cur)
    = cur ++ match Js.indexOf sep s with Some i => firstn i s | None => s end.
Proof.
  intros Hsep. revert cur. induction s as [|c s IH]; intros cur.
  - simpl. destruct sep; [contradiction|]. simpl. now rewrite app_nil_r.
  - cbn [Js.split_from Js.indexOf].
    destruct (Js.starts_with sep (c :: s)) eqn:E.
    + simpl. now rewrite app_nil_r.
    + rewrite IH. rewrite <- app_assoc. simpl.
      destruct (Js.indexOf sep s); reflexivity.
Qed.

Lemma first_split (sep s : jsstring) :
  sep <> [] ->
  Js.first (Js.split sep s)
    = match Js.indexOf sep s with Some i => firstn i s | None => s end.
Proof.
  intros H. unfold Js.first, Js.split. now rewrite split_from_first.
Qed.

Lemma indexOf_char_absent (c : char) (s t : jsstring) :
  mem c s = false -> Js.indexOf [c] (s ++ c :: t) = Some (length s).
Proof.
  unfold mem. induction s as [|x s IH]; intros H.
  - simpl. now rewrite N.eqb_refl.
  - cbn [existsb] in H. apply orb_false_iff in H as [Hx Hs].
    cbn [app Js.indexOf Js.starts_with]. rewrite Hx. simpl.
    now rewrite (IH Hs).
Qed.

Lemma indexOf_char_none (c : char) (s : jsstring) :
  mem c s = false -> Js.indexOf [c] s = None.
Proof.
  unfold mem. induction s as [|x s IH]; intros H; [reflexivity|].
  cbn [existsb] in H. apply orb_false_iff in H as [Hx Hs].
  cbn [Js.indexOf Js.starts_with]. rewrite Hx. simpl.
  now rewrite (IH Hs).
Qed.

Lemma first_segment (name rest : jsstring) :
  mem slash name = false ->
  Js.first (Js.split (str "/") (name ++ str "/" ++ rest)) = name.
Proof.
  intros H. rewrite first_split by discriminate.
  change (str "/") with [slash]. simpl app.
  rewrite (indexOf_char_absent _ _ _ H).
  rewrite firstn_app, Nat.sub_diag, firstn_all. simpl. apply app_nil_r.
Qed.

(** A path whose first piece is [name] is [name] alone or starts with
    [name/]. *)
Lemma first_segment_inv (name s : jsstring) :
  Js.first (Js.split (str "/") s) = name ->
  (s = name /\ mem slash name = false) \/ exists rest, s = name ++ str "/" ++ rest.
Proof.
  rewrite first_split by discriminate. change (str "/") with [slash].
  destruct (Js.indexOf [slash] s) as [i|] eqn:E.
  - intros <-. right. apply indexOf_some in E as (b & a & -> & <-).
    exists a. rewrite firstn_app, Nat.sub_diag, firstn_all. simpl. now rewrite app_nil_r.
  - intros <-. left. split; [reflexivity|].
    destruct (mem slash s) eqn:M; [|reflexivity]. exfalso.
    revert E. clear -M. unfold mem in M. induction s as [|x s IH]; [discriminate|].
    cbn [existsb] in M. cbn [Js.indexOf Js.starts_with].
    destruct (N.eqb slash x); simpl; [discriminate|].
    simpl in M. destruct (Js.indexOf [slash] s); [discriminate|]. intros _. now apply IH.
Qed.

Lemma split_from_not_nil (sep s : jsstring) (skip : nat) (cur : jsstring) :
  Js.split_from sep s skip cur <> [].
Proof.
  revert skip cur. induction s as [|c s IH]; intros skip cur; simpl; [discriminate|].
  destruct skip; [|apply IH].
  destruct (Js.starts_with sep (c :: s)); [discriminate|apply IH].
Qed.

Lemma last_cons (A : Type) (x d : A) (l : list A) : l <> [] -> List.last (x :: l) d = List.last l d.
Proof. destruct l; [contradiction|reflexivity]. Qed.

(** The last piece of a split is what stands after the last separator. *)
Lemma last_split_app (c : char) (a b cur : jsstring) :
  List.last (Js.split_from [c] (a ++ c :: b) 0 cur) []
    = List.last (Js.split_from [c] b 0 []) [].
Proof.
  revert cur. induction a as [|x a IH]; intros cur.
  - cbn [app Js.split_from Js.starts_with length Nat.sub]. rewrite N.eqb_refl. simpl andb. cbv iota.
    apply last_cons, split_from_not_nil.
  - cbn [app Js.split_from Js.starts_with length Nat.sub].
    destruct (N.eqb c x); simpl andb; cbv iota.
    + rewrite last_cons by apply split_from_not_nil. apply IH.
    + apply IH.
Qed.

Lemma split_from_whole (c : char) (s cur : jsstring) :
  mem c s = false -> Js.split_from [c] s 0 cur = [cur ++ s].
Proof.
  unfold mem. revert cur. induction s as [|x s IH]; intros cur H.
  - simpl. now rewrite app_nil_r.
  - cbn [existsb] in H. apply orb_false_iff in H as [Hx Hs].
    cbn [Js.split_from Js.starts_with]. rewrite Hx. simpl andb. cbv iota.
    rewrite (IH _ Hs), <- app_assoc. reflexivity.
Qed.

Lemma last_segment_app (a b : jsstring) :
  Lodash.last (Js.split (str "/") (a ++ str "/" ++ b)) = Lodash.last (Js.split (str "/") b).
Proof. unfold Lodash.last, Js.split. apply last_split_app. Qed.

Lemma last_segment_whole (s : jsstring) :
  mem slash s = false -> Lodash.last (Js.split (str "/") s) = s.
Proof.
  intros H. unfold Lodash.last, Js.split. change (str "/") with [slash].
  now rewrite (split_from_whole _ _ _ H).
Qed.

Lemma html_no_overlap (x : char) (b rest : jsstring) :
  Js.starts_with (str ".html") (x :: b) = false ->
  Js.starts_with (str ".html") (x :: b ++ str ".html" ++ rest) = false.
Proof.
  intros H.
  change (str ".html") with [46; 104; 116; 109; 108]%N in *.
  cbn [Js.starts_with] in *.
  destruct (N.eqb 46 x); [|reflexivity]. cbn [andb] in *.
  destruct b as [|y1 b]; [reflexivity|]. cbn [app] in *.
  destruct (N.eqb 104 y1); [|reflexivity]. cbn [andb] in *.
  destruct b as [|y2 b]; [reflexivity|]. cbn [app] in *.
  destruct (N.eqb 116 y2); [|reflexivity]. cbn [andb] in *.
  destruct b as [|y3 b]; [reflexivity|]. cbn [app] in *.
  destruct (N.eqb 109 y3); [|reflexivity]. cbn [andb] in *.
  destruct b as [|y4 b]; [reflexivity|]. cbn [app] in *.
  destruct (N.eqb 108 y4); [|reflexivity]. cbn [andb] in *.
  discriminate.
Qed.

Lemma indexOf_html (base rest : jsstring) :
  Lodash.includes base (str ".html") = false ->
  Js.indexOf (str ".html") (base ++ str ".html" ++ rest) = Some (length base).
Proof.
  unfold Lodash.includes. induction base as [|x b IH]; intros H.
  - reflexivity.
  - cbn [Js.indexOf] in H. cbn [app Js.indexOf].
    destruct (Js.starts_with (str ".html") (x :: b)) eqn:E; [discriminate|].
    rewrite (html_no_overlap _ _ _ E).
    destruct (Js.indexOf (str ".html") b) eqn:F; [discriminate|].
    rewrite IH by reflexivity. reflexivity.
Qed.

Lemma first_before_html (base : jsstring) :
  Lodash.includes base (str ".html") = false ->
  Js.first (Js.split (str ".html") (base ++ str ".html")) = base.
Proof.
  intros H. rewrite first_split by discriminate.
  pose proof (indexOf_html base [] H) as E. rewrite app_nil_r in E. rewrite E.
  rewrite firstn_app, Nat.sub_diag, firstn_all. simpl. apply app_nil_r.
Qed.

Lemma key_inside (dir rel c name u : jsstring) :
  getS3UploadKey (dir ++ str "/" ++ rel) dir c name u
    = c ++ str "/" ++ name ++ str "_" ++ u ++ str "/" ++
      (if jseq (Js.first (Js.split (str "/") rel)) name
       then Js.replace (name ++ str "/") [] rel else rel).
Proof.
  unfold getS3UploadKey.
  replace (dir ++ str "/" ++ rel) with ((dir ++ str "/") ++ rel) by now rewrite <- app_assoc.
  rewrite replace_prefix. now rewrite <- !app_assoc.
Qed.

Lemma key_relative (dir rel c name u : jsstring) :
  Js.first (Js.split (str "/") rel) <> name ->
  getS3UploadKey (dir ++ str "/" ++ rel) dir c name u
    = c ++ str "/" ++ name ++ str "_" ++ u ++ str "/" ++ rel.
Proof. intros H. rewrite key_inside, (jseq_neq H). reflexivity. Qed.

Lemma key_wrapped (dir rest c name u : jsstring) :
  mem slash name = false ->
  getS3UploadKey (dir ++ str "/" ++ name ++ str "/" ++ rest) dir c name u
    = c ++ str "/" ++ name ++ str "_" ++ u ++ str "/" ++ rest.
Proof.
  intros Hname. rewrite key_inside, (first_segment _ _ Hname), jseq_refl.
  replace (name ++ str "/" ++ rest) with ((name ++ str "/") ++ rest) by now rewrite <- app_assoc.
  now rewrite replace_prefix.
Qed.

(** X1.  The key of a file found under the uploaded directory, at
    [directoryToUpload/rel].  When the first folder of [rel] is not the
    archive's base name, the key is [campaignId/fileBaseName_uploadId/rel].
    When [rel] is [fileBaseName/rest], that one wrapping folder is dropped
    and the key is [campaignId/fileBaseName_uploadId/rest], whatever [rest]
    starts with. *)
Theorem upload_key_inside_directory :
  forall (directoryToUpload rel campaignId fileBaseName uploadId : jsstring),
    (Js.first (Js.split (str "/") rel) <> fileBaseName ->
     getS3UploadKey (directoryToUpload ++ str "/" ++ rel) directoryToUpload
       campaignId fileBaseName uploadId
     = campaignId ++ str "/" ++ fileBaseName ++ str "_" ++ uploadId ++ str "/" ++ rel)
    /\
    (forall rest,
        mem slash fileBaseName = false ->
        rel = fileBaseName ++ str "/" ++ rest ->
        getS3UploadKey (directoryToUpload ++ str "/" ++ rel) directoryToUpload
          campaignId fileBaseName uploadId
        = campaignId ++ str "/" ++ fileBaseName ++ str "_" ++ uploadId ++ str "/" ++ rest).
Proof.
  intros dir rel c name u. split.
  - apply key_relative.
  - intros rest Hname ->. now apply key_wrapped.
Qed.

Lemma upload_key_inside_directory_witness :
  getS3UploadKey (str "extracted/banner/images/logo.png") (str "extracted/banner")
    (str "42") (str "banner") (str "u1")
  = str "42/banner_u1/images/logo.png"
  /\ getS3UploadKey (str "extracted/banner/banner/banner/index.html") (str "extracted/banner")
       (str "42") (str "banner") (str "u1")
     = str "42/banner_u1/banner/index.html".
Proof.
  split.
  - apply (proj1 (upload_key_inside_directory (str "extracted/banner") (str "images/logo.png")
                    (str "42") (str "banner") (str "u1"))).
    discriminate.
  - apply (proj2 (upload_key_inside_directory (str "extracted/banner")
                    (str "banner/banner/index.html") (str "42") (str "banner") (str "u1"))
             (str "banner/index.html")); reflexivity.
Defined.

(** X2.  The key is not injective: when the archive wraps its files in a
    folder named like itself, the file [fileBaseName/rel] and the file [rel]
    beside that folder are two paths with one key. *)
Theorem upload_key_collision :
  forall (directoryToUpload rel campaignId fileBaseName uploadId : jsstring),
    mem slash fileBaseName = false ->
    Js.first (Js.split (str "/") rel) <> fileBaseName ->
    directoryToUpload ++ str "/" ++ fileBaseName ++ str "/" ++ rel
      <> directoryToUpload ++ str "/" ++ rel
    /\ getS3UploadKey (directoryToUpload ++ str "/" ++ fileBaseName ++ str "/" ++ rel)
         directoryToUpload campaignId fileBaseName uploadId
       = getS3UploadKey (directoryToUpload ++ str "/" ++ rel)
           directoryToUpload campaignId fileBaseName uploadId.
Proof.
  intros dir rel c name u Hname Hrel. split.
  - intros E. apply app_inv_head in E. apply app_inv_head in E.
    apply (f_equal (@length char)) in E. rewrite !length_app in E. simpl in E. lia.
  - now rewrite (key_relative _ _ _ _ _ Hrel), (key_wrapped _ _ _ _ _ Hname).
Qed.

Lemma upload_key_collision_witness :
  str "extracted/banner" ++ str "/" ++ str "banner" ++ str "/" ++ str "index.html"
    <> str "extracted/banner" ++ str "/" ++ str "index.html"
  /\ getS3UploadKey
       (str "extracted/banner" ++ str "/" ++ str "banner" ++ str "/" ++ str "index.html")
       (str "extracted/banner") (str "42") (str "banner") (str "u1")
     = getS3UploadKey (str "extracted/banner" ++ str "/" ++ str "index.html")
         (str "extracted/banner") (str "42") (str "banner") (str "u1").
Proof.
  apply (upload_key_collision (str "extracted/banner") (str "index.html")
           (str "42") (str "banner") (str "u1")); [reflexivity|discriminate].
Defined.

(** X3.  A path in which [directoryToUpload/] does not occur is kept whole:
    when its first piece is not the archive's base name either, the key is
    the key folder followed by the entire path.  For an absolute path the
    key then holds two slashes in a row. *)
Theorem upload_key_outside_directory :
  forall (filePath directoryToUpload campaignId fileBaseName uploadId : jsstring),
    Lodash.includes filePath (directoryToUpload ++ str "/") = false ->
    Js.first (Js.split (str "/") filePath) <> fileBaseName ->
    getS3UploadKey filePath directoryToUpload campaignId fileBaseName uploadId
      = campaignId ++ str "/" ++ fileBaseName ++ str "_" ++ uploadId ++ str "/" ++ filePath.
Proof.
  intros filePath dir c name u Hout Hfirst. unfold getS3UploadKey.
  rewrite (replace_absent _ _ _ Hout), (jseq_neq Hfirst). now rewrite <- !app_assoc.
Qed.

Lemma upload_key_outside_directory_witness :
  getS3UploadKey (str "/srv/tmp/rich-media-markup-extracted/banner/index.html")
    (str "../../../../../tmp/rich-media-markup-extracted/banner")
    (str "42") (str "banner") (str "u1")
  = str "42/banner_u1//srv/tmp/rich-media-markup-extracted/banner/index.html".
Proof.
  apply (upload_key_outside_directory
           (str "/srv/tmp/rich-media-markup-extracted/banner/index.html")
           (str "../../../../../tmp/rich-media-markup-extracted/banner")
           (str "42") (str "banner") (str "u1")); [reflexivity|discriminate].
Defined.

Lemma stripped_last_segment (rel name : jsstring) :
  Lodash.last
    (Js.split (str "/")
       (if jseq (Js.first (Js.split (str "/") rel)) name
        then Js.replace (name ++ str "/") [] rel else rel))
  = Lodash.last (Js.split (str "/") rel).
Proof.
  destruct (jseq (Js.first (Js.split (str "/") rel)) name) eqn:E; [|reflexivity].
  apply jseq_eq in E. apply first_segment_inv in E as [[-> Hname]|[rest ->]].
  - rewrite replace_absent; [reflexivity|].
    unfold Lodash.includes.
    destruct (Js.indexOf (name ++ str "/") name) as [i|] eqn:F; [|reflexivity].
    apply indexOf_fits in F. rewrite length_app in F. simpl in F. lia.
  - replace (name ++ str "/" ++ rest) with ((name ++ str "/") ++ rest) at 1
      by now rewrite <- app_assoc.
    rewrite replace_prefix. now rewrite last_segment_app.
Qed.

Lemma key_folder_split (c name u rest : jsstring) :
  c ++ str "/" ++ name ++ str "_" ++ u ++ str "/" ++ rest
    = (c ++ str "/" ++ name ++ str "_" ++ u) ++ str "/" ++ rest.
Proof. now rewrite <- !app_assoc. Qed.

(** X4.  An uploaded file keeps its file name: for every file under the
    uploaded directory the last piece of the key, after its last slash, is
    the last piece of the file's path, whatever the identifiers and the
    archive's base name are. *)
Theorem upload_key_keeps_file_name :
  forall (directoryToUpload rel campaignId fileBaseName uploadId : jsstring),
    Lodash.last
      (Js.split (str "/")
         (getS3UploadKey (directoryToUpload ++ str "/" ++ rel) directoryToUpload
            campaignId fileBaseName uploadId))
    = Lodash.last (Js.split (str "/") rel).
Proof.
  intros dir rel c name u.
  rewrite key_inside, key_folder_split, last_segment_app.
  apply stripped_last_segment.
Qed.

(** X5.  The base name [handler] reads off the key of an uploaded root file
    [directoryToUpload/folder/base.html] is [base], when [base] holds no
    slash and no [.html] of its own: the campaign, the upload identifier,
    the archive's name and the folders above the file have no part in it. *)
Theorem uploaded_root_base_name :
  forall (directoryToUpload folder base campaignId fileBaseName uploadId : jsstring),
    (folder = [] \/ exists f, folder = f ++ str "/") ->
    mem slash base = false ->
    Lodash.includes base (str ".html") = false ->
    uploadedRootHtmlFileBaseName
      (getS3UploadKey (directoryToUpload ++ str "/" ++ folder ++ base ++ str ".html")
         directoryToUpload campaignId fileBaseName uploadId)
    = base.
Proof.
  intros dir folder base c name u Hfolder Hslash Hhtml.
  unfold uploadedRootHtmlFileBaseName.
  rewrite key_inside, key_folder_split, last_segment_app, stripped_last_segment.
  assert (Hfile : mem slash (base ++ str ".html") = false).
  { rewrite mem_app, Hslash. reflexivity. }
  assert (E : Lodash.last (Js.split (str "/") (folder ++ base ++ str ".html"))
              = base ++ str ".html").
  { destruct Hfolder as [->|[f ->]].
    - now apply last_segment_whole.
    - rewrite <- app_assoc, last_segment_app. now apply last_segment_whole. }
  rewrite E. now apply first_before_html.
Qed.

Lemma uploaded_root_base_name_witness :
  uploadedRootHtmlFileBaseName
    (getS3UploadKey
       (str "extracted/banner" ++ str "/" ++ str "banner/" ++ str "index" ++ str ".html")
       (str "extracted/banner") (str "42") (str "banner") (str "u1"))
  = str "index".
Proof.
  apply (uploaded_root_base_name (str "extracted/banner") (str "banner/") (str "index")
           (str "42") (str "banner") (str "u1")); [|reflexivity|reflexivity].
  right. now exists (str "banner").
Defined.

(** ** Messages without a conversion *)

Lemma conversion_plain (k : continuation) (s : jsstring) :
  mem Extsprintf.percent s = false -> Extsprintf.conversion k s = None.
Proof.
  intros H. unfold Extsprintf.conversion, star.
  rewrite repeat_one by lia. apply greedy_none.
  intros l [|c s'] -> _; [reflexivity|].
  rewrite mem_app in H. apply orb_false_iff in H as [_ H].
  cbn [mem existsb] in H. apply orb_false_iff in H as [H _].
  cbn [one]. rewrite N.eqb_sym, H. reflexivity.
Qed.

Lemma exec_plain (s : jsstring) :
  mem Extsprintf.percent s = false -> Extsprintf.exec s = None.
Proof.
  induction s as [|c s IH]; intros H.
  - reflexivity.
  - cbn [Extsprintf.exec]. rewrite (conversion_plain _ _ H).
    apply IH. cbn [mem existsb] in H. now apply orb_false_iff in H as [_ H].
Qed.

(** [sprintf] returns a format without [%] as it is. *)
Lemma sprintf_plain (format : jsstring) :
  mem Extsprintf.percent format = false -> Extsprintf.sprintf format = Returns format.
Proof.
  intros H. unfold Extsprintf.sprintf.
  destruct (length format); cbn [Extsprintf.turns]; [reflexivity|].
  now rewrite (exec_plain _ H).
Qed.

Lemma thrown_message_plain (format : jsstring) :
  mem Extsprintf.percent format = false -> thrown_message format = format.
Proof. intros H. unfold thrown_message. now rewrite (sprintf_plain _ H). Qed.

Lemma new_VError_plain (cause : error) (format : jsstring) :
  mem Extsprintf.percent format = false -> new_VError cause format = VError cause format.
Proof. intros H. unfold new_VError. now rewrite (sprintf_plain _ H). Qed.

(** The four messages that are constants go through [VError] unchanged. *)
Lemma constant_messages :
  Forall (fun message => thrown_message message = message)
    [MissingRootHtml; EmptyRootHtml; MissingGeneratorMetadata; MissingAssetsFolder].
Proof. repeat constructor; apply thrown_message_plain; reflexivity. Qed.


(** ** The base-name rule and the order of the rules *)









(** ** More on the validator *)

Lemma replace_keeps_head (c d : char) (p s : jsstring) :
  N.eqb d c = false ->
  exists s', Js.replace (d :: p) [] (c :: s) = c :: s'.
Proof.
  intros H. unfold Js.replace. cbn [Js.indexOf Js.starts_with]. rewrite H. cbn [andb].
  destruct (Js.indexOf (d :: p) s) as [i|]; cbn [option_map].
  - cbn [firstn app]. eexists. reflexivity.
  - now exists s.
Qed.

Lemma first_piece_keeps_head (c d : char) (p s : jsstring) :
  N.eqb d c = false ->
  exists s', Js.first (Js.split (d :: p) (c :: s)) = c :: s'.
Proof.
  intros H. rewrite first_split by discriminate.
  cbn [Js.indexOf Js.starts_with]. rewrite H. cbn [andb].
  destruct (Js.indexOf (d :: p) s) as [i|]; cbn [option_map firstn]; eexists; reflexivity.
Qed.

(** The root file's base name is cut at the first slash: a path that starts
    with one gives the empty name. *)
Lemma derived_name_of_absolute_path (fileBaseName rest : jsstring) :
  rootHtmlFileBaseName fileBaseName (slash :: rest) = [].
Proof.
  unfold rootHtmlFileBaseName.
  destruct (replace_keeps_head slash 46%N
              (tl (EXTRACT_DIRECTORY ++ str "/" ++ fileBaseName ++ str "/")) rest eq_refl)
    as [s1 E1].
  change (46%N :: tl (EXTRACT_DIRECTORY ++ str "/" ++ fileBaseName ++ str "/"))
    with (EXTRACT_DIRECTORY ++ str "/" ++ fileBaseName ++ str "/") in E1.
  destruct (first_piece_keeps_head slash 46%N (str "html") s1 eq_refl) as [s2 E2].
  change (46%N :: str "html") with (str ".html") in E2.
  etransitivity; [apply f_equal, f_equal, f_equal, f_equal; exact E1|].
  etransitivity; [apply f_equal, f_equal; exact E2|].
  reflexivity.
Qed.

(** X6.  When the root file is listed under an absolute path, the base name
    derived from it is empty, so the base-name rule of a Generic
    ('conversion') bundle never rejects it, whatever the declared name is:
    validation comes down to reading the root file and checking that it is
    not empty.  Both handler files agree. *)
Theorem absolute_root_path_passes_base_name_rule :
  forall (fileBaseName : jsstring) (files : list jsstring)
         (reader : jsstring -> outcome jsstring) (rest : jsstring),
    Lodash.find files (fun file => Lodash.includes file (str ".html")) = Some (slash :: rest) ->
    rootHtmlFileBaseName fileBaseName (slash :: rest) = []
    /\ run (Handler.validateZipFile (Some (str "conversion")) fileBaseName files reader)
       = (match reader (slash :: rest) with
          | Throws e => Throws e
          | Returns content =>
              if length content <? 1 then Throws (str "Root .html file is missing content")
              else Returns true
          end, [slash :: rest])
    /\ run (Part001.validateZipFile (Some (str "conversion")) fileBaseName files reader)
       = (match reader (slash :: rest) with
          | Throws e => Throws e
          | Returns content =>
              if length content <? 1 then Throws (str "Root .html file is missing content")
              else Returns true
          end, [slash :: rest]).
Proof.
  intros fileBaseName files reader rest Hroot.
  split; [apply derived_name_of_absolute_path|].
  rewrite (@part001_conversion _ _ _ _ Hroot), (@handler_conversion _ _ _ _ Hroot).
  rewrite derived_name_of_absolute_path.
  assert (E : Lodash.includes fileBaseName [] = true) by (destruct fileBaseName; reflexivity).
  rewrite E. split; reflexivity.
Qed.

Lemma absolute_root_path_passes_base_name_rule_witness :
  rootHtmlFileBaseName (str "summer-sale")
    (slash :: str "srv/extracted/summer-sale/index.html") = []
  /\ run (Handler.validateZipFile (Some (str "conversion")) (str "summer-sale")
            [slash :: str "srv/extracted/summer-sale/index.html"]
            (read_as conversion_root_content))
     = (Returns true, [slash :: str "srv/extracted/summer-sale/index.html"])
  /\ run (Part001.validateZipFile (Some (str "conversion")) (str "summer-sale")
            [slash :: str "srv/extracted/summer-sale/index.html"]
            (read_as conversion_root_content))
     = (Returns true, [slash :: str "srv/extracted/summer-sale/index.html"]).
Proof.
  exact (absolute_root_path_passes_base_name_rule (str "summer-sale")
           [slash :: str "srv/extracted/summer-sale/index.html"]
           (read_as conversion_root_content) (str "srv/extracted/summer-sale/index.html")
           eq_refl).
Defined.

Lemma handler_reads (type : option jsstring) (fileBaseName : jsstring) (files : list jsstring)
  (reader : jsstring -> outcome jsstring) (root : jsstring) :
  List.find is_html files = Some root ->
  reads (Handler.validateZipFile type fileBaseName files reader) = []
  \/ reads (Handler.validateZipFile type fileBaseName files reader) = [root].
Proof.
  intros H. unfold reads, run, Handler.validateZipFile, Lodash.find.
  fold is_html. rewrite H, (@find_html_some files root H).
  destruct (jseq _ (str "gwd")).
  - right. unfold bind, call. change ([] ++ [root]) with [root].
    destruct (reader root) as [content|e]; [|reflexivity].
    destruct (length content <? 1); [reflexivity|].
    destruct (negb _); [reflexivity|]. destruct (_ && _); reflexivity.
  - destruct (negb _); [now left|]. right.
    unfold bind, call. change ([] ++ [root]) with [root].
    destruct (reader root) as [content|e]; [|reflexivity].
    destruct (length content <? 1); reflexivity.
Qed.

Lemma part001_reads (type : option jsstring) (fileBaseName : jsstring) (files : list jsstring)
  (reader : jsstring -> outcome jsstring) (root : jsstring) :
  List.find is_html files = Some root ->
  reads (Part001.validateZipFile type fileBaseName files reader) = []
  \/ reads (Part001.validateZipFile type fileBaseName files reader) = [root].
Proof.
  intros H. unfold reads, run, Part001.validateZipFile, Lodash.find.
  fold is_html. rewrite H, (@find_html_some files root H).
  unfold bind at 1.
  destruct (jseq _ (str "conversion")).
  - destruct (negb _); [now left|]. right.
    unfold ret, bind, call. change ([] ++ [root]) with [root].
    destruct (reader root) as [content|e]; [|reflexivity].
    destruct (length content <? 1); [reflexivity|].
    destruct (jseq _ (str "gwd")); [|reflexivity].
    destruct (negb _); [reflexivity|]. destruct (_ && _); reflexivity.
  - right. unfold ret, bind, call. change ([] ++ [root]) with [root].
    destruct (reader root) as [content|e]; [|reflexivity].
    destruct (length content <? 1); [reflexivity|].
    destruct (jseq _ (str "gwd")); [|reflexivity].
    destruct (negb _); [reflexivity|]. destruct (_ && _); reflexivity.
Qed.

(** X7.  Whatever the type, the declared name, the listing and the injected
    reader are, validation calls the reader at most once, and only on the
    first listed path that contains [.html]: no other file is ever read, and
    none twice.  Both handler files. *)
Theorem validation_reads_only_the_root_file :
  forall (type : option jsstring) (fileBaseName : jsstring) (files : list jsstring)
         (reader : jsstring -> outcome jsstring),
    (reads (Handler.validateZipFile type fileBaseName files reader) = []
     \/ exists root,
          List.find (fun file => Lodash.includes file (str ".html")) files = Some root
          /\ reads (Handler.validateZipFile type fileBaseName files reader) = [root])
    /\
    (reads (Part001.validateZipFile type fileBaseName files reader) = []
     \/ exists root,
          List.find (fun file => Lodash.includes file (str ".html")) files = Some root
          /\ reads (Part001.validateZipFile type fileBaseName files reader) = [root]).
Proof.
  intros type fileBaseName files reader. fold is_html.
  destruct (List.find is_html files) as [root|] eqn:H.
  - split.
    + destruct (handler_reads type fileBaseName files reader root H) as [E|E];
        [now left | right; now exists root].
    + destruct (part001_reads type fileBaseName files reader root H) as [E|E];
        [now left | right; now exists root].
  - split; left; unfold reads.
    + now rewrite (@no_root_handler fileBaseName files reader type H).
    + now rewrite (@no_root_part001 fileBaseName files reader type H).
Qed.

(** X8.  When the injected reader throws on the root file, validation ends
    with the reader's own error, unchanged: for a DesignerTool bundle
    always, and for a Generic bundle whenever the declared name contains the
    derived base name (otherwise the base-name error comes first, and the
    file is not read).  Both handler files. *)
Theorem unreadable_root_file :
  forall (fileBaseName : jsstring) (files : list jsstring)
         (reader : jsstring -> outcome jsstring) (root e : jsstring),
    Lodash.find files (fun file => Lodash.includes file (str ".html")) = Some root ->
    reader root = Throws e ->
    run (Handler.validateZipFile (Some (str "gwd")) fileBaseName files reader)
      = (Throws e, [root])
    /\ run (Part001.validateZipFile (Some (str "gwd")) fileBaseName files reader)
      = (Throws e, [root])
    /\ (Lodash.includes fileBaseName (rootHtmlFileBaseName fileBaseName root) = true ->
        run (Handler.validateZipFile (Some (str "conversion")) fileBaseName files reader)
          = (Throws e, [root])
        /\ run (Part001.validateZipFile (Some (str "conversion")) fileBaseName files reader)
          = (Throws e, [root])).
Proof.
  intros fileBaseName files reader root e Hroot He.
  rewrite (@part001_gwd _ _ _ _ Hroot), (@handler_gwd _ _ _ _ Hroot), He.
  split; [reflexivity|]. split; [reflexivity|].
  intros Hinc.
  rewrite (@part001_conversion _ _ _ _ Hroot), (@handler_conversion _ _ _ _ Hroot), Hinc, He.
  split; reflexivity.
Qed.

Lemma unreadable_root_file_witness :
  run (Handler.validateZipFile (Some (str "gwd")) (str "banner") [str "banner.html"]
         (fun _ => Throws (str "EACCES")))
    = (Throws (str "EACCES"), [str "banner.html"])
  /\ run (Part001.validateZipFile (Some (str "conversion")) (str "banner") [str "banner.html"]
            (fun _ => Throws (str "EACCES")))
    = (Throws (str "EACCES"), [str "banner.html"]).
Proof.
  pose proof (unreadable_root_file (str "banner") [str "banner.html"]
                (fun _ => Throws (str "EACCES")) (str "banner.html") (str "EACCES")
                eq_refl eq_refl) as (Hg & _ & Hc).
  split; [exact Hg | exact (proj2 (Hc eq_refl))].
Defined.

(** ** More on the rewriter *)

Lemma includes_middle (a p b : jsstring) : Lodash.includes (a ++ p ++ b) p = true.
Proof.
  induction a as [|x a IH].
  - exact (@includes_prefix p b).
  - unfold Lodash.includes in *. cbn [app Js.indexOf].
    destruct (Js.starts_with p (x :: a ++ p ++ b)); [reflexivity|].
    destruct (Js.indexOf p (a ++ p ++ b)); [reflexivity|discriminate].
Qed.

Lemma no_exit_call (body : jsstring) :
  Lodash.includes body (str "exit(") = false -> match_all exit_call body = [].
Proof.
  intros H. destruct (match_all exit_call body) as [|m l] eqn:E; [reflexivity|].
  exfalso.
  assert (Hin : In m (match_all exit_call body)) by (rewrite E; now left).
  apply match_from_in in Hin as (before & s' & rest & -> & Hm).
  apply exit_call_here in Hm as [-> (c & a & args & -> & _)].
  replace (before ++ (c :: str "exit(" ++ a :: args ++ [rparen]) ++ rest)
    with ((before ++ [c]) ++ str "exit(" ++ (a :: args ++ [rparen]) ++ rest) in H.
  - rewrite includes_middle in H. discriminate.
  - rewrite <- !app_assoc. reflexivity.
Qed.

Lemma no_assignment (body : jsstring) :
  mem equals body = false -> match_all click_tag body = [].
Proof.
  intros H. destruct (match_all click_tag body) as [|m l] eqn:E; [reflexivity|].
  exfalso.
  assert (Hin : In m (match_all click_tag body)) by (rewrite E; now left).
  apply match_from_in in Hin as (before & s' & rest & -> & Hm).
  apply click_tag_here in Hm as [-> (id & ws1 & ws2 & q & v & q' & -> & _)].
  rewrite !mem_app in H. cbn [mem existsb] in H.
  unfold mem in H. cbn [existsb] in H. rewrite N.eqb_refl in H.
  rewrite ?orb_true_r, ?orb_true_l in H. simpl in H.
  rewrite ?orb_true_r in H. discriminate.
Qed.

Lemma handler_exit_rules (body : jsstring) (type : option jsstring) :
  type <> Some (str "conversion") ->
  Handler.processClickthroughUrls body type
    = fold_left
        (fun output params =>
           Js.replace params (Handler.formattedParams false quoted_url_comma params) output)
        (match_all exit_call body) body.
Proof.
  intros H. unfold Handler.processClickthroughUrls.
  destruct type as [t|]; [|reflexivity].
  rewrite (@jseq_neq t (str "conversion")) by congruence. reflexivity.
Qed.

Lemma part001_click_tag_rules (body t : jsstring) :
  t <> str "gwd" ->
  Part001.processClickthroughUrls body (Some t)
    = fold_left
        (fun output params =>
           Js.replace params (Part001.formattedParams false quoted_url params) output)
        (match_all click_tag body) body.
Proof.
  intros H. unfold Part001.processClickthroughUrls. now rewrite (jseq_neq H).
Qed.

(** X9.  A body in which the text [exit(] does not occur is returned
    unchanged wherever the exit-call rules apply: in [src/handler.js] for
    every type other than 'conversion', a missing one included; in the second
    handler file for 'gwd' and for a missing type.  A body without [=] is
    returned unchanged wherever the clickTag rules apply: in
    [src/handler.js] for 'conversion', in the second handler file for every
    type other than 'gwd'. *)
Theorem rewriter_needs_literal_text :
  forall body : jsstring,
    (Lodash.includes body (str "exit(") = false ->
     (forall type, type <> Some (str "conversion") ->
                   Handler.processClickthroughUrls body type = body)
     /\ Part001.processClickthroughUrls body None = body
     /\ Part001.processClickthroughUrls body (Some (str "gwd")) = body)
    /\
    (mem equals body = false ->
     Handler.processClickthroughUrls body (Some (str "conversion")) = body
     /\ (forall t, t <> str "gwd" -> Part001.processClickthroughUrls body (Some t) = body)).
Proof.
  intros body. split.
  - intros H. apply no_exit_call in H. split; [|split].
    + intros type Ht. now rewrite (handler_exit_rules body type Ht), H.
    + unfold Part001.processClickthroughUrls. cbn [jseq]. 
      change (jseq (str "gwd") (str "gwd")) with true. cbv iota. now rewrite H.
    + unfold Part001.processClickthroughUrls.
      change (jseq (str "gwd") (str "gwd")) with true. cbv iota. now rewrite H.
  - intros H. apply no_assignment in H. split.
    + unfold Handler.processClickthroughUrls.
      change (jseq (str "conversion") (str "conversion")) with true. cbv iota. now rewrite H.
    + intros t Ht. now rewrite (part001_click_tag_rules body t Ht), H.
Qed.

Lemma rewriter_needs_literal_text_witness :
  Handler.processClickthroughUrls about_blank (Some (str "flash")) = about_blank
  /\ Part001.processClickthroughUrls plain_script (Some (str "gwd")) = plain_script.
Proof.
  split.
  - apply (proj1 (proj1 (rewriter_needs_literal_text about_blank) eq_refl)). discriminate.
  - apply (proj2 (proj2 (proj1 (rewriter_needs_literal_text plain_script) eq_refl))).
Defined.

(** X10.  How the two rewriters take the type.  [src/handler.js] applies
    the exit-call rules to every type other than 'conversion', a missing one
    included.  The second handler file applies the clickTag rules to every
    type other than 'gwd', and the exit-call rules to a missing one.  So an
    unrecognized type is rewritten as 'gwd' by the first and as 'conversion'
    by the second; and for 'conversion' itself the two files return the same
    text for every body. *)
Theorem rewriter_type_dispatch :
  forall body : jsstring,
    (forall type, type <> Some (str "conversion") ->
                  Handler.processClickthroughUrls body type
                    = Handler.processClickthroughUrls body (Some (str "gwd")))
    /\ (forall t, t <> str "gwd" ->
                  Part001.processClickthroughUrls body (Some t)
                    = Part001.processClickthroughUrls body (Some (str "conversion")))
    /\ Part001.processClickthroughUrls body None
         = Part001.processClickthroughUrls body (Some (str "gwd"))
    /\ Handler.processClickthroughUrls body (Some (str "conversion"))
         = Part001.processClickthroughUrls body (Some (str "conversion")).
Proof.
  intros body. split; [|split; [|split]].
  - intros type Ht. rewrite (handler_exit_rules body type Ht).
    symmetry. apply handler_exit_rules. discriminate.
  - intros t Ht. rewrite (part001_click_tag_rules body t Ht).
    symmetry. apply part001_click_tag_rules. discriminate.
  - reflexivity.
  - reflexivity.
Qed.

Lemma rewriter_type_dispatch_witness :
  Handler.processClickthroughUrls nested_quote (Some (str "flash"))
    = Handler.processClickthroughUrls nested_quote (Some (str "gwd"))
  /\ Part001.processClickthroughUrls nested_quote (Some (str "flash"))
     = Part001.processClickthroughUrls nested_quote (Some (str "conversion")).
Proof.
  split.
  - apply (proj1 (rewriter_type_dispatch nested_quote)). discriminate.
  - apply (proj1 (proj2 (rewriter_type_dispatch nested_quote))). discriminate.
Defined.

Lemma handler_exit_rules_unchanged (body : jsstring) (type : option jsstring) :
  type <> Some (str "conversion") ->
  Lodash.includes body (str "exit(") = false ->
  Handler.processClickthroughUrls body type = body.
Proof.
  intros Ht H. now rewrite (handler_exit_rules body type Ht), (no_exit_call body H).
Qed.

(** ** Uploading a directory *)

Section UploadRuns.

Variable Buffer : Type.
Variable env : Upload.environment Buffer.
Variables campaignId directoryToUpload fileBaseName uploadId : jsstring.
Variable exporter : option jsstring.
Variable flags : bool.

Let key (filePath : jsstring) : jsstring :=
  getS3UploadKey filePath directoryToUpload campaignId fileBaseName uploadId.

Let object := Upload.object_of env campaignId directoryToUpload fileBaseName uploadId exporter.

Let loop :=
  Upload.uploadFiles env campaignId directoryToUpload fileBaseName uploadId exporter flags.

Lemma puts_app (l1 l2 : list (Upload.request Buffer)) :
  Upload.puts (l1 ++ l2) = Upload.puts l1 ++ Upload.puts l2.
Proof. apply flat_map_app. Qed.

(** The type [processClickthroughUrls] is given for an exporter. *)
Let type_given : jsstring :=
  if match exporter with
     | Some e => jseq e (str "conversio")
     | None => false
     end
  then str "conversion" else str "gwd".

(** The body of the object for a file, as the loop computes it. *)
Let body_of (filePath : jsstring) : completion (Upload.content Buffer) :=
  if Lodash.includes filePath (str ".html")
  then match Upload.readFileSync_utf8 env filePath with
       | Done body =>
           @Upload.rewritten Buffer
             (match exporter with
              | Some e =>
                  if jseq e (str "gwd")
                  then Upload.processClickthroughUrls env body (Some (str "gwd"))
                  else if jseq e (str "conversio")
                  then Upload.processClickthroughUrls env body (Some (str "conversion"))
                  else Upload.processClickthroughUrls env body (Some (str "gwd"))
              | None => Upload.processClickthroughUrls env body (Some (str "gwd"))
              end)
       | Thrown e => Thrown e
       end
  else map_completion Upload.Binary (Upload.readFileSync env filePath).

Lemma switch_on_exporter (body : jsstring) :
  match exporter with
  | Some e =>
      if jseq e (str "gwd")
      then Upload.processClickthroughUrls env body (Some (str "gwd"))
      else if jseq e (str "conversio")
      then Upload.processClickthroughUrls env body (Some (str "conversion"))
      else Upload.processClickthroughUrls env body (Some (str "gwd"))
  | None => Upload.processClickthroughUrls env body (Some (str "gwd"))
  end = Upload.processClickthroughUrls env body (Some type_given).
Proof.
  unfold type_given. destruct exporter as [e|]; [|reflexivity].
  destruct (jseq e (str "gwd")) eqn:G; [|destruct (jseq e (str "conversio")); reflexivity].
  apply jseq_eq in G. subst e. reflexivity.
Qed.

(** The body of the object a file is put as. *)
Lemma body_read (filePath : jsstring) (b : Upload.content Buffer) :
  body_of filePath = Done b ->
  if Lodash.includes filePath (str ".html")
  then exists text,
      Upload.readFileSync_utf8 env filePath = Done text
      /\ b = Upload.Text (Handler.processClickthroughUrls text (Some type_given))
  else exists buffer, Upload.readFileSync env filePath = Done buffer /\ b = Upload.Binary buffer.
Proof.
  unfold body_of. destruct (Lodash.includes filePath (str ".html")).
  - destruct (Upload.readFileSync_utf8 env filePath) as [text|]; try discriminate.
    rewrite switch_on_exporter. unfold Upload.processClickthroughUrls.
    destruct (engine_handler (Upload.MAX_STRING_LENGTH env) text (Some type_given)) as [E|E];
      rewrite E; cbn [Upload.rewritten]; [|discriminate].
    intros H. injection H as <-. now exists text.
  - destruct (Upload.readFileSync env filePath) as [buffer|]; try discriminate.
    intros H. injection H as <-. now exists buffer.
Qed.

Lemma content_type (filePath : jsstring) :
  (if falsy (Upload.mime_lookup env filePath) then str "application/octet-stream"
   else match Upload.mime_lookup env filePath with
        | Some type => type
        | None => str "application/octet-stream"
        end)
  = match Upload.mime_lookup env filePath with
    | Some [] | None => str "application/octet-stream"
    | Some type => type
    end.
Proof. destruct (Upload.mime_lookup env filePath) as [[|c t]|]; reflexivity. Qed.

(** What is requested of the other storage service before the object is
    put: at most one upload, no object. *)
Lemma before_put (filePath : jsstring) (requests : list (Upload.request Buffer)) :
  exists gcs,
    Upload.puts gcs = []
    /\ snd ((if flags
             then let! uploadToGCS :=
                    lift (Upload.configs_get env (str "creatives.uploadToGCS")) in
                  if uploadToGCS
                  then Upload.send env
                         (Upload.GcsUpload (Upload.GCS_CREATIVE_BUCKET_NAME env) filePath
                            (key filePath))
                  else pure tt
             else pure tt) requests) = requests ++ gcs.
Proof.
  destruct flags.
  - unfold and_then, lift.
    destruct (Upload.configs_get env (str "creatives.uploadToGCS")) as [[|]|].
    + exists [Upload.GcsUpload (Upload.GCS_CREATIVE_BUCKET_NAME env) filePath (key filePath)].
      split; reflexivity.
    + exists []. now rewrite app_nil_r.
    + exists []. now rewrite app_nil_r.
  - exists []. now rewrite app_nil_r.
Qed.

(** A run of the loop that returns has put every file of the list, in
    order, each as its object. *)
Lemma loop_done (files : list jsstring) :
  forall (acc : list jsstring) (requests : list (Upload.request Buffer))
         (results : list jsstring) (requests' : list (Upload.request Buffer)),
    loop files acc requests = (Done results, requests') ->
    results = acc ++ map key files
    /\ exists objects,
        Upload.puts requests' = Upload.puts requests ++ objects
        /\ Forall2 object files objects.
Proof.
  induction files as [|filePath rest IH]; intros acc requests results requests' H.
  - injection H as <- <-. rewrite !app_nil_r. split; [reflexivity|].
    exists []. rewrite app_nil_r. split; [reflexivity|constructor].
  - unfold loop in H. cbn [Upload.uploadFiles] in H. fold loop in H. fold (key filePath) in H.
    unfold and_then at 1 in H. unfold lift at 1 in H.
    change (if Lodash.includes filePath (str ".html") then _ else _)
      with (body_of filePath) in H.
    destruct (body_of filePath) as [b0|] eqn:Hread; try discriminate.
    apply body_read in Hread.
    unfold and_then at 1 in H. unfold try_catch in H. unfold and_then at 1 in H.
    destruct (before_put filePath requests) as (gcs & Hgcs & Hsnd).
    match type of H with context [(if flags then ?a else ?b) requests] =>
      destruct ((if flags then a else b) requests) as [c r1] eqn:Hbefore
    end.
    cbn [snd] in Hsnd. subst r1.
    destruct c as [[]|]; [|discriminate].
    unfold Upload.uploadObjectToS3, Upload.send in H.
    match type of H with context [Upload.respond env ?l ?r] =>
      destruct (Upload.respond env l r) eqn:Hanswer
    end; [discriminate|].
    apply IH in H as [-> (objects & Hputs & Hall)]. split.
    + cbn [map]. now rewrite <- app_assoc.
    + eexists (_ :: objects). split.
      * rewrite Hputs, !puts_app, Hgcs. cbn [Upload.puts flat_map app].
        rewrite app_nil_r, <- app_assoc. reflexivity.
      * constructor; [|exact Hall].
        unfold object, Upload.object_of. cbn [Upload.s3UploadKey Upload.Bucket Upload.ACL
          Upload.ContentType Upload.body].
        repeat apply conj; try reflexivity; [apply content_type|exact Hread].
Qed.

(** The error of reading a file, or of rewriting its text. *)
Lemma body_unread (filePath : jsstring) (e : error) :
  body_of filePath = Thrown e ->
  if Lodash.includes filePath (str ".html")
  then Upload.readFileSync_utf8 env filePath = Thrown e
       \/ exists text,
           Upload.readFileSync_utf8 env filePath = Done text
           /\ Upload.processClickthroughUrls env text (Some type_given)
              = Throws Engine.invalid_string_length
           /\ e = Error Engine.invalid_string_length
  else Upload.readFileSync env filePath = Thrown e.
Proof.
  unfold body_of. destruct (Lodash.includes filePath (str ".html")).
  - destruct (Upload.readFileSync_utf8 env filePath) as [text|e0].
    + rewrite switch_on_exporter. intros H. right. exists text. split; [reflexivity|].
      unfold Upload.processClickthroughUrls in *.
      destruct (engine_handler (Upload.MAX_STRING_LENGTH env) text (Some type_given)) as [E|E];
        rewrite E in *; cbn [Upload.rewritten] in H; [discriminate|].
      injection H as <-. now split.
    + intros H. injection H as <-. now left.
  - destruct (Upload.readFileSync env filePath); try discriminate.
    intros H. now injection H as <-.
Qed.

(** A run of the loop that throws stopped at one file of the list: the files
    before it are put, the files after it are left alone, and the error is
    that of reading the file or of rewriting its text, as it is, or what
    [new VError] makes of what a service or [configs.get] threw. *)
Lemma loop_thrown (files : list jsstring) :
  forall (acc : list jsstring) (requests : list (Upload.request Buffer))
         (e : error) (requests' : list (Upload.request Buffer)),
    loop files acc requests = (Thrown e, requests') ->
    exists pre filePath post objects,
      files = pre ++ filePath :: post
      /\ Forall2 object pre objects
      /\ (((if Lodash.includes filePath (str ".html")
            then Upload.readFileSync_utf8 env filePath = Thrown e
                 \/ exists text,
                     Upload.readFileSync_utf8 env filePath = Done text
                     /\ Upload.processClickthroughUrls env text (Some type_given)
                        = Throws Engine.invalid_string_length
                     /\ e = Error Engine.invalid_string_length
            else Upload.readFileSync env filePath = Thrown e)
           /\ Upload.puts requests' = Upload.puts requests ++ objects)
          \/ exists cause,
              e = new_VError cause (str "failed to upload " ++ filePath ++ str " to s3")
              /\ (Upload.puts requests' = Upload.puts requests ++ objects
                  \/ exists p,
                      object filePath p
                      /\ Upload.puts requests' = Upload.puts requests ++ objects ++ [p])).
Proof.
  induction files as [|filePath rest IH]; intros acc requests e requests' H.
  - discriminate.
  - unfold loop in H. cbn [Upload.uploadFiles] in H. fold loop in H. fold (key filePath) in H.
    unfold and_then at 1 in H. unfold lift at 1 in H.
    change (if Lodash.includes filePath (str ".html") then _ else _)
      with (body_of filePath) in H.
    destruct (body_of filePath) as [b0|e0] eqn:Hread.
    2:{ injection H as <- <-. apply body_unread in Hread.
        exists [], filePath, rest, []. split; [reflexivity|]. split; [constructor|].
        left. rewrite app_nil_r. now split. }
    apply body_read in Hread.
    assert (Hobject : forall p,
               p = {| Upload.s3UploadKey := key filePath; Upload.body := b0;
                      Upload.Bucket := Upload.S3_CREATIVES_BUCKET env;
                      Upload.ACL := Upload.S3_ACCESS_CONTROL_LIST env;
                      Upload.ContentType :=
                        if falsy (Upload.mime_lookup env filePath)
                        then str "application/octet-stream"
                        else match Upload.mime_lookup env filePath with
                             | Some type => type
                             | None => str "application/octet-stream"
                             end |} -> object filePath p).
    { intros p ->. unfold object, Upload.object_of.
      cbn [Upload.s3UploadKey Upload.Bucket Upload.ACL Upload.ContentType Upload.body].
      repeat apply conj; try reflexivity; [apply content_type|exact Hread]. }
    unfold and_then at 1 in H. unfold try_catch in H. unfold and_then at 1 in H.
    destruct (before_put filePath requests) as (gcs & Hgcs & Hsnd).
    match type of H with context [(if flags then ?a else ?b) requests] =>
      destruct ((if flags then a else b) requests) as [c r1] eqn:Hbefore
    end.
    cbn [snd] in Hsnd. subst r1.
    destruct c as [[]|cause].
    + unfold Upload.uploadObjectToS3, Upload.send in H.
      match type of H with context [Upload.respond env ?l ?r] =>
        destruct (Upload.respond env l r) as [cause|] eqn:Hanswer
      end.
      * injection H as <- <-.
        exists [], filePath, rest, []. split; [reflexivity|]. split; [constructor|].
        right. exists cause. split; [reflexivity|]. right.
        eexists. split; [apply Hobject; reflexivity|].
        rewrite !puts_app, Hgcs. cbn [Upload.puts flat_map app]. now rewrite !app_nil_r.
      * apply IH in H as (pre & f & post & objects & -> & Hpre & Hend).
        eexists (filePath :: pre), f, post, (_ :: objects).
        split; [reflexivity|].
        split; [constructor; [apply Hobject; reflexivity|exact Hpre]|].
        rewrite !puts_app, Hgcs in Hend. cbn [Upload.puts flat_map app] in Hend.
        rewrite app_nil_r in Hend.
        destruct Hend as [[Hr Hp]|(cause & -> & [Hp|(p & Hobj & Hp)])].
        -- left. split; [exact Hr|]. rewrite Hp, <- app_assoc. reflexivity.
        -- right. exists cause. split; [reflexivity|]. left.
           rewrite Hp, <- app_assoc. reflexivity.
        -- right. exists cause. split; [reflexivity|]. right. exists p.
           split; [exact Hobj|]. rewrite Hp, <- app_assoc. reflexivity.
    + injection H as <- <-.
      exists [], filePath, rest, []. split; [reflexivity|]. split; [constructor|].
      right. exists cause. split; [reflexivity|]. left.
      now rewrite puts_app, Hgcs, !app_nil_r.
Qed.

End UploadRuns.

(** X11.  When [uploadDirectoryToS3] returns, every file [getFiles] listed
    has been put, in the order of the listing and once each: the result is
    the list of their keys, and the objects put are, file by file, the key
    [getS3UploadKey] gives, the bucket and the access list of the constants,
    the type [mime.lookup] finds or [application/octet-stream], and as body
    the text rewritten by [processClickthroughUrls] for a path that contains
    [.html], the buffer read for any other path. *)
Theorem upload_puts_every_listed_file :
  forall (Buffer : Type) (env : Upload.environment Buffer)
         (campaignId directoryToUpload fileBaseName uploadId : jsstring)
         (exporter : option jsstring) (flags : bool)
         (requests : list (Upload.request Buffer)) (results : list jsstring)
         (requests' : list (Upload.request Buffer)),
    Upload.uploadDirectoryToS3 env campaignId directoryToUpload fileBaseName uploadId
      exporter flags requests = (Done results, requests') ->
    exists files objects,
      Upload.getFiles env (Upload.resolve env directoryToUpload) = Done files
      /\ results
         = map (fun filePath =>
                  getS3UploadKey filePath directoryToUpload campaignId fileBaseName uploadId)
             files
      /\ Upload.puts requests' = Upload.puts requests ++ objects
      /\ Forall2
           (Upload.object_of env campaignId directoryToUpload fileBaseName uploadId exporter)
           files objects.
Proof.
  intros Buffer env c dir name u exporter flags requests results requests' H.
  unfold Upload.uploadDirectoryToS3, and_then, lift in H.
  destruct (Upload.getFiles env (Upload.resolve env dir)) as [files|]; try discriminate.
  apply loop_done in H as [-> (objects & Hputs & Hall)].
  now exists files, objects.
Qed.

Lemma upload_puts_every_listed_file_witness :
  exists objects,
    Upload.puts
      (snd (Upload.uploadDirectoryToS3 (sample_environment accepting) (str "42")
              (str "extracted/banner") (str "banner") (str "u1") (Some (str "gwd")) true []))
    = objects
    /\ Forall2
         (Upload.object_of (sample_environment accepting) (str "42") (str "extracted/banner")
            (str "banner") (str "u1") (Some (str "gwd")))
         sample_listing objects.
Proof.
  destruct (upload_puts_every_listed_file jsstring (sample_environment accepting) (str "42")
              (str "extracted/banner") (str "banner") (str "u1") (Some (str "gwd")) true []
              _ _ eq_refl) as (files & objects & Hfiles & _ & Hputs & Hall).
  injection Hfiles as <-. exists objects. split; [exact Hputs|exact Hall].
Defined.

(** X12.  When [uploadDirectoryToS3] throws, either listing the directory
    threw, and nothing was requested, or the loop stopped at one listed
    file: the files listed before it have been put, each once and in order,
    and stay put; no object is put for a file listed after it; and the error
    is what reading that file threw, as it is, or the [RangeError] of
    rewriting its text past the longest string of the engine, or what
    [new VError(error, 'failed to upload <path> to s3')] is for an error
    that [configs.get] or a storage service threw, the object of that file
    being then the last one put or not put at all.  That last error is the
    [VError] with the cause and the message [failed to upload <path> to s3]
    when the path holds no [%]. *)
Theorem upload_stops_at_the_first_failure :
  forall (Buffer : Type) (env : Upload.environment Buffer)
         (campaignId directoryToUpload fileBaseName uploadId : jsstring)
         (exporter : option jsstring) (flags : bool)
         (requests : list (Upload.request Buffer)) (e : error)
         (requests' : list (Upload.request Buffer)),
    Upload.uploadDirectoryToS3 env campaignId directoryToUpload fileBaseName uploadId
      exporter flags requests = (Thrown e, requests') ->
    (Upload.getFiles env (Upload.resolve env directoryToUpload) = Thrown e
     /\ requests' = requests)
    \/ exists pre filePath post objects,
        Upload.getFiles env (Upload.resolve env directoryToUpload)
          = Done (pre ++ filePath :: post)
        /\ Forall2
             (Upload.object_of env campaignId directoryToUpload fileBaseName uploadId exporter)
             pre objects
        /\ (((if Lodash.includes filePath (str ".html")
              then Upload.readFileSync_utf8 env filePath = Thrown e
                   \/ exists text,
                       Upload.readFileSync_utf8 env filePath = Done text
                       /\ Upload.processClickthroughUrls env text
                            (Some (if match exporter with
                                      | Some x => jseq x (str "conversio")
                                      | None => false
                                      end
                                   then str "conversion" else str "gwd"))
                          = Throws Engine.invalid_string_length
                       /\ e = Error Engine.invalid_string_length
              else Upload.readFileSync env filePath = Thrown e)
             /\ Upload.puts requests' = Upload.puts requests ++ objects)
            \/ exists cause,
                e = new_VError cause (str "failed to upload " ++ filePath ++ str " to s3")
                /\ (mem Extsprintf.percent filePath = false ->
                    e = VError cause (str "failed to upload " ++ filePath ++ str " to s3"))
                /\ (Upload.puts requests' = Upload.puts requests ++ objects
                    \/ exists p,
                        Upload.object_of env campaignId directoryToUpload fileBaseName
                          uploadId exporter filePath p
                        /\ Upload.puts requests' = Upload.puts requests ++ objects ++ [p])).
Proof.
  intros Buffer env c dir name u exporter flags requests e requests' H.
  unfold Upload.uploadDirectoryToS3, and_then, lift in H.
  destruct (Upload.getFiles env (Upload.resolve env dir)) as [files|e0].
  - right. apply loop_thrown in H as (pre & f & post & objects & -> & Hpre & Hend).
    exists pre, f, post, objects. split; [reflexivity|]. split; [exact Hpre|].
    destruct Hend as [Hend|(cause & -> & Hputs)]; [now left|].
    right. exists cause. split; [reflexivity|]. split; [|exact Hputs].
    intros Hplain. apply new_VError_plain. rewrite !mem_app, Hplain. reflexivity.
  - left. injection H as <- <-. now split.
Qed.

Lemma upload_stops_at_the_first_failure_witness :
  fst (Upload.uploadDirectoryToS3 (sample_environment refusing_the_second) (str "42")
         (str "extracted/banner") (str "banner") (str "u1") (Some (str "gwd")) false [])
  = Thrown (VError (Error (str "AccessDenied"))
              (str "failed to upload /srv/extracted/banner/logo.png to s3"))
  /\ ((Upload.getFiles (sample_environment refusing_the_second)
         (Upload.resolve (sample_environment refusing_the_second) (str "extracted/banner"))
       = Thrown (VError (Error (str "AccessDenied"))
                   (str "failed to upload /srv/extracted/banner/logo.png to s3")))
      \/ exists pre filePath post,
          sample_listing = pre ++ filePath :: post).
Proof.
  split; [vm_compute; reflexivity|].
  destruct (upload_stops_at_the_first_failure jsstring (sample_environment refusing_the_second)
              (str "42") (str "extracted/banner") (str "banner") (str "u1")
              (Some (str "gwd")) false [] _ _ eq_refl)
    as [[Hlist _]|(pre & f & post & objects & Hlist & _)].
  - left. exact Hlist.
  - right. injection Hlist as ->. now exists pre, f, post.
Defined.

(** X13.  In [src/handler.js] the upload gives the clickTag rules to the
    exporter 'conversio' only.  For every other exporter, 'conversion'
    included, a file whose path contains [.html] is put as
    [processClickthroughUrls(text, 'gwd')] of the text read; when that text
    does not hold [exit(], it is put as it was read, its clickTag
    assignments not rewritten. *)
Theorem upload_rewrites_with_exit_call_rules :
  forall (Buffer : Type) (env : Upload.environment Buffer)
         (campaignId directoryToUpload fileBaseName uploadId : jsstring)
         (exporter : option jsstring) (flags : bool)
         (requests : list (Upload.request Buffer)) (results : list jsstring)
         (requests' : list (Upload.request Buffer)),
    exporter <> Some (str "conversio") ->
    Upload.uploadDirectoryToS3 env campaignId directoryToUpload fileBaseName uploadId
      exporter flags requests = (Done results, requests') ->
    exists files objects,
      Upload.getFiles env (Upload.resolve env directoryToUpload) = Done files
      /\ Upload.puts requests' = Upload.puts requests ++ objects
      /\ Forall2
           (fun filePath p =>
              forall text,
                Lodash.includes filePath (str ".html") = true ->
                Upload.readFileSync_utf8 env filePath = Done text ->
                Upload.body p
                  = Upload.Text (Handler.processClickthroughUrls text (Some (str "gwd")))
                /\ (Lodash.includes text (str "exit(") = false ->
                    Upload.body p = Upload.Text text))
           files objects.
Proof.
  intros Buffer env c dir name u exporter flags requests results requests' Hexporter H.
  unfold Upload.uploadDirectoryToS3, and_then, lift in H.
  destruct (Upload.getFiles env (Upload.resolve env dir)) as [files|]; try discriminate.
  apply loop_done in H as [_ (objects & Hputs & Hall)].
  exists files, objects. split; [reflexivity|]. split; [exact Hputs|].
  revert Hall. apply Forall2_impl. intros filePath p (_ & _ & _ & _ & Hbody) text Hhtml Hread.
  rewrite Hhtml in Hbody. destruct Hbody as (text' & Hread' & Hbody).
  rewrite Hread in Hread'. injection Hread' as <-.
  assert (E : match exporter with Some e => jseq e (str "conversio") | None => false end = false).
  { destruct exporter as [e|]; [|reflexivity]. apply jseq_neq. congruence. }
  rewrite E in Hbody. split; [exact Hbody|].
  intros Hexit. rewrite Hbody. f_equal.
  apply handler_exit_rules_unchanged; [discriminate|exact Hexit].
Qed.

Lemma upload_rewrites_with_exit_call_rules_witness :
  exists objects,
    Upload.puts
      (snd (Upload.uploadDirectoryToS3 (sample_environment accepting) (str "42")
              (str "extracted/banner") (str "banner") (str "u1") (Some (str "conversion"))
              false []))
    = objects
    /\ Forall2
         (fun filePath p =>
            forall text,
              Lodash.includes filePath (str ".html") = true ->
              Upload.readFileSync_utf8 (sample_environment accepting) filePath = Done text ->
              Upload.body p
                = Upload.Text (Handler.processClickthroughUrls text (Some (str "gwd")))
              /\ (Lodash.includes text (str "exit(") = false ->
                  Upload.body p = Upload.Text text))
         sample_listing objects.
Proof.
  destruct (upload_rewrites_with_exit_call_rules jsstring (sample_environment accepting)
              (str "42") (str "extracted/banner") (str "banner") (str "u1")
              (Some (str "conversion")) false [] _ _ ltac:(discriminate) eq_refl)
    as (files & objects & Hfiles & Hputs & Hall).
  injection Hfiles as <-. exists objects. split; [exact Hputs|exact Hall].
Defined.

(** ** Locations *)

Lemma same_refl (a : Path.location) : Fs.same a a = true.
Proof. induction a as [|x a IH]; simpl; [reflexivity|]. now rewrite jseq_refl. Qed.

Lemma same_eq (a b : Path.location) : Fs.same a b = true <-> a = b.
Proof.
  split; [|intros ->; apply same_refl].
  revert b. induction a as [|x a IH]; intros [|y b]; simpl; try discriminate; auto.
  intros H. apply andb_true_iff in H as [Hx Hab].
  apply jseq_eq in Hx. apply IH in Hab. now subst.
Qed.

Lemma same_neq (a b : Path.location) : a <> b -> Fs.same a b = false.
Proof.
  intros H. destruct (Fs.same a b) eqn:E; [|reflexivity].
  apply same_eq in E. contradiction.
Qed.

Lemma is_prefix_app (a c : Path.location) : Fs.is_prefix a (a ++ c) = true.
Proof. induction a as [|x a IH]; simpl; [reflexivity|]. now rewrite jseq_refl. Qed.

Lemma is_prefix_refl (a : Path.location) : Fs.is_prefix a a = true.
Proof. rewrite <- (app_nil_r a) at 2. apply is_prefix_app. Qed.

Lemma is_prefix_inv (a b : Path.location) :
  Fs.is_prefix a b = true -> exists c, b = a ++ c.
Proof.
  revert b. induction a as [|x a IH]; intros b H.
  - now exists b.
  - destruct b as [|y b]; simpl in H; [discriminate|].
    apply andb_true_iff in H as [Hx Hab]. apply jseq_eq in Hx. subst y.
    destruct (IH _ Hab) as [c ->]. now exists c.
Qed.

Lemma is_prefix_trans (a b c : Path.location) :
  Fs.is_prefix a b = true -> Fs.is_prefix b c = true -> Fs.is_prefix a c = true.
Proof.
  intros H1 H2. apply is_prefix_inv in H1 as [x ->]. apply is_prefix_inv in H2 as [y ->].
  rewrite <- app_assoc. apply is_prefix_app.
Qed.

(** Two children of one directory are not above one another. *)
Lemma sibling_not_above (l : Path.location) (n m : jsstring) (c : Path.location) :
  n <> m -> Fs.is_prefix (l ++ [n]) (l ++ m :: c) = false.
Proof.
  intros H. induction l as [|x l IH]; simpl.
  - now rewrite (jseq_neq H).
  - now rewrite jseq_refl.
Qed.

Lemma not_above_parent (l : Path.location) (n : jsstring) : Fs.is_prefix (l ++ [n]) l = false.
Proof. induction l as [|x l IH]; simpl; [reflexivity|]. now rewrite jseq_refl. Qed.

Lemma removelast_snoc (A : Type) (l : list A) (x : A) : removelast (l ++ [x]) = l.
Proof. apply removelast_last. Qed.

Lemma snoc_cases (A : Type) (l : list A) : l = [] \/ exists l' x, l = l' ++ [x].
Proof. induction l as [|x l' _] using rev_ind; [now left|right; eauto]. Qed.

(** ** Looking up *)

Lemma find_filter_key (q : Path.location -> bool) (l : Path.location) (fs : Fs.filesystem) :
  List.find (fun x => Fs.same (fst x) l) (filter (fun x => q (fst x)) fs)
    = if q l then List.find (fun x => Fs.same (fst x) l) fs else None.
Proof.
  induction fs as [|x fs IH]; simpl.
  - now destruct (q l).
  - destruct (q (fst x)) eqn:Q; simpl.
    + destruct (Fs.same (fst x) l) eqn:E; [|exact IH].
      apply same_eq in E. rewrite <- E, Q. reflexivity.
    + destruct (Fs.same (fst x) l) eqn:E; [|exact IH].
      apply same_eq in E. rewrite IH, <- E, Q. reflexivity.
Qed.

Lemma lookup_filter (q : Path.location -> bool) (l : Path.location) (fs : Fs.filesystem) :
  l <> [] ->
  Fs.lookup l (filter (fun x => q (fst x)) fs) = if q l then Fs.lookup l fs else None.
Proof.
  intros H. destruct l as [|n l]; [contradiction|].
  unfold Fs.lookup. rewrite find_filter_key. now destruct (q (n :: l)).
Qed.

Lemma lookup_prune (p l : Path.location) (fs : Fs.filesystem) :
  p <> [] ->
  Fs.lookup l (Fs.prune p fs) = if Fs.is_prefix p l then None else Fs.lookup l fs.
Proof.
  intros Hp. destruct l as [|n l].
  - destruct p; [contradiction|reflexivity].
  - unfold Fs.prune.
    rewrite (lookup_filter (fun k => negb (Fs.is_prefix p k))) by discriminate.
    now destruct (Fs.is_prefix p (n :: l)).
Qed.

Lemma lookup_in (l : Path.location) (e : Fs.entry) (fs : Fs.filesystem) :
  l <> [] -> Fs.lookup l fs = Some e -> In (l, e) fs.
Proof.
  intros H. destruct l as [|n l]; [contradiction|]. unfold Fs.lookup.
  destruct (List.find _ fs) as [[k e']|] eqn:F; [|discriminate].
  intros E. injection E as <-. apply find_some in F as [Hin Hk].
  apply same_eq in Hk. simpl in Hk. now subst k.
Qed.

Lemma in_keys_lookup (l : Path.location) (e : Fs.entry) (fs : Fs.filesystem) :
  In (l, e) fs -> exists e', Fs.lookup l fs = Some e'.
Proof.
  intros H. destruct l as [|n l]; [now exists Fs.Directory|]. unfold Fs.lookup.
  destruct (List.find (fun x => Fs.same (fst x) (n :: l)) fs) as [[k e']|] eqn:F.
  - now exists e'.
  - exfalso. apply (find_none _ _ F) in H. simpl fst in H. now rewrite same_refl in H.
Qed.

Lemma distinct_not_in (k : Path.location) (keys : list Path.location) :
  existsb (Fs.same k) keys = false -> ~ In k keys.
Proof.
  intros H Hin. assert (E : existsb (Fs.same k) keys = true).
  { apply existsb_exists. exists k. split; [exact Hin|apply same_refl]. }
  congruence.
Qed.

Lemma distinct_NoDup (keys : list Path.location) : Fs.distinct keys = true -> NoDup keys.
Proof.
  induction keys as [|k keys IH]; simpl; intros H; [constructor|].
  apply andb_true_iff in H as [Hk Hrest]. apply negb_true_iff in Hk.
  constructor; [now apply distinct_not_in|now apply IH].
Qed.

Lemma in_lookup (l : Path.location) (e : Fs.entry) (fs : Fs.filesystem) :
  Fs.distinct (map fst fs) = true -> l <> [] -> In (l, e) fs -> Fs.lookup l fs = Some e.
Proof.
  intros Hd Hl Hin. destruct l as [|n l]; [contradiction|]. unfold Fs.lookup.
  induction fs as [|[k e'] fs IH]; [contradiction|].
  simpl in Hd. apply andb_true_iff in Hd as [Hk Hrest]. apply negb_true_iff in Hk.
  simpl. destruct (Fs.same k (n :: l)) eqn:E.
  - apply same_eq in E. subst k. destruct Hin as [Hin|Hin].
    + now injection Hin as ->.
    + exfalso. apply (distinct_not_in _ _ Hk). apply (in_map fst) in Hin. exact Hin.
  - destruct Hin as [Hin|Hin].
    + injection Hin as -> ->. now rewrite same_refl in E.
    + now apply IH.
Qed.

(** ** Well-formed file systems *)

Lemma well_formed_distinct (fs : Fs.filesystem) :
  Fs.well_formed fs = true -> Fs.distinct (map fst fs) = true.
Proof. unfold Fs.well_formed. intros H. now apply andb_true_iff in H as [H _]. Qed.

Lemma well_formed_entry (fs : Fs.filesystem) (k : Path.location) (e : Fs.entry) :
  Fs.well_formed fs = true -> In (k, e) fs ->
  k <> [] /\ forallb Path.is_name k = true
  /\ Fs.lookup (removelast k) fs = Some Fs.Directory.
Proof.
  unfold Fs.well_formed. intros H Hin. apply andb_true_iff in H as [_ H].
  rewrite forallb_forall in H. specialize (H _ Hin). simpl in H.
  destruct k as [|n k]; [discriminate|].
  apply andb_true_iff in H as [Hn Hd]. split; [discriminate|]. split; [exact Hn|].
  destruct (Fs.lookup (removelast (n :: k)) fs) as [[c|]|]; try discriminate. reflexivity.
Qed.

(** Whatever is above an entry is a directory. *)
Lemma above_is_directory (fs : Fs.filesystem) :
  Fs.well_formed fs = true ->
  forall (ext l : Path.location) (e : Fs.entry),
    ext <> [] -> In (l ++ ext, e) fs -> Fs.lookup l fs = Some Fs.Directory.
Proof.
  intros Hwf ext. induction ext as [|x ext' IH] using rev_ind; intros l e Hne Hin;
    [contradiction|].
  destruct (well_formed_entry fs _ _ Hwf Hin) as (_ & _ & Hparent).
  rewrite app_assoc, removelast_last in Hparent.
  destruct ext' as [|y ext'].
  - now rewrite app_nil_r in Hparent.
  - apply (IH l Fs.Directory); [discriminate|].
    apply lookup_in; [|exact Hparent]. destruct l; discriminate.
Qed.

Lemma nothing_below_a_file (fs : Fs.filesystem) (l k : Path.location) (c : jsstring)
  (e : Fs.entry) :
  Fs.well_formed fs = true -> Fs.lookup l fs = Some (Fs.File c) ->
  In (k, e) fs -> Fs.is_prefix l k = true -> k = l.
Proof.
  intros Hwf Hl Hin Hp. apply is_prefix_inv in Hp as [ext ->].
  destruct ext as [|x ext]; [apply app_nil_r|].
  rewrite (above_is_directory fs Hwf (x :: ext) l e) in Hl; [discriminate|discriminate|exact Hin].
Qed.

Lemma nothing_below_nothing (fs : Fs.filesystem) (l k : Path.location) (e : Fs.entry) :
  Fs.well_formed fs = true -> Fs.lookup l fs = None ->
  In (k, e) fs -> Fs.is_prefix l k = false.
Proof.
  intros Hwf Hl Hin. destruct (Fs.is_prefix l k) eqn:Hp; [|reflexivity]. exfalso.
  apply is_prefix_inv in Hp as [ext ->].
  destruct ext as [|x ext].
  - rewrite app_nil_r in Hin. apply in_keys_lookup in Hin as [e' He']. congruence.
  - rewrite (above_is_directory fs Hwf (x :: ext) l e) in Hl; [discriminate|discriminate|exact Hin].
Qed.

Lemma distinct_filter (q : Path.location -> bool) (fs : Fs.filesystem) :
  Fs.distinct (map fst fs) = true ->
  Fs.distinct (map fst (filter (fun x => q (fst x)) fs)) = true.
Proof.
  induction fs as [|x fs IH]; simpl; intros H; [reflexivity|].
  apply andb_true_iff in H as [Hx Hrest]. apply negb_true_iff in Hx.
  destruct (q (fst x)); [|now apply IH]. simpl. rewrite (IH Hrest), andb_true_r.
  apply negb_true_iff. apply not_true_is_false. intros E.
  apply existsb_exists in E as (k & Hk & Hsame).
  apply in_map_iff in Hk as (y & <- & Hy). apply filter_In in Hy as [Hy _].
  assert (E : existsb (Fs.same (fst x)) (map fst fs) = true).
  { apply existsb_exists. exists (fst y). split; [now apply in_map|exact Hsame]. }
  congruence.
Qed.

(** Cutting a whole branch off leaves a well-formed file system. *)
Lemma well_formed_prune (p : Path.location) (fs : Fs.filesystem) :
  p <> [] -> Fs.well_formed fs = true -> Fs.well_formed (Fs.prune p fs) = true.
Proof.
  intros Hp Hwf. unfold Fs.well_formed. apply andb_true_iff. split.
  - apply (distinct_filter (fun k => negb (Fs.is_prefix p k))).
    now apply well_formed_distinct.
  - apply forallb_forall. intros [k e] Hin. simpl fst.
    unfold Fs.prune in Hin. apply filter_In in Hin as [Hin Hk]. simpl in Hk.
    apply negb_true_iff in Hk.
    destruct (well_formed_entry fs k e Hwf Hin) as (Hne & Hnames & Hparent).
    destruct k as [|n k]; [contradiction|]. rewrite Hnames. cbn [andb].
    rewrite (lookup_prune p _ fs Hp).
    destruct (Fs.is_prefix p (removelast (n :: k))) eqn:E.
    + exfalso. apply is_prefix_inv in E as [c E].
      assert (F : Fs.is_prefix p (n :: k) = true).
      { rewrite (app_removelast_last [] (l:=n :: k)) by discriminate.
        rewrite E, <- app_assoc. apply is_prefix_app. }
      congruence.
    + now rewrite Hparent.
Qed.

Lemma depth_bound (fs : Fs.filesystem) (k : Path.location) (e : Fs.entry) :
  In (k, e) fs -> length k <= Fs.depth fs.
Proof.
  induction fs as [|x fs IH]; [contradiction|]. intros [->|H]; simpl.
  - lia.
  - specialize (IH H). lia.
Qed.

Lemma depth_filter (q : Path.location * Fs.entry -> bool) (fs : Fs.filesystem) :
  Fs.depth (filter q fs) <= Fs.depth fs.
Proof.
  induction fs as [|x fs IH]; simpl; [lia|].
  destruct (q x); simpl; lia.
Qed.

(** ** The names in a directory *)

Lemma child_name_spec (l k : Path.location) (n : jsstring) :
  Fs.child_name l k = Some n <-> k = l ++ [n].
Proof.
  unfold Fs.child_name. split.
  - destruct (Fs.is_prefix l k) eqn:E; [|discriminate].
    apply is_prefix_inv in E as [c ->].
    rewrite skipn_app, skipn_all, Nat.sub_diag. simpl.
    destruct c as [|x [|y c]]; try discriminate. intros H. now injection H as ->.
  - intros ->. rewrite is_prefix_app, skipn_app, skipn_all, Nat.sub_diag. reflexivity.
Qed.

Lemma in_children (l : Path.location) (n : jsstring) (fs : Fs.filesystem) :
  In n (Fs.children l fs) <-> exists e, In (l ++ [n], e) fs.
Proof.
  unfold Fs.children. rewrite in_flat_map. split.
  - intros ([k e] & Hin & Hn). simpl fst in Hn.
    destruct (Fs.child_name l k) as [m|] eqn:E; [|contradiction].
    destruct Hn as [->|[]]. apply child_name_spec in E. subst k. now exists e.
  - intros [e Hin]. exists (l ++ [n], e). split; [exact Hin|]. simpl fst.
    rewrite (proj2 (child_name_spec l (l ++ [n]) n) eq_refl). now left.
Qed.

Lemma children_filter (q : Path.location -> bool) (l : Path.location) (fs : Fs.filesystem) :
  Fs.children l (filter (fun x => q (fst x)) fs)
    = filter (fun n => q (l ++ [n])) (Fs.children l fs).
Proof.
  unfold Fs.children. induction fs as [|[k e] fs IH]; [reflexivity|].
  simpl. destruct (Fs.child_name l k) as [n|] eqn:E.
  - apply child_name_spec in E. subst k. simpl.
    destruct (q (l ++ [n])); simpl.
    + rewrite (proj2 (child_name_spec l (l ++ [n]) n) eq_refl). simpl. now rewrite IH.
    + exact IH.
  - destruct (q k); simpl; [rewrite E|]; exact IH.
Qed.

Lemma children_NoDup (l : Path.location) (fs : Fs.filesystem) :
  Fs.distinct (map fst fs) = true -> NoDup (Fs.children l fs).
Proof.
  unfold Fs.children. induction fs as [|[k e] fs IH]; simpl; intros H; [constructor|].
  apply andb_true_iff in H as [Hk Hrest]. apply negb_true_iff in Hk.
  destruct (Fs.child_name l k) as [n|] eqn:E; [|now apply IH].
  simpl. constructor; [|now apply IH].
  intros Hin. apply (in_children l n fs) in Hin as [e' Hin].
  apply child_name_spec in E. subst k.
  apply (distinct_not_in _ _ Hk). apply (in_map fst) in Hin. exact Hin.
Qed.

(** ** Resolving a joined path *)

Lemma split_from_snoc (c : char) (p n cur : jsstring) :
  mem c n = false ->
  Js.split_from [c] (p ++ c :: n) 0 cur = Js.split_from [c] p 0 cur ++ [n].
Proof.
  intros Hn. revert cur. induction p as [|x p IH]; intros cur.
  - cbn [app Js.split_from Js.starts_with length Nat.sub]. rewrite N.eqb_refl. cbn [andb].
    now rewrite (split_from_whole c n [] Hn).
  - cbn [app Js.split_from Js.starts_with length Nat.sub].
    destruct (N.eqb c x); cbn [andb]; rewrite IH; reflexivity.
Qed.

Lemma is_name_inv (n : jsstring) :
  Path.is_name n = true ->
  n <> [] /\ mem slash n = false /\ forall here, Path.step here n = here ++ [n].
Proof.
  unfold Path.is_name. intros H.
  apply andb_true_iff in H as [H H4]. apply andb_true_iff in H as [H H3].
  apply andb_true_iff in H as [H1 H2].
  apply negb_true_iff in H1, H2, H3, H4.
  split; [intros ->; discriminate|]. split; [exact H4|].
  intros here. unfold Path.step. now rewrite H1, H2, H3.
Qed.

Lemma join_not_empty (path n : jsstring) : path <> [] -> n <> [] ->
  Path.join path n = path ++ str "/" ++ n.
Proof. destruct path; [contradiction|]. destruct n; [contradiction|]. reflexivity. Qed.

Lemma locate_join (cwd : Path.location) (path n : jsstring) :
  path <> [] -> Path.is_name n = true ->
  Path.locate cwd (Path.join path n) = Path.locate cwd path ++ [n].
Proof.
  intros Hp Hn. destruct (is_name_inv n Hn) as (Hne & Hslash & Hstep).
  rewrite (join_not_empty path n Hp Hne). unfold Path.locate.
  assert (E : Js.starts_with (str "/") (path ++ str "/" ++ n) = Js.starts_with (str "/") path).
  { destruct path; [contradiction|reflexivity]. }
  rewrite E. unfold Js.split. change (str "/") with [slash]. cbn [app].
  rewrite (split_from_snoc slash path n [] Hslash), fold_left_app. cbn [fold_left].
  apply Hstep.
Qed.

Lemma last_is_app (c : char) (a b : jsstring) : b <> [] -> last_is c (a ++ b) = last_is c b.
Proof.
  intros Hb. unfold last_is. rewrite rev_app_distr.
  destruct (rev b) as [|d r] eqn:E; [|reflexivity].
  apply (f_equal (@rev char)) in E. rewrite rev_involutive in E. contradiction.
Qed.

Lemma last_is_name (n : jsstring) : Path.is_name n = true -> last_is slash n = false.
Proof.
  intros Hn. destruct (is_name_inv n Hn) as (_ & Hslash & _).
  unfold last_is. destruct (rev n) as [|d r] eqn:E; [reflexivity|].
  assert (Hin : In d n) by (apply in_rev; rewrite E; now left).
  destruct (N.eqb d slash) eqn:D; [|reflexivity].
  apply N.eqb_eq in D. subst d. exfalso.
  unfold mem in Hslash. assert (F : existsb (N.eqb slash) n = true).
  { apply existsb_exists. exists slash. split; [exact Hin|apply N.eqb_refl]. }
  congruence.
Qed.

Lemma join_last (path n : jsstring) :
  path <> [] -> Path.is_name n = true -> last_is slash (Path.join path n) = false.
Proof.
  intros Hp Hn. destruct (is_name_inv n Hn) as (Hne & _ & _).
  rewrite (join_not_empty path n Hp Hne).
  replace (path ++ str "/" ++ n) with ((path ++ str "/") ++ n) by now rewrite <- app_assoc.
  rewrite last_is_app by exact Hne. now apply last_is_name.
Qed.

Lemma join_is_path (path n : jsstring) : path <> [] -> Path.join path n <> [].
Proof. destruct path; [contradiction|]. destruct n; discriminate. Qed.

(** ** Deleting a folder *)

Lemma filter_twice (A : Type) (f g : A -> bool) (l : list A) :
  filter f (filter g l) = filter (fun x => g x && f x) l.
Proof.
  induction l as [|x l IH]; simpl; [reflexivity|].
  destruct (g x); simpl; [destruct (f x)|]; now rewrite IH.
Qed.

Lemma filter_all (A : Type) (f : A -> bool) (l : list A) :
  (forall x, In x l -> f x = true) -> filter f l = l.
Proof.
  induction l as [|x l IH]; intros H; simpl; [reflexivity|].
  rewrite (H x (or_introl eq_refl)), IH; [reflexivity|]. intros y Hy. apply H. now right.
Qed.

Lemma filter_none (A : Type) (f : A -> bool) (l : list A) :
  (forall x, In x l -> f x = false) -> filter f l = [].
Proof.
  induction l as [|x l IH]; intros H; simpl; [reflexivity|].
  rewrite (H x (or_introl eq_refl)). apply IH. intros y Hy. apply H. now right.
Qed.

Section Deleting.

Variable cwd : Path.location.

Lemma stat_directory (path : jsstring) (fs : Fs.filesystem) :
  path <> [] -> Fs.lookup (Path.locate cwd path) fs = Some Fs.Directory ->
  Fs.stat cwd path fs = Done Fs.Directory.
Proof. intros Hp H. unfold Fs.stat. destruct path; [contradiction|]. now rewrite H. Qed.

Lemma stat_file (path c : jsstring) (fs : Fs.filesystem) :
  path <> [] -> last_is slash path = false ->
  Fs.lookup (Path.locate cwd path) fs = Some (Fs.File c) ->
  Fs.stat cwd path fs = Done (Fs.File c).
Proof. intros Hp Hl H. unfold Fs.stat. destruct path; [contradiction|]. now rewrite H, Hl. Qed.

Lemma stat_absent (path : jsstring) (fs : Fs.filesystem) :
  Fs.lookup (Path.locate cwd path) fs = None -> Fs.stat cwd path fs = Thrown Fs.ENOENT.
Proof. intros H. unfold Fs.stat. destruct path; [reflexivity|]. now rewrite H. Qed.

(** Removing a regular file is cutting its branch off. *)
Lemma remove_file (l : Path.location) (c : jsstring) (fs : Fs.filesystem) :
  Fs.well_formed fs = true -> Fs.lookup l fs = Some (Fs.File c) ->
  Fs.remove l fs = Fs.prune l fs.
Proof.
  intros Hwf Hl. unfold Fs.remove, Fs.prune. apply filter_ext_in. intros [k e] Hin.
  simpl fst. f_equal. destruct (Fs.is_prefix l k) eqn:E.
  - rewrite (nothing_below_a_file fs l k c e Hwf Hl Hin E). apply same_refl.
  - apply same_neq. intros ->. now rewrite is_prefix_refl in E.
Qed.

(** The callback of [forEach] in [deleteFolderRecursively]. *)
Let callback (fuel : nat) (filePath file : jsstring) : fueled Fs.filesystem unit :=
  let currentPath := Path.join filePath file in
  let? isDirectory := started (Fs.lstatSync_isDirectory cwd currentPath) in
  if isDirectory
  then deleteFolderRecursively cwd fuel currentPath
  else started (Fs.unlinkSync cwd currentPath).

Let deletes (fuel : nat) : Prop :=
  forall (fs : Fs.filesystem) (path : jsstring),
    Fs.well_formed fs = true -> path <> [] -> Path.locate cwd path <> [] ->
    Fs.lookup (Path.locate cwd path) fs = Some Fs.Directory ->
    Fs.depth fs < fuel + length (Path.locate cwd path) ->
    deleteFolderRecursively cwd fuel path fs
      = Some (Done tt, Fs.prune (Path.locate cwd path) fs).

Lemma delete_children (fuel : nat) (filePath : jsstring) :
  filePath <> [] -> deletes fuel ->
  forall (names : list jsstring) (fs : Fs.filesystem),
    Fs.well_formed fs = true -> NoDup names ->
    (forall n, In n names ->
               Path.is_name n = true
               /\ Fs.lookup (Path.locate cwd filePath ++ [n]) fs <> None) ->
    Fs.depth fs < fuel + length (Path.locate cwd filePath) + 1 ->
    forEach names (callback fuel filePath) fs
      = Some (Done tt,
              filter (fun x =>
                        negb (existsb
                                (fun n => Fs.is_prefix (Path.locate cwd filePath ++ [n]) (fst x))
                                names)) fs).
Proof.
  intros Hpath IH names. induction names as [|n rest IHnames]; intros fs Hwf Hnd Hnames Hdepth.
  - cbn [forEach existsb]. unfold started, pure. now rewrite filter_all.
  - destruct (Hnames n (or_introl eq_refl)) as [Hn Hthere].
    assert (Hloc : Path.locate cwd (Path.join filePath n) = Path.locate cwd filePath ++ [n])
      by now apply locate_join.
    assert (Hcur : Path.join filePath n <> []) by now apply join_is_path.
    assert (Hne : Path.locate cwd filePath ++ [n] <> [])
      by (destruct (Path.locate cwd filePath); discriminate).
    assert (Hstep : callback fuel filePath n fs
                    = Some (Done tt, Fs.prune (Path.locate cwd filePath ++ [n]) fs)).
    { unfold callback, and_then_fueled, started, Fs.lstatSync_isDirectory.
      destruct (Fs.lookup (Path.locate cwd filePath ++ [n]) fs) as [[c|]|] eqn:E;
        [| |contradiction].
      - assert (S1 : Fs.stat cwd (Path.join filePath n) fs = Done (Fs.File c)).
        { apply stat_file; [exact Hcur|now apply join_last|now rewrite Hloc]. }
        rewrite S1. unfold Fs.unlinkSync. rewrite S1, Hloc.
        now rewrite (remove_file _ c fs Hwf E).
      - assert (S1 : Fs.stat cwd (Path.join filePath n) fs = Done Fs.Directory).
        { apply stat_directory; [exact Hcur|now rewrite Hloc]. }
        rewrite S1. rewrite <- Hloc. apply IH; try assumption.
        + now rewrite Hloc.
        + now rewrite Hloc.
        + rewrite Hloc, length_app. simpl. lia. }
    cbn [forEach]. unfold and_then_fueled at 1. rewrite Hstep.
    rewrite IHnames.
    + f_equal. f_equal. unfold Fs.prune. rewrite filter_twice. apply filter_ext.
      intros [k e]. cbn [fst existsb]. now rewrite negb_orb.
    + now apply well_formed_prune.
    + now inversion Hnd.
    + intros m Hm. destruct (Hnames m (or_intror Hm)) as [Hmn Hmthere].
      split; [exact Hmn|]. rewrite (lookup_prune _ _ fs Hne).
      assert (Hnm : n <> m) by (inversion Hnd; intros ->; contradiction).
      now rewrite (sibling_not_above (Path.locate cwd filePath) n m [] Hnm).
    + unfold Fs.prune.
      pose proof (depth_filter
                    (fun x => negb (Fs.is_prefix (Path.locate cwd filePath ++ [n]) (fst x))) fs).
      lia.
Qed.

Lemma rmdir_empty (path : jsstring) (fs : Fs.filesystem) :
  path <> [] -> Path.locate cwd path <> [] ->
  Fs.lookup (Path.locate cwd path) fs = Some Fs.Directory ->
  Fs.children (Path.locate cwd path) fs = [] ->
  Fs.rmdirSync cwd path fs = (Done tt, Fs.remove (Path.locate cwd path) fs).
Proof.
  intros Hpath Hloc Hdir Hempty. unfold Fs.rmdirSync.
  rewrite (stat_directory path fs Hpath Hdir), Hempty.
  destruct (Path.locate cwd path); [contradiction|reflexivity].
Qed.

(** With fuel beyond the depth of the file system, a directory is deleted
    with everything below it, and nothing else is touched. *)
Lemma delete_folder (fuel : nat) : deletes fuel.
Proof.
  induction fuel as [|fuel IH]; intros fs path Hwf Hpath Hloc Hdir Hdepth.
  - exfalso. apply lookup_in in Hdir; [|exact Hloc].
    apply depth_bound in Hdir. simpl in Hdepth. lia.
  - cbn [deleteFolderRecursively]. unfold Fs.existsSync.
    rewrite (stat_directory path fs Hpath Hdir).
    unfold and_then_fueled at 1. unfold started at 1. unfold Fs.readdirSync.
    rewrite (stat_directory path fs Hpath Hdir).
    unfold and_then_fueled at 1.
    fold (callback fuel path).
    rewrite (delete_children fuel path Hpath IH (Fs.children (Path.locate cwd path) fs) fs Hwf).
    + set (fs' := filter _ fs).
      assert (Hdir' : Fs.lookup (Path.locate cwd path) fs' = Some Fs.Directory).
      { unfold fs'.
        rewrite (lookup_filter
                   (fun k => negb (existsb (fun n => Fs.is_prefix (Path.locate cwd path ++ [n]) k)
                                     (Fs.children (Path.locate cwd path) fs)))) by exact Hloc.
        assert (E : existsb (fun n => Fs.is_prefix (Path.locate cwd path ++ [n])
                                        (Path.locate cwd path))
                      (Fs.children (Path.locate cwd path) fs) = false).
        { apply not_true_is_false. intros E. apply existsb_exists in E as (n & _ & E).
          now rewrite not_above_parent in E. }
        now rewrite E. }
      assert (Hempty : Fs.children (Path.locate cwd path) fs' = []).
      { unfold fs'.
        rewrite (children_filter
                   (fun k => negb (existsb (fun n => Fs.is_prefix (Path.locate cwd path ++ [n]) k)
                                     (Fs.children (Path.locate cwd path) fs)))).
        apply filter_none. intros n Hn. apply negb_false_iff.
        apply existsb_exists. exists n. split; [exact Hn|apply is_prefix_refl]. }
      unfold started. rewrite (rmdir_empty path fs' Hpath Hloc Hdir' Hempty).
      f_equal. f_equal.
      unfold fs', Fs.remove, Fs.prune. rewrite filter_twice. apply filter_ext_in.
      intros [k e] Hin. cbn [fst]. rewrite <- negb_orb. f_equal.
      destruct (Fs.is_prefix (Path.locate cwd path) k) eqn:E.
      * apply is_prefix_inv in E as [ext ->]. destruct ext as [|x ext].
        -- rewrite app_nil_r, same_refl. apply orb_true_r.
        -- apply orb_true_iff. left. apply existsb_exists. exists x. split.
           ++ apply in_children. destruct ext as [|y ext].
              ** now exists e.
              ** exists Fs.Directory. apply lookup_in.
                 --- destruct (Path.locate cwd path); discriminate.
                 --- apply (above_is_directory fs Hwf (y :: ext) _ e); [discriminate|].
                     now rewrite <- app_assoc.
           ++ replace (Path.locate cwd path ++ x :: ext)
                with ((Path.locate cwd path ++ [x]) ++ ext) by now rewrite <- app_assoc.
              apply is_prefix_app.
      * apply orb_false_iff. split.
        -- apply not_true_is_false. intros F. apply existsb_exists in F as (n & _ & F).
           assert (G : Fs.is_prefix (Path.locate cwd path) k = true).
           { apply (is_prefix_trans _ (Path.locate cwd path ++ [n]));
               [apply is_prefix_app|exact F]. }
           congruence.
        -- apply same_neq. intros ->. now rewrite is_prefix_refl in E.
    + now apply children_NoDup, well_formed_distinct.
    + intros n Hn. apply in_children in Hn as [e Hin].
      destruct (well_formed_entry fs _ e Hwf Hin) as (_ & Hnames & _).
      rewrite forallb_app in Hnames. apply andb_true_iff in Hnames as [_ Hn].
      simpl in Hn. rewrite andb_true_r in Hn. split; [exact Hn|].
      apply in_keys_lookup in Hin as [e' ->]. discriminate.
    + lia.
Qed.

End Deleting.

Lemma stat_directory_inv (cwd : Path.location) (path : jsstring) (fs : Fs.filesystem) :
  Fs.stat cwd path fs = Done Fs.Directory ->
  path <> [] /\ Fs.lookup (Path.locate cwd path) fs = Some Fs.Directory.
Proof.
  unfold Fs.stat. destruct path as [|x path]; [discriminate|].
  destruct (Fs.lookup _ fs) as [[content|]|]; try discriminate.
  - destruct (last_is slash _); discriminate.
  - intros _. split; [discriminate|reflexivity].
Qed.

(** X14.  [deleteFolderRecursively] on a well-formed file system, with fuel
    beyond its depth, given a path whose [..] segments all come before its
    names, as the folders of the module are written: on such a path the
    resolution by the text is the one of the operating system.  A path that
    names a directory other than the root is deleted with everything below
    it and nothing else: afterwards no location at or below it holds an
    entry, and every other location holds what it held.  A path that names
    a regular file makes it throw [ENOTDIR] and delete nothing.  A path that
    names nothing is left alone, without an error. *)
Theorem deleteFolderRecursively_deletes_the_branch :
  forall (cwd : Path.location) (fs : Fs.filesystem) (fuel : nat) (filePath : jsstring),
    Path.climbs_first filePath = true ->
    Fs.well_formed fs = true ->
    Fs.depth fs < fuel ->
    (Fs.stat cwd filePath fs = Done Fs.Directory ->
     Path.locate cwd filePath <> [] ->
     exists fs',
       deleteFolderRecursively cwd fuel filePath fs = Some (Done tt, fs')
       /\ Fs.well_formed fs' = true
       /\ forall l, Fs.lookup l fs'
                    = if Fs.is_prefix (Path.locate cwd filePath) l then None
                      else Fs.lookup l fs)
    /\ (forall content,
           Fs.stat cwd filePath fs = Done (Fs.File content) ->
           deleteFolderRecursively cwd fuel filePath fs = Some (Thrown Fs.ENOTDIR, fs))
    /\ (forall e,
           Fs.stat cwd filePath fs = Thrown e ->
           deleteFolderRecursively cwd fuel filePath fs = Some (Done tt, fs)).
Proof.
  intros cwd fs fuel filePath _ Hwf Hfuel. split; [|split].
  - intros Hstat Hloc. exists (Fs.prune (Path.locate cwd filePath) fs).
    split; [|split].
    + destruct (stat_directory_inv cwd filePath fs Hstat) as [Hpath Hdir].
      apply delete_folder; try assumption. lia.
    + now apply well_formed_prune.
    + intros l. now apply lookup_prune.
  - intros content Hstat. destruct fuel as [|fuel]; [lia|].
    cbn [deleteFolderRecursively]. unfold Fs.existsSync. rewrite Hstat.
    unfold and_then_fueled, started, Fs.readdirSync. now rewrite Hstat.
  - intros e Hstat. destruct fuel as [|fuel]; [lia|].
    cbn [deleteFolderRecursively]. unfold Fs.existsSync. now rewrite Hstat.
Qed.

Lemma deleteFolderRecursively_deletes_the_branch_witness :
  exists fs',
    deleteFolderRecursively sample_cwd 6 EXTRACT_DIRECTORY sample_fs = Some (Done tt, fs')
    /\ Fs.well_formed fs' = true
    /\ forall l, Fs.lookup l fs'
                 = if Fs.is_prefix (Path.locate sample_cwd EXTRACT_DIRECTORY) l then None
                   else Fs.lookup l sample_fs.
Proof.
  apply (proj1 (deleteFolderRecursively_deletes_the_branch sample_cwd sample_fs 6
                  EXTRACT_DIRECTORY eq_refl eq_refl ltac:(vm_compute; lia)));
    [reflexivity|discriminate].
Defined.

(** ** The three temporary folders *)

(** The upload folder and the extraction folder are two entries of the
    temporary folder. *)
Lemma temp_locations (cwd : Path.location) :
  Path.locate cwd UPLOAD_DIRECTORY
    = Path.locate cwd TEMP_DIRECTORY ++ [str "rich-media-markup-uploads"]
  /\ Path.locate cwd EXTRACT_DIRECTORY
     = Path.locate cwd TEMP_DIRECTORY ++ [str "rich-media-markup-extracted"]
  /\ Path.locate cwd TEMP_DIRECTORY
     = removelast (removelast (removelast (removelast (removelast cwd)))) ++ [str "tmp"].
Proof. repeat split. Qed.

Lemma prune_nothing (l : Path.location) (fs : Fs.filesystem) :
  Fs.well_formed fs = true -> Fs.lookup l fs = None -> Fs.prune l fs = fs.
Proof.
  intros Hwf Hl. unfold Fs.prune. apply filter_all. intros [k e] Hin. simpl fst.
  now rewrite (nothing_below_nothing fs l k e Hwf Hl Hin).
Qed.

(** A path that names a directory or nothing: what is at it and below it
    is gone once [deleteFolderRecursively] returns. *)
Lemma delete_branch (cwd : Path.location) (fs : Fs.filesystem) (fuel : nat) (path : jsstring) :
  Fs.well_formed fs = true -> Fs.depth fs < fuel ->
  path <> [] -> Path.locate cwd path <> [] ->
  (forall content, Fs.lookup (Path.locate cwd path) fs <> Some (Fs.File content)) ->
  deleteFolderRecursively cwd fuel path fs
    = Some (Done tt, Fs.prune (Path.locate cwd path) fs).
Proof.
  intros Hwf Hfuel Hpath Hloc Hfile.
  destruct (Fs.lookup (Path.locate cwd path) fs) as [[content|]|] eqn:E.
  - now destruct (Hfile content).
  - apply delete_folder; try assumption. lia.
  - rewrite (prune_nothing _ fs Hwf E).
    destruct fuel as [|fuel]; [lia|].
    cbn [deleteFolderRecursively]. unfold Fs.existsSync.
    now rewrite (stat_absent cwd path fs E).
Qed.

Lemma delete_regular_file (cwd : Path.location) (fs : Fs.filesystem) (fuel : nat)
  (path content : jsstring) :
  0 < fuel -> path <> [] -> last_is slash path = false ->
  Fs.lookup (Path.locate cwd path) fs = Some (Fs.File content) ->
  deleteFolderRecursively cwd fuel path fs = Some (Thrown Fs.ENOTDIR, fs).
Proof.
  intros Hfuel Hpath Hlast E. destruct fuel as [|fuel]; [lia|].
  cbn [deleteFolderRecursively]. unfold Fs.existsSync.
  rewrite (stat_file cwd path content fs Hpath Hlast E).
  unfold and_then_fueled, started, Fs.readdirSync.
  now rewrite (stat_file cwd path content fs Hpath Hlast E).
Qed.

Lemma upload_not_above_extract (cwd : Path.location) (l : Path.location) :
  Fs.is_prefix (Path.locate cwd UPLOAD_DIRECTORY) (Path.locate cwd EXTRACT_DIRECTORY ++ l)
    = false.
Proof.
  destruct (temp_locations cwd) as (-> & -> & _).
  rewrite <- app_assoc. apply sibling_not_above. discriminate.
Qed.

Lemma temp_location_not_root (cwd : Path.location) :
  Path.locate cwd UPLOAD_DIRECTORY <> [] /\ Path.locate cwd EXTRACT_DIRECTORY <> []
  /\ Path.locate cwd TEMP_DIRECTORY <> [].
Proof.
  destruct (temp_locations cwd) as (-> & -> & ->).
  repeat split; intros E; apply app_eq_nil in E as [_ E]; try discriminate;
    apply app_eq_nil in E as [E _]; discriminate.
Qed.

Lemma remove_both (cwd : Path.location) (fs : Fs.filesystem) (fuel : nat) :
  Fs.well_formed fs = true -> Fs.depth fs < fuel ->
  (forall content,
      Fs.lookup (Path.locate cwd UPLOAD_DIRECTORY) fs <> Some (Fs.File content)) ->
  (forall content,
      Fs.lookup (Path.locate cwd EXTRACT_DIRECTORY) fs <> Some (Fs.File content)) ->
  removeTempFolders cwd fuel fs
    = Some (Done tt, Fs.prune (Path.locate cwd EXTRACT_DIRECTORY)
                       (Fs.prune (Path.locate cwd UPLOAD_DIRECTORY) fs)).
Proof.
  intros Hwf Hfuel Hupload Hextract.
  destruct (temp_location_not_root cwd) as (HU & HE & _).
  unfold removeTempFolders, and_then_fueled.
  rewrite (delete_branch cwd fs fuel UPLOAD_DIRECTORY Hwf Hfuel) by
    (try discriminate; assumption).
  apply delete_branch; try assumption; try discriminate.
  - now apply well_formed_prune.
  - unfold Fs.prune. pose proof (depth_filter
      (fun x => negb (Fs.is_prefix (Path.locate cwd UPLOAD_DIRECTORY) (fst x))) fs). lia.
  - intros content. rewrite (lookup_prune _ _ fs HU).
    pose proof (upload_not_above_extract cwd []) as E. rewrite app_nil_r in E.
    rewrite E. apply Hextract.
Qed.

Lemma lookup_without_both (cwd : Path.location) (fs : Fs.filesystem) (l : Path.location) :
  Fs.lookup l (Fs.prune (Path.locate cwd EXTRACT_DIRECTORY)
                 (Fs.prune (Path.locate cwd UPLOAD_DIRECTORY) fs))
    = if Fs.is_prefix (Path.locate cwd UPLOAD_DIRECTORY) l
         || Fs.is_prefix (Path.locate cwd EXTRACT_DIRECTORY) l
      then None else Fs.lookup l fs.
Proof.
  destruct (temp_location_not_root cwd) as (HU & HE & _).
  rewrite (lookup_prune _ _ _ HE), (lookup_prune _ _ _ HU).
  destruct (Fs.is_prefix (Path.locate cwd EXTRACT_DIRECTORY) l);
    [now rewrite orb_true_r|now rewrite orb_false_r].
Qed.

(** X15.  [removeTempFolders] on a well-formed file system, with fuel beyond
    its depth.  When neither the upload folder nor the extraction folder is
    a regular file, it returns, and afterwards no location at or below
    either folder holds an entry while every other location holds what it
    held, the temporary folder above them included.  When the upload folder
    is a regular file it throws [ENOTDIR] and removes nothing, the extraction
    folder being left as it was. *)
Theorem removeTempFolders_clears_both_folders :
  forall (cwd : Path.location) (fs : Fs.filesystem) (fuel : nat),
    Fs.well_formed fs = true ->
    Fs.depth fs < fuel ->
    ((forall content,
         Fs.lookup (Path.locate cwd UPLOAD_DIRECTORY) fs <> Some (Fs.File content)) ->
     (forall content,
         Fs.lookup (Path.locate cwd EXTRACT_DIRECTORY) fs <> Some (Fs.File content)) ->
     exists fs',
       removeTempFolders cwd fuel fs = Some (Done tt, fs')
       /\ Fs.well_formed fs' = true
       /\ forall l, Fs.lookup l fs'
                    = if Fs.is_prefix (Path.locate cwd UPLOAD_DIRECTORY) l
                         || Fs.is_prefix (Path.locate cwd EXTRACT_DIRECTORY) l
                      then None else Fs.lookup l fs)
    /\ (forall content,
           Fs.lookup (Path.locate cwd UPLOAD_DIRECTORY) fs = Some (Fs.File content) ->
           removeTempFolders cwd fuel fs = Some (Thrown Fs.ENOTDIR, fs)).
Proof.
  intros cwd fs fuel Hwf Hfuel.
  destruct (temp_location_not_root cwd) as (HU & HE & _). split.
  - intros Hupload Hextract.
    exists (Fs.prune (Path.locate cwd EXTRACT_DIRECTORY)
              (Fs.prune (Path.locate cwd UPLOAD_DIRECTORY) fs)).
    split; [now apply remove_both|]. split.
    + apply well_formed_prune; [exact HE|]. now apply well_formed_prune.
    + apply lookup_without_both.
  - intros content Hupload. unfold removeTempFolders, and_then_fueled.
    rewrite (delete_regular_file cwd fs fuel UPLOAD_DIRECTORY content); try reflexivity.
    + lia.
    + discriminate.
    + exact Hupload.
Qed.

Lemma removeTempFolders_clears_both_folders_witness :
  exists fs',
    removeTempFolders sample_cwd 6 sample_fs = Some (Done tt, fs')
    /\ Fs.well_formed fs' = true
    /\ forall l, Fs.lookup l fs'
                 = if Fs.is_prefix (Path.locate sample_cwd UPLOAD_DIRECTORY) l
                      || Fs.is_prefix (Path.locate sample_cwd EXTRACT_DIRECTORY) l
                   then None else Fs.lookup l sample_fs.
Proof.
  apply (proj1 (removeTempFolders_clears_both_folders sample_cwd sample_fs 6 eq_refl
                  ltac:(vm_compute; lia))); discriminate.
Defined.

(** ** Creating the temporary folders *)

Lemma lookup_app (l : Path.location) (fs more : Fs.filesystem) :
  Fs.lookup l (fs ++ more)
    = match Fs.lookup l fs with
      | Some e => Some e
      | None => Fs.lookup l more
      end.
Proof.
  destruct l as [|n l]; [reflexivity|]. unfold Fs.lookup.
  induction fs as [|x fs IH]; simpl.
  - now destruct (List.find _ more).
  - destruct (Fs.same (fst x) (n :: l)); [reflexivity|exact IH].
Qed.

Lemma lookup_created (l k : Path.location) (fs : Fs.filesystem) :
  Fs.lookup k fs = None ->
  Fs.lookup l (fs ++ [(k, Fs.Directory)])
    = if Fs.same k l then Some Fs.Directory else Fs.lookup l fs.
Proof.
  intros Hk. rewrite lookup_app. destruct (Fs.same k l) eqn:E.
  - apply same_eq in E. subst l. rewrite Hk.
    destruct k; [discriminate|]. unfold Fs.lookup. simpl. now rewrite jseq_refl, same_refl.
  - destruct (Fs.lookup l fs) as [e|] eqn:F; [reflexivity|].
    destruct l as [|n l]; [discriminate|]. unfold Fs.lookup. simpl fst. simpl.
    destruct k as [|m k]; [reflexivity|]. simpl in E. simpl. now rewrite E.
Qed.

Section Persisting.

Variable cwd : Path.location.

(** One of the three steps of [persistTempFolders]. *)
Let ensure (directory : jsstring) : action Fs.filesystem unit :=
  fun fs => if negb (Fs.existsSync cwd directory fs)
            then Fs.mkdirSync cwd directory fs else (Done tt, fs).

Lemma exists_after_more (path : jsstring) (fs more : Fs.filesystem) :
  Fs.existsSync cwd path fs = true -> Fs.existsSync cwd path (fs ++ more) = true.
Proof.
  unfold Fs.existsSync, Fs.stat. destruct path as [|x path]; [discriminate|].
  rewrite lookup_app. destruct (Fs.lookup _ fs) as [[content|]|]; try discriminate; auto.
Qed.

Lemma ensure_done (directory : jsstring) (fs fs' : Fs.filesystem) :
  ensure directory fs = (Done tt, fs') ->
  Fs.existsSync cwd directory fs' = true
  /\ (fs' = fs
      \/ (Fs.lookup (Path.locate cwd directory) fs = None
          /\ fs' = fs ++ [(Path.locate cwd directory, Fs.Directory)])).
Proof.
  unfold ensure. destruct (Fs.existsSync cwd directory fs) eqn:E; simpl.
  - intros H. injection H as <-. split; [exact E|now left].
  - unfold Fs.mkdirSync. destruct directory as [|x d]; [discriminate|].
    destruct (Fs.lookup (Path.locate cwd (x :: d)) fs) eqn:F; [discriminate|].
    destruct (Fs.lookup (removelast _) fs) as [[content|]|]; try discriminate.
    intros H. injection H as <-. split; [|right; now split].
    unfold Fs.existsSync, Fs.stat. rewrite (lookup_created _ _ fs F), same_refl. reflexivity.
Qed.

Lemma ensure_existing (directory : jsstring) (fs : Fs.filesystem) :
  Fs.existsSync cwd directory fs = true -> ensure directory fs = (Done tt, fs).
Proof. unfold ensure. now intros ->. Qed.

Lemma ensure_keeps (directory other : jsstring) (fs fs' : Fs.filesystem) :
  ensure directory fs = (Done tt, fs') ->
  Fs.existsSync cwd other fs = true -> Fs.existsSync cwd other fs' = true.
Proof.
  intros H Ho. apply ensure_done in H as [_ [->|[_ ->]]]; [exact Ho|].
  now apply exists_after_more.
Qed.

Lemma persist_steps (fs : Fs.filesystem) :
  persistTempFolders cwd fs
    = match ensure TEMP_DIRECTORY fs with
      | (Done _, fs1) =>
          match ensure UPLOAD_DIRECTORY fs1 with
          | (Done _, fs2) => ensure EXTRACT_DIRECTORY fs2
          | (Thrown e, fs2) => (Thrown e, fs2)
          end
      | (Thrown e, fs1) => (Thrown e, fs1)
      end.
Proof. reflexivity. Qed.

Lemma persist_done (fs fs' : Fs.filesystem) :
  persistTempFolders cwd fs = (Done tt, fs') ->
  exists fs1 fs2,
    ensure TEMP_DIRECTORY fs = (Done tt, fs1)
    /\ ensure UPLOAD_DIRECTORY fs1 = (Done tt, fs2)
    /\ ensure EXTRACT_DIRECTORY fs2 = (Done tt, fs').
Proof.
  rewrite persist_steps.
  destruct (ensure TEMP_DIRECTORY fs) as [[[]|e1] fs1] eqn:H1; [|discriminate].
  destruct (ensure UPLOAD_DIRECTORY fs1) as [[[]|e2] fs2] eqn:H2; [|discriminate].
  intros H. now exists fs1, fs2.
Qed.

(** X16.  [persistTempFolders] is idempotent: once it has returned, running
    it again returns again and changes nothing; what it found or made is
    found the second time, and [mkdirSync] is not called. *)
Theorem persistTempFolders_twice (fs fs' : Fs.filesystem) :
  persistTempFolders cwd fs = (Done tt, fs') ->
  persistTempFolders cwd fs' = (Done tt, fs').
Proof.
  intros H. apply persist_done in H as (fs1 & fs2 & H1 & H2 & H3).
  assert (E1 : Fs.existsSync cwd TEMP_DIRECTORY fs' = true).
  { apply (ensure_keeps _ _ _ _ H3), (ensure_keeps _ _ _ _ H2).
    now apply (ensure_done _ _ _ H1). }
  assert (E2 : Fs.existsSync cwd UPLOAD_DIRECTORY fs' = true).
  { apply (ensure_keeps _ _ _ _ H3). now apply (ensure_done _ _ _ H2). }
  assert (E3 : Fs.existsSync cwd EXTRACT_DIRECTORY fs' = true)
    by now apply (ensure_done _ _ _ H3).
  rewrite persist_steps.
  now rewrite (ensure_existing _ _ E1), (ensure_existing _ _ E2), (ensure_existing _ _ E3).
Qed.

Lemma ensure_missing (directory : jsstring) (fs : Fs.filesystem) :
  directory <> [] ->
  Fs.lookup (Path.locate cwd directory) fs = None ->
  Fs.lookup (removelast (Path.locate cwd directory)) fs = Some Fs.Directory ->
  ensure directory fs = (Done tt, fs ++ [(Path.locate cwd directory, Fs.Directory)]).
Proof.
  intros Hd Hl Hp. unfold ensure, Fs.existsSync, Fs.mkdirSync.
  rewrite (stat_absent cwd directory fs Hl). simpl negb. cbv iota.
  destruct directory; [contradiction|]. now rewrite Hl, Hp.
Qed.

(** A step on a folder that is a directory or missing, its parent being a
    directory: afterwards the folder is a directory, and nothing else has
    changed. *)
Lemma ensure_directory (directory : jsstring) (fs : Fs.filesystem) :
  directory <> [] ->
  (forall content, Fs.lookup (Path.locate cwd directory) fs <> Some (Fs.File content)) ->
  Fs.lookup (removelast (Path.locate cwd directory)) fs = Some Fs.Directory ->
  exists fs',
    ensure directory fs = (Done tt, fs')
    /\ Fs.lookup (Path.locate cwd directory) fs' = Some Fs.Directory
    /\ (forall l, l <> Path.locate cwd directory -> Fs.lookup l fs' = Fs.lookup l fs)
    /\ (forall l, Fs.children l fs' = Fs.children l fs
                  \/ (Fs.lookup (Path.locate cwd directory) fs = None
                      /\ l = removelast (Path.locate cwd directory))).
Proof.
  intros Hd Hfile Hparent.
  destruct (Fs.lookup (Path.locate cwd directory) fs) as [[content|]|] eqn:E.
  - now destruct (Hfile content).
  - exists fs. split; [|split; [exact E|split; [reflexivity|now left]]].
    apply ensure_existing. unfold Fs.existsSync.
    now rewrite (stat_directory cwd directory fs Hd E).
  - exists (fs ++ [(Path.locate cwd directory, Fs.Directory)]).
    split; [now apply ensure_missing|]. split; [|split].
    + now rewrite (lookup_created _ _ fs E), same_refl.
    + intros l Hl. rewrite (lookup_created _ _ fs E). rewrite same_neq; congruence.
    + intros l. unfold Fs.children. rewrite flat_map_app. cbn [flat_map fst].
      destruct (Fs.child_name l (Path.locate cwd directory)) as [n|] eqn:F.
      * right. split; [reflexivity|]. apply child_name_spec in F. rewrite F.
        now rewrite removelast_last.
      * left. now rewrite !app_nil_r.
Qed.

End Persisting.

Lemma persistTempFolders_twice_witness :
  persistTempFolders sample_cwd (snd (persistTempFolders sample_cwd [([str "srv"], Fs.Directory)]))
  = (Done tt, snd (persistTempFolders sample_cwd [([str "srv"], Fs.Directory)])).
Proof.
  apply (persistTempFolders_twice sample_cwd [([str "srv"], Fs.Directory)]). reflexivity.
Defined.

Lemma temp_locations_differ (cwd : Path.location) :
  Path.locate cwd UPLOAD_DIRECTORY <> Path.locate cwd TEMP_DIRECTORY
  /\ Path.locate cwd EXTRACT_DIRECTORY <> Path.locate cwd TEMP_DIRECTORY
  /\ Path.locate cwd EXTRACT_DIRECTORY <> Path.locate cwd UPLOAD_DIRECTORY.
Proof.
  destruct (temp_locations cwd) as (-> & -> & _).
  repeat split; intros E.
  - apply (f_equal (@length jsstring)) in E. rewrite length_app in E. simpl in E. lia.
  - apply (f_equal (@length jsstring)) in E. rewrite length_app in E. simpl in E. lia.
  - apply app_inv_head in E. discriminate.
Qed.

(** What the three steps of [persistTempFolders] come to when the folder
    above the temporary folder is a directory and none of the three folders
    is a regular file. *)
Lemma persist_creates (cwd : Path.location) (fs : Fs.filesystem) :
  Fs.lookup (removelast (Path.locate cwd TEMP_DIRECTORY)) fs = Some Fs.Directory ->
  (forall content, Fs.lookup (Path.locate cwd TEMP_DIRECTORY) fs <> Some (Fs.File content)) ->
  (forall content, Fs.lookup (Path.locate cwd UPLOAD_DIRECTORY) fs <> Some (Fs.File content)) ->
  (forall content, Fs.lookup (Path.locate cwd EXTRACT_DIRECTORY) fs <> Some (Fs.File content)) ->
  exists fs',
    persistTempFolders cwd fs = (Done tt, fs')
    /\ Fs.lookup (Path.locate cwd TEMP_DIRECTORY) fs' = Some Fs.Directory
    /\ Fs.lookup (Path.locate cwd UPLOAD_DIRECTORY) fs' = Some Fs.Directory
    /\ Fs.lookup (Path.locate cwd EXTRACT_DIRECTORY) fs' = Some Fs.Directory
    /\ (forall l,
           l <> Path.locate cwd TEMP_DIRECTORY ->
           l <> Path.locate cwd UPLOAD_DIRECTORY ->
           l <> Path.locate cwd EXTRACT_DIRECTORY ->
           Fs.lookup l fs' = Fs.lookup l fs)
    /\ (forall l,
           l <> Path.locate cwd TEMP_DIRECTORY ->
           l <> removelast (Path.locate cwd TEMP_DIRECTORY) ->
           Fs.children l fs' = Fs.children l fs).
Proof.
  intros Hparent HT HU HE.
  destruct (temp_locations_differ cwd) as (HUT & HET & HEU).
  destruct (temp_locations cwd) as (EU & EE & _).
  destruct (ensure_directory cwd TEMP_DIRECTORY fs ltac:(discriminate) HT Hparent)
    as (fs1 & R1 & T1 & K1 & C1).
  assert (PU : removelast (Path.locate cwd UPLOAD_DIRECTORY) = Path.locate cwd TEMP_DIRECTORY)
    by (rewrite EU; apply removelast_last).
  assert (PE : removelast (Path.locate cwd EXTRACT_DIRECTORY) = Path.locate cwd TEMP_DIRECTORY)
    by (rewrite EE; apply removelast_last).
  destruct (ensure_directory cwd UPLOAD_DIRECTORY fs1 ltac:(discriminate))
    as (fs2 & R2 & U2 & K2 & C2).
  { intros content. rewrite (K1 _ HUT). apply HU. }
  { now rewrite PU. }
  destruct (ensure_directory cwd EXTRACT_DIRECTORY fs2 ltac:(discriminate))
    as (fs3 & R3 & E3 & K3 & C3).
  { intros content. rewrite (K2 _ HEU), (K1 _ HET). apply HE. }
  { rewrite PE, K2 by congruence. exact T1. }
  exists fs3. split; [|split; [|split; [|split; [|split]]]].
  - rewrite persist_steps. cbv zeta. now rewrite R1, R2, R3.
  - rewrite K3, K2 by congruence. exact T1.
  - rewrite K3 by congruence. exact U2.
  - exact E3.
  - intros l H1 H2 H3. now rewrite K3, K2, K1.
  - intros l H1 H2.
    destruct (C3 l) as [->|[_ ->]]; [|now rewrite PE in H1].
    destruct (C2 l) as [->|[_ ->]]; [|now rewrite PU in H1].
    destruct (C1 l) as [->|[_ ->]]; [reflexivity|contradiction].
Qed.

(** X17.  [persistTempFolders], when the folder above the temporary folder
    is a directory and none of the three folders is a regular file: it
    returns, the three folders are directories afterwards, and every other
    location holds what it held. *)
Theorem persistTempFolders_makes_the_folders :
  forall (cwd : Path.location) (fs : Fs.filesystem),
    Fs.lookup (removelast (Path.locate cwd TEMP_DIRECTORY)) fs = Some Fs.Directory ->
    (forall content, Fs.lookup (Path.locate cwd TEMP_DIRECTORY) fs <> Some (Fs.File content)) ->
    (forall content,
        Fs.lookup (Path.locate cwd UPLOAD_DIRECTORY) fs <> Some (Fs.File content)) ->
    (forall content,
        Fs.lookup (Path.locate cwd EXTRACT_DIRECTORY) fs <> Some (Fs.File content)) ->
    exists fs',
      persistTempFolders cwd fs = (Done tt, fs')
      /\ Fs.lookup (Path.locate cwd TEMP_DIRECTORY) fs' = Some Fs.Directory
      /\ Fs.lookup (Path.locate cwd UPLOAD_DIRECTORY) fs' = Some Fs.Directory
      /\ Fs.lookup (Path.locate cwd EXTRACT_DIRECTORY) fs' = Some Fs.Directory
      /\ (forall l,
             l <> Path.locate cwd TEMP_DIRECTORY ->
             l <> Path.locate cwd UPLOAD_DIRECTORY ->
             l <> Path.locate cwd EXTRACT_DIRECTORY ->
             Fs.lookup l fs' = Fs.lookup l fs).
Proof.
  intros cwd fs Hparent HT HU HE.
  destruct (persist_creates cwd fs Hparent HT HU HE) as (fs' & R & T & U & E & K & _).
  exists fs'. repeat split; assumption.
Qed.

Lemma persistTempFolders_makes_the_folders_witness :
  exists fs',
    persistTempFolders sample_cwd [([str "srv"], Fs.Directory)] = (Done tt, fs')
    /\ Fs.lookup (Path.locate sample_cwd TEMP_DIRECTORY) fs' = Some Fs.Directory
    /\ Fs.lookup (Path.locate sample_cwd UPLOAD_DIRECTORY) fs' = Some Fs.Directory
    /\ Fs.lookup (Path.locate sample_cwd EXTRACT_DIRECTORY) fs' = Some Fs.Directory
    /\ (forall l,
           l <> Path.locate sample_cwd TEMP_DIRECTORY ->
           l <> Path.locate sample_cwd UPLOAD_DIRECTORY ->
           l <> Path.locate sample_cwd EXTRACT_DIRECTORY ->
           Fs.lookup l fs' = Fs.lookup l [([str "srv"], Fs.Directory)]).
Proof.
  apply (persistTempFolders_makes_the_folders sample_cwd [([str "srv"], Fs.Directory)]);
    [reflexivity|discriminate|discriminate|discriminate].
Defined.

Lemma not_above_shorter (a b : Path.location) :
  length b < length a -> Fs.is_prefix a b = false.
Proof.
  intros H. destruct (Fs.is_prefix a b) eqn:E; [|reflexivity].
  apply is_prefix_inv in E as [c ->]. rewrite length_app in H. lia.
Qed.

Lemma length_removelast (A : Type) (l : list A) : length (removelast l) = length l - 1.
Proof.
  induction l as [|x l' _] using rev_ind; [reflexivity|].
  rewrite removelast_last, length_app. simpl. lia.
Qed.

Lemma no_children (l : Path.location) (fs : Fs.filesystem) :
  (forall n, Fs.lookup (l ++ [n]) fs = None) -> Fs.children l fs = [].
Proof.
  intros H. destruct (Fs.children l fs) as [|n rest] eqn:E; [reflexivity|]. exfalso.
  assert (Hin : In n (Fs.children l fs)) by (rewrite E; now left).
  apply in_children in Hin as [e Hin]. apply in_keys_lookup in Hin as [e' He'].
  rewrite H in He'. discriminate.
Qed.

(** X18.  Removing the temporary folders and creating them again leaves both
    folders empty.  On a well-formed file system in which the temporary
    folder is a directory and neither of the two folders is a regular file,
    with fuel beyond its depth: [removeTempFolders] returns, then
    [persistTempFolders] returns, and afterwards the upload folder and the
    extraction folder are directories without an entry, while every location
    that is not at or below one of them holds what it held at the start. *)
Theorem temp_folders_start_empty :
  forall (cwd : Path.location) (fs : Fs.filesystem) (fuel : nat),
    Fs.well_formed fs = true ->
    Fs.depth fs < fuel ->
    Fs.lookup (Path.locate cwd TEMP_DIRECTORY) fs = Some Fs.Directory ->
    (forall content,
        Fs.lookup (Path.locate cwd UPLOAD_DIRECTORY) fs <> Some (Fs.File content)) ->
    (forall content,
        Fs.lookup (Path.locate cwd EXTRACT_DIRECTORY) fs <> Some (Fs.File content)) ->
    exists fs1 fs2,
      removeTempFolders cwd fuel fs = Some (Done tt, fs1)
      /\ persistTempFolders cwd fs1 = (Done tt, fs2)
      /\ Fs.lookup (Path.locate cwd UPLOAD_DIRECTORY) fs2 = Some Fs.Directory
      /\ Fs.children (Path.locate cwd UPLOAD_DIRECTORY) fs2 = []
      /\ Fs.lookup (Path.locate cwd EXTRACT_DIRECTORY) fs2 = Some Fs.Directory
      /\ Fs.children (Path.locate cwd EXTRACT_DIRECTORY) fs2 = []
      /\ (forall l,
             Fs.is_prefix (Path.locate cwd UPLOAD_DIRECTORY) l = false ->
             Fs.is_prefix (Path.locate cwd EXTRACT_DIRECTORY) l = false ->
             Fs.lookup l fs2 = Fs.lookup l fs).
Proof.
  intros cwd fs fuel Hwf Hfuel HT HU HE.
  destruct (temp_location_not_root cwd) as (NU & NE & NT).
  destruct (temp_locations_differ cwd) as (HUT & HET & HEU).
  destruct (temp_locations cwd) as (EU & EE & _).
  set (fs1 := Fs.prune (Path.locate cwd EXTRACT_DIRECTORY)
                (Fs.prune (Path.locate cwd UPLOAD_DIRECTORY) fs)).
  assert (L1 : forall l, Fs.lookup l fs1
                         = if Fs.is_prefix (Path.locate cwd UPLOAD_DIRECTORY) l
                              || Fs.is_prefix (Path.locate cwd EXTRACT_DIRECTORY) l
                           then None else Fs.lookup l fs)
    by (intros l; apply lookup_without_both).
  assert (AU : Fs.is_prefix (Path.locate cwd UPLOAD_DIRECTORY) (Path.locate cwd TEMP_DIRECTORY)
               = false) by (rewrite EU; apply not_above_parent).
  assert (AE : Fs.is_prefix (Path.locate cwd EXTRACT_DIRECTORY) (Path.locate cwd TEMP_DIRECTORY)
               = false) by (rewrite EE; apply not_above_parent).
  assert (T1 : Fs.lookup (Path.locate cwd TEMP_DIRECTORY) fs1 = Some Fs.Directory)
    by now rewrite L1, AU, AE.
  assert (BU : Fs.is_prefix (Path.locate cwd UPLOAD_DIRECTORY)
                 (removelast (Path.locate cwd TEMP_DIRECTORY)) = false).
  { apply not_above_shorter. rewrite EU, length_app, length_removelast. simpl.
    destruct (Path.locate cwd TEMP_DIRECTORY); [contradiction|simpl; lia]. }
  assert (BE : Fs.is_prefix (Path.locate cwd EXTRACT_DIRECTORY)
                 (removelast (Path.locate cwd TEMP_DIRECTORY)) = false).
  { apply not_above_shorter. rewrite EE, length_app, length_removelast. simpl.
    destruct (Path.locate cwd TEMP_DIRECTORY); [contradiction|simpl; lia]. }
  assert (P1 : Fs.lookup (removelast (Path.locate cwd TEMP_DIRECTORY)) fs1 = Some Fs.Directory).
  { rewrite L1, BU, BE. apply lookup_in in HT; [|exact NT].
    now destruct (well_formed_entry fs _ _ Hwf HT) as (_ & _ & Hp). }
  assert (U1 : forall l, Fs.is_prefix (Path.locate cwd UPLOAD_DIRECTORY) l = true ->
                         Fs.lookup l fs1 = None).
  { intros l Hl. now rewrite L1, Hl. }
  assert (E1 : forall l, Fs.is_prefix (Path.locate cwd EXTRACT_DIRECTORY) l = true ->
                         Fs.lookup l fs1 = None).
  { intros l Hl. now rewrite L1, Hl, orb_true_r. }
  destruct (persist_creates cwd fs1 P1) as (fs2 & R & T2 & U2 & E2 & K & C).
  { intros content. rewrite T1. discriminate. }
  { intros content. rewrite (U1 _ (is_prefix_refl _)). discriminate. }
  { intros content. rewrite (E1 _ (is_prefix_refl _)). discriminate. }
  exists fs1, fs2. split; [now apply remove_both|]. split; [exact R|].
  assert (RU : Path.locate cwd UPLOAD_DIRECTORY <> removelast (Path.locate cwd TEMP_DIRECTORY)).
  { intros F. rewrite <- F, is_prefix_refl in BU. discriminate. }
  assert (RE : Path.locate cwd EXTRACT_DIRECTORY <> removelast (Path.locate cwd TEMP_DIRECTORY)).
  { intros F. rewrite <- F, is_prefix_refl in BE. discriminate. }
  split; [exact U2|]. split.
  { rewrite (C _ HUT RU). apply no_children. intros n. apply U1, is_prefix_app. }
  split; [exact E2|]. split.
  { rewrite (C _ HET RE). apply no_children. intros n. apply E1, is_prefix_app. }
  intros l HlU HlE.
  destruct (Fs.same l (Path.locate cwd TEMP_DIRECTORY)) eqn:S.
  - apply same_eq in S. subst l. now rewrite T2, HT.
  - rewrite K.
    + now rewrite L1, HlU, HlE.
    + intros ->. now rewrite same_refl in S.
    + intros ->. now rewrite is_prefix_refl in HlU.
    + intros ->. now rewrite is_prefix_refl in HlE.
Qed.

Lemma temp_folders_start_empty_witness :
  exists fs1 fs2,
    removeTempFolders sample_cwd 6 sample_fs = Some (Done tt, fs1)
    /\ persistTempFolders sample_cwd fs1 = (Done tt, fs2)
    /\ Fs.lookup (Path.locate sample_cwd UPLOAD_DIRECTORY) fs2 = Some Fs.Directory
    /\ Fs.children (Path.locate sample_cwd UPLOAD_DIRECTORY) fs2 = []
    /\ Fs.lookup (Path.locate sample_cwd EXTRACT_DIRECTORY) fs2 = Some Fs.Directory
    /\ Fs.children (Path.locate sample_cwd EXTRACT_DIRECTORY) fs2 = []
    /\ (forall l,
           Fs.is_prefix (Path.locate sample_cwd UPLOAD_DIRECTORY) l = false ->
           Fs.is_prefix (Path.locate sample_cwd EXTRACT_DIRECTORY) l = false ->
           Fs.lookup l fs2 = Fs.lookup l sample_fs).
Proof.
  apply (temp_folders_start_empty sample_cwd sample_fs 6 eq_refl ltac:(vm_compute; lia));
    [reflexivity|discriminate|discriminate].
Defined.

(** ** The loop over the archives *)

Lemma split_from_pieces (c : char) (s cur : jsstring) :
  mem c cur = false ->
  forall piece, In piece (Js.split_from [c] s 0 cur) -> mem c piece = false.
Proof.
  revert cur. induction s as [|x s IH]; intros cur Hcur piece Hin.
  - destruct Hin as [<-|[]]. exact Hcur.
  - cbn [Js.split_from Js.starts_with length Nat.sub] in Hin.
    destruct (N.eqb c x) eqn:E; cbn [andb] in Hin.
    + destruct Hin as [<-|Hin]; [exact Hcur|]. now apply (IH []).
    + apply (IH (cur ++ [x])); [|exact Hin].
      rewrite mem_app, Hcur. unfold mem. simpl. now rewrite E.
Qed.

Lemma forallb_removelast (A : Type) (p : A -> bool) (l : list A) :
  forallb p l = true -> forallb p (removelast l) = true.
Proof.
  induction l as [|x l' _] using rev_ind; [trivial|].
  rewrite removelast_last, forallb_app. intros H. now apply andb_true_iff in H as [H _].
Qed.

Lemma step_names (here : Path.location) (segment : jsstring) :
  forallb Path.is_name here = true -> mem slash segment = false ->
  forallb Path.is_name (Path.step here segment) = true.
Proof.
  intros Hh Hs. unfold Path.step.
  destruct (jseq segment []) eqn:E1; [exact Hh|].
  destruct (jseq segment (str ".")) eqn:E2; [exact Hh|]. cbn [orb].
  destruct (jseq segment (str "..")) eqn:E3; [now apply forallb_removelast|].
  rewrite forallb_app, Hh. cbn [forallb andb]. unfold Path.is_name.
  now rewrite E1, E2, E3, Hs.
Qed.

Lemma walk_keeps_names (pieces : list jsstring) (here : Path.location) :
  (forall piece, In piece pieces -> mem slash piece = false) ->
  forallb Path.is_name here = true ->
  forallb Path.is_name (fold_left Path.step pieces here) = true.
Proof.
  revert here. induction pieces as [|piece pieces IH]; intros here Hpieces Hhere.
  - exact Hhere.
  - cbn [fold_left]. apply IH.
    + intros p Hp. apply Hpieces. now right.
    + apply step_names; [exact Hhere|]. apply Hpieces. now left.
Qed.

(** A location is made of names, when the working directory is. *)
Lemma locate_names (cwd : Path.location) (path : jsstring) :
  forallb Path.is_name cwd = true -> forallb Path.is_name (Path.locate cwd path) = true.
Proof.
  intros Hcwd. unfold Path.locate. apply walk_keeps_names.
  - apply (split_from_pieces slash path []). reflexivity.
  - destruct (Js.starts_with (str "/") path); [reflexivity|exact Hcwd].
Qed.

Lemma walk_names (l here : Path.location) :
  forallb Path.is_name l = true -> fold_left Path.step l here = here ++ l.
Proof.
  revert here. induction l as [|n l IH]; intros here H.
  - now rewrite app_nil_r.
  - cbn [forallb] in H. apply andb_true_iff in H as [Hn Hl].
    cbn [fold_left]. destruct (is_name_inv n Hn) as (_ & _ & Hstep).
    rewrite Hstep, (IH _ Hl), <- app_assoc. reflexivity.
Qed.

Lemma split_rendered (l : Path.location) :
  forallb Path.is_name l = true ->
  Js.split (str "/") (flat_map (fun segment => slash :: segment) l) = [] :: l.
Proof.
  induction l as [|n l IH] using rev_ind; intros H; [reflexivity|].
  rewrite forallb_app in H. apply andb_true_iff in H as [Hl Hn].
  cbn [forallb] in Hn. rewrite andb_true_r in Hn.
  destruct (is_name_inv n Hn) as (_ & Hslash & _).
  rewrite flat_map_app. cbn [flat_map]. rewrite app_nil_r.
  unfold Js.split in *. change (str "/") with [slash] in *.
  rewrite (split_from_snoc slash _ n [] Hslash).
  change ([] :: l ++ [n]) with (([] :: l) ++ [n]). f_equal. exact (IH Hl).
Qed.

(** Resolving a path and locating the result is locating the path. *)
Lemma locate_resolved (cwd : Path.location) (path : jsstring) :
  forallb Path.is_name cwd = true ->
  Path.locate cwd (Path.resolve cwd path) = Path.locate cwd path.
Proof.
  intros Hcwd. unfold Path.resolve.
  pose proof (locate_names cwd path Hcwd) as Hnames.
  destruct (Path.locate cwd path) as [|n l] eqn:E; [reflexivity|].
  unfold Path.locate at 1, Path.render.
  rewrite (split_rendered (n :: l) Hnames).
  cbn [flat_map app Js.starts_with str]. 
  change (Js.starts_with (str "/") (slash :: n ++ flat_map (fun segment => slash :: segment) l))
    with true.
  change (fold_left Path.step ([] :: n :: l) []) with (fold_left Path.step (n :: l) []).
  exact (walk_names (n :: l) [] Hnames).
Qed.

Lemma resolved_is_path (cwd : Path.location) (path : jsstring) : Path.resolve cwd path <> [].
Proof.
  unfold Path.resolve, Path.render. destruct (Path.locate cwd path); discriminate.
Qed.

Lemma validateFile_without_files (fileBaseName : jsstring) (exporter : option jsstring)
  (reader : jsstring -> outcome jsstring) :
  result (Handler.validateFile fileBaseName exporter [] reader)
    = Throws (str "Zip file does not contain a root .html file").
Proof.
  unfold Handler.validateFile. destruct exporter as [e|]; [|reflexivity].
  destruct (jseq e (str "gwd")); [reflexivity|].
  destruct (jseq e (str "conversion")); reflexivity.
Qed.

Section ArchiveLoop.

Variable cwd : Path.location.
Variable readdir : jsstring -> Fs.filesystem -> completion (list jsstring).
Variable services : Upload.environment jsstring.

Hypothesis cwd_names : forallb Path.is_name cwd = true.

(** A directory that is not there has no root file. *)
Lemma validate_missing_directory (fs : Fs.filesystem)
  (directoryToUpload fileBaseName : jsstring) (exporter : option jsstring) :
  Fs.lookup (Path.locate cwd directoryToUpload) fs = None ->
  Archives.validateFile cwd readdir services fs directoryToUpload fileBaseName exporter
    = Thrown (Error (str "Zip file does not contain a root .html file")).
Proof.
  intros H. unfold Archives.validateFile, Upload.getFiles.
  cbn [Archives.host Upload.existsSync Upload.resolve].
  assert (E : Fs.existsSync cwd (Path.resolve cwd directoryToUpload) fs = false).
  { unfold Fs.existsSync. rewrite stat_absent; [reflexivity|].
    now rewrite (locate_resolved cwd directoryToUpload cwd_names). }
  rewrite E. now rewrite validateFile_without_files.
Qed.

(** [removeTempFolders] throws, or leaves nothing at or below the two
    folders. *)
Lemma remove_or_throw (fs : Fs.filesystem) (fuel : nat) :
  Fs.well_formed fs = true -> Fs.depth fs < fuel ->
  (exists e fs', removeTempFolders cwd fuel fs = Some (Thrown e, fs'))
  \/ removeTempFolders cwd fuel fs
     = Some (Done tt, Fs.prune (Path.locate cwd EXTRACT_DIRECTORY)
                        (Fs.prune (Path.locate cwd UPLOAD_DIRECTORY) fs)).
Proof.
  intros Hwf Hfuel.
  destruct (temp_location_not_root cwd) as (HU & HE & _).
  assert (N : Fs.is_prefix (Path.locate cwd UPLOAD_DIRECTORY)
                (Path.locate cwd EXTRACT_DIRECTORY) = false).
  { pose proof (upload_not_above_extract cwd []) as N. now rewrite app_nil_r in N. }
  destruct (Fs.lookup (Path.locate cwd UPLOAD_DIRECTORY) fs) as [[content|]|] eqn:EU.
  { left. exists Fs.ENOTDIR, fs. unfold removeTempFolders, and_then_fueled.
    rewrite (delete_regular_file cwd fs fuel UPLOAD_DIRECTORY content); try reflexivity;
      [lia|discriminate|exact EU]. }
  all: assert (HUfile : forall c, Fs.lookup (Path.locate cwd UPLOAD_DIRECTORY) fs
                                  <> Some (Fs.File c)) by (intros c; rewrite EU; discriminate).
  all: destruct (Fs.lookup (Path.locate cwd EXTRACT_DIRECTORY) fs) as [[content|]|] eqn:EE.
  all: try (right; apply remove_both; try assumption; intros c; rewrite EE; discriminate).
  all: left; exists Fs.ENOTDIR, (Fs.prune (Path.locate cwd UPLOAD_DIRECTORY) fs).
  all: unfold removeTempFolders, and_then_fueled.
  all: rewrite (delete_branch cwd fs fuel UPLOAD_DIRECTORY Hwf Hfuel);
    [|discriminate|exact HU|exact HUfile].
  all: apply (delete_regular_file cwd _ fuel EXTRACT_DIRECTORY content);
    [lia|discriminate|reflexivity|now rewrite (lookup_prune _ _ fs HU), N].
Qed.

(** X19.  The loop of [handler] never gets through two archives.  On a
    well-formed file system, with fuel beyond its depth and a working
    directory made of names, when the second archive was extracted at or
    below the extraction folder, the loop over two archives or more throws:
    [removeTempFolders], called at the end of the first turn, has deleted
    what the second turn is to read.  When the first archive alone gets
    through, the error is [Zip file does not contain a root .html file],
    whatever the second archive held. *)
Theorem second_archive_is_never_uploaded
  (fuel : nat) (campaignId uploadId : jsstring) (exporter : option jsstring) (flags : bool)
  (first second : Archives.fileInfo) (rest : list Archives.fileInfo)
  (results : list jsstring) (fs : Fs.filesystem)
  (requests : list (Upload.request jsstring)) :
  Fs.well_formed fs = true ->
  Fs.depth fs < fuel ->
  Fs.is_prefix (Path.locate cwd EXTRACT_DIRECTORY)
    (Path.locate cwd (Archives.destinationDirectory second)) = true ->
  (exists e world,
      Archives.uploadArchives cwd readdir services fuel campaignId uploadId exporter flags
        (first :: second :: rest) results (fs, requests) = Some (Thrown e, world))
  /\ (forall results' world',
         Archives.uploadArchives cwd readdir services fuel campaignId uploadId exporter flags
           [first] results (fs, requests) = Some (Done results', world') ->
         Archives.uploadArchives cwd readdir services fuel campaignId uploadId exporter flags
           (first :: second :: rest) results (fs, requests)
         = Some (Thrown (Error (str "Zip file does not contain a root .html file")), world')).
Proof.
  intros Hwf Hfuel Hbelow.
  destruct (temp_location_not_root cwd) as (HU & HE & _).
  assert (Hgone : Fs.lookup (Path.locate cwd (Archives.destinationDirectory second))
                    (Fs.prune (Path.locate cwd EXTRACT_DIRECTORY)
                       (Fs.prune (Path.locate cwd UPLOAD_DIRECTORY) fs)) = None).
  { now rewrite (lookup_prune _ _ _ HE), Hbelow. }
  cbn [Archives.uploadArchives fst snd].
  destruct (Archives.validateFile cwd readdir services fs _ _ exporter) as [[]|e];
    [|split; [now exists e, (fs, requests)|discriminate]].
  destruct (Upload.uploadDirectoryToS3 _ campaignId _ _ uploadId exporter flags requests)
    as [[results1|e] requests1]; [|split; [now exists e, (fs, requests1)|discriminate]].
  destruct (remove_or_throw fs fuel Hwf Hfuel) as [(e & fs' & ->)| ->].
  - split; [now exists e, (fs', requests1)|discriminate].
  - rewrite (validate_missing_directory _ _ _ _ Hgone). split.
    + eexists _, _. reflexivity.
    + intros results' world' H. injection H as <- <-. reflexivity.
Qed.

End ArchiveLoop.

Lemma second_archive_is_never_uploaded_witness :
  exists world,
    Archives.uploadArchives sample_cwd files_below (sample_environment accepting) 7
      (str "42") (str "u1") (Some (str "conversion")) true [first_archive; second_archive] []
      (two_archives_fs, [])
    = Some (Thrown (Error (str "Zip file does not contain a root .html file")), world).
Proof.
  eexists.
  eapply (proj2 (second_archive_is_never_uploaded sample_cwd files_below
                   (sample_environment accepting) eq_refl 7 (str "42") (str "u1")
                   (Some (str "conversion")) true first_archive second_archive [] []
                   two_archives_fs [] eq_refl ltac:(vm_compute; lia) eq_refl)).
  vm_compute. reflexivity.
Defined.

(** ** A directory that is not there *)

(** X20.  When the directory of an archive does not exist, [getFiles] gives
    the empty list without calling [readdir]; [uploadDirectoryToS3] then
    returns the empty result, requests nothing and throws nothing; and
    [validateFile], given what [getFiles] gives, throws
    [Zip file does not contain a root .html file], in both handler files and
    for every type. *)
Theorem missing_directory_is_an_empty_archive :
  forall (Buffer : Type) (env : Upload.environment Buffer)
         (campaignId directoryToUpload fileBaseName uploadId : jsstring)
         (exporter : option jsstring) (flags : bool)
         (requests : list (Upload.request Buffer)),
    Upload.existsSync env (Upload.resolve env directoryToUpload) = false ->
    Upload.uploadDirectoryToS3 env campaignId directoryToUpload fileBaseName uploadId
      exporter flags requests = (Done [], requests)
    /\ forall files reader,
        Upload.getFiles env (Upload.resolve env directoryToUpload) = Done files ->
        run (Handler.validateFile fileBaseName exporter files reader)
          = (Throws (str "Zip file does not contain a root .html file"), [])
        /\ run (Part001.validateFile fileBaseName exporter files reader)
          = (Throws (str "Zip file does not contain a root .html file"), []).
Proof.
  intros Buffer env c dir name u exporter flags requests H.
  assert (E : Upload.getFiles env (Upload.resolve env dir) = Done []).
  { unfold Upload.getFiles. now rewrite H. }
  split.
  - unfold Upload.uploadDirectoryToS3, and_then, lift. now rewrite E.
  - intros files reader Hfiles. rewrite E in Hfiles. injection Hfiles as <-.
    split.
    + unfold Handler.validateFile. destruct exporter as [e|]; [|reflexivity].
      destruct (jseq e (str "gwd")); [reflexivity|].
      destruct (jseq e (str "conversion")); reflexivity.
    + reflexivity.
Qed.

Lemma missing_directory_is_an_empty_archive_witness :
  Upload.uploadDirectoryToS3 (sample_environment accepting) (str "42") (str "extracted/tower")
    (str "tower") (str "u1") (Some (str "gwd")) true [] = (Done [], []).
Proof.
  apply (missing_directory_is_an_empty_archive jsstring (sample_environment accepting)
           (str "42") (str "extracted/tower") (str "tower") (str "u1") (Some (str "gwd")) true []).
  reflexivity.
Defined.

(** ** Extracting *)

Section Extracting.

Variable W : Type.
Variable extract : jsstring -> jsstring -> W -> option error * W.

Lemma callbacks_agree (error : option error) :
  Extraction.callback_handler error = Extraction.callback_part001 error.
Proof. destruct error; reflexivity. Qed.

Lemma extract_versions_agree (filesInfo : list Archives.fileInfo) (w : W) :
  Extraction.extractFiles_handler extract filesInfo w
    = Extraction.extractFiles_part001 extract filesInfo w.
Proof.
  unfold Extraction.extractFiles_handler, Extraction.extractFiles_part001.
  revert w. induction filesInfo as [|file rest IH]; intros w; [reflexivity|].
  cbn [Extraction.extractFiles]. unfold and_then, try_catch.
  rewrite callbacks_agree.
  destruct (Extraction.await _) as [[]|e]; [apply IH|reflexivity].
Qed.

(** One archive: extracted, or the error wrapped. *)
Lemma extract_one (file : Archives.fileInfo) (rest : list Archives.fileInfo) (w : W) :
  Extraction.extractFiles_part001 extract (file :: rest) w
    = match extract (Archives.filePath file) (Archives.destinationDirectory file) w with
      | (None, w') => Extraction.extractFiles_part001 extract rest w'
      | (Some e, w') =>
          (Thrown (new_VError e (str "failed to extract " ++ Archives.filePath file)), w')
      end.
Proof.
  unfold Extraction.extractFiles_part001. cbn [Extraction.extractFiles].
  unfold and_then, try_catch, raise.
  destruct (extract (Archives.filePath file) (Archives.destinationDirectory file) w)
    as [[e|] w']; reflexivity.
Qed.

Lemma extract_app (pre post : list Archives.fileInfo) (w w1 : W) :
  Extraction.extractFiles_part001 extract pre w = (Done tt, w1) ->
  Extraction.extractFiles_part001 extract (pre ++ post) w
    = Extraction.extractFiles_part001 extract post w1.
Proof.
  revert w. induction pre as [|file pre IH]; intros w H.
  - injection H as <-. reflexivity.
  - cbn [app]. rewrite extract_one in *.
    destruct (extract (Archives.filePath file) (Archives.destinationDirectory file) w)
      as [[e|] w']; [discriminate|]. now apply IH.
Qed.

(** X21.  [extractFiles] takes the archives in order and stops at the first
    one that [extract] fails on: when the archives before it are extracted
    and [extract] gives its callback an error for it, [extractFiles] throws
    what [new VError(error, 'failed to extract <filePath>')] is, in the state
    the failed extraction left, and the archives after it are not extracted.
    When the path of the archive holds no [%], that is the [VError] with the
    message [failed to extract <filePath>] and the error as its cause.  The
    two handler files agree, on every list and in every state: that
    [src/handler.js] calls [resolve] after [reject] changes nothing. *)
Theorem extractFiles_stops_at_the_first_failure
  (pre post : list Archives.fileInfo) (file : Archives.fileInfo) (w w1 w2 : W) (e : error) :
  Extraction.extractFiles_part001 extract pre w = (Done tt, w1) ->
  extract (Archives.filePath file) (Archives.destinationDirectory file) w1 = (Some e, w2) ->
  Extraction.extractFiles_part001 extract (pre ++ file :: post) w
    = (Thrown (new_VError e (str "failed to extract " ++ Archives.filePath file)), w2)
  /\ Extraction.extractFiles_handler extract (pre ++ file :: post) w
     = (Thrown (new_VError e (str "failed to extract " ++ Archives.filePath file)), w2)
  /\ (mem Extsprintf.percent (Archives.filePath file) = false ->
      new_VError e (str "failed to extract " ++ Archives.filePath file)
        = VError e (str "failed to extract " ++ Archives.filePath file))
  /\ forall filesInfo w',
      Extraction.extractFiles_handler extract filesInfo w'
        = Extraction.extractFiles_part001 extract filesInfo w'.
Proof.
  intros Hpre Hfile.
  assert (E : Extraction.extractFiles_part001 extract (pre ++ file :: post) w
              = (Thrown (new_VError e (str "failed to extract " ++ Archives.filePath file)),
                 w2)).
  { rewrite (extract_app pre (file :: post) w w1 Hpre), extract_one. now rewrite Hfile. }
  split; [exact E|]. split; [now rewrite extract_versions_agree|]. split.
  - intros Hplain. apply new_VError_plain. rewrite mem_app, Hplain. reflexivity.
  - apply extract_versions_agree.
Qed.

End Extracting.

Lemma extractFiles_stops_at_the_first_failure_witness :
  Extraction.extractFiles_handler sample_extract [first_archive; broken_archive; second_archive] []
  = (Thrown (VError (Error (str "end of central directory record signature not found"))
               (str "failed to extract ../../../../../tmp/rich-media-markup-uploads/broken.zip")),
     [str "../../../../../tmp/rich-media-markup-extracted/banner"]).
Proof.
  refine (proj1 (proj2 (extractFiles_stops_at_the_first_failure (list jsstring) sample_extract
                         [first_archive] [second_archive] broken_archive []
                         [str "../../../../../tmp/rich-media-markup-extracted/banner"]
                         [str "../../../../../tmp/rich-media-markup-extracted/banner"]
                         (Error (str "end of central directory record signature not found"))
                         eq_refl eq_refl))).
Defined.

(** ** The root file among the uploaded objects *)

Lemma key_includes_base_name (filePath dir c name u : jsstring) :
  Lodash.includes name (str ".html") = true ->
  Lodash.includes (getS3UploadKey filePath dir c name u) (str ".html") = true.
Proof.
  unfold Lodash.includes.
  destruct (Js.indexOf (str ".html") name) as [i|] eqn:E; [|discriminate]. intros _.
  apply indexOf_some in E as (before & after & -> & _).
  unfold getS3UploadKey. cbv zeta.
  match goal with |- context [Js.indexOf _ ?k] =>
    replace k with ((c ++ str "/" ++ before) ++ str ".html"
                    ++ (after ++ str "_" ++ u ++ str "/"
                        ++ (if jseq (Js.first (Js.split (str "/")
                                                 (Js.replace (dir ++ str "/") [] filePath)))
                                 (before ++ str ".html" ++ after)
                            then Js.replace ((before ++ str ".html" ++ after) ++ str "/") []
                                   (Js.replace (dir ++ str "/") [] filePath)
                            else Js.replace (dir ++ str "/") [] filePath)))
      by (rewrite <- !app_assoc; reflexivity)
  end.
  exact (includes_middle _ _ _).
Qed.

(** X22.  When the base name of an archive contains [.html], every key
    [getS3UploadKey] gives for it contains [.html], so the object [handler]
    takes for the root file is the first file uploaded, whatever that file
    is. *)
Theorem archive_named_html_hides_the_root_file :
  forall (directoryToUpload campaignId fileBaseName uploadId first : jsstring)
         (rest : list jsstring),
    Lodash.includes fileBaseName (str ".html") = true ->
    uploadedRootHtmlFile
      (map (fun filePath =>
              getS3UploadKey filePath directoryToUpload campaignId fileBaseName uploadId)
         (first :: rest))
    = Some (getS3UploadKey first directoryToUpload campaignId fileBaseName uploadId).
Proof.
  intros dir c name u first rest H.
  unfold uploadedRootHtmlFile, Lodash.find. cbn [map List.find].
  now rewrite (key_includes_base_name first dir c name u H).
Qed.

Lemma archive_named_html_hides_the_root_file_witness :
  uploadedRootHtmlFile
    (map (fun filePath =>
            getS3UploadKey filePath (str "extracted/promo.html") (str "42") (str "promo.html")
              (str "u1"))
       [str "extracted/promo.html/logo.png"; str "extracted/promo.html/index.html"])
  = Some (str "42/promo.html_u1/logo.png").
Proof.
  apply (archive_named_html_hides_the_root_file (str "extracted/promo.html") (str "42")
           (str "promo.html") (str "u1") (str "extracted/promo.html/logo.png")
           [str "extracted/promo.html/index.html"]).
  reflexivity.
Defined.

(** A text without a slash that starts [a/b] starts [a]. *)
Lemma starts_with_before_slash (p a b : jsstring) :
  mem slash p = false ->
  Js.starts_with p (a ++ slash :: b) = true -> Js.starts_with p a = true.
Proof.
  unfold mem. revert a. induction p as [|x p IH]; intros a Hp H; [reflexivity|].
  cbn [existsb] in Hp. apply orb_false_iff in Hp as [Hx Hp].
  destruct a as [|y a]; cbn [app Js.starts_with] in *.
  - apply andb_true_iff in H as [H _]. apply N.eqb_eq in H. subst x.
    now rewrite N.eqb_refl in Hx.
  - apply andb_true_iff in H as [Hy H]. rewrite Hy. now apply IH.
Qed.

Lemma includes_after_slash (p a b : jsstring) :
  p <> [] -> mem slash p = false -> Lodash.includes a p = false ->
  Lodash.includes (a ++ str "/" ++ b) p = Lodash.includes b p.
Proof.
  intros Hne Hp. unfold Lodash.includes. change (str "/" ++ b) with (slash :: b).
  induction a as [|y a IH]; intros Ha.
  - cbn [app Js.indexOf].
    assert (E : Js.starts_with p (slash :: b) = false).
    { destruct p as [|x p]; [contradiction|]. cbn [Js.starts_with].
      unfold mem in Hp. cbn [existsb] in Hp. apply orb_false_iff in Hp as [Hx _].
      rewrite N.eqb_sym in Hx. now rewrite Hx. }
    rewrite E. now destruct (Js.indexOf p b).
  - cbn [Js.indexOf] in Ha. cbn [app Js.indexOf].
    destruct (Js.starts_with p (y :: a)) eqn:E; [discriminate|].
    assert (F : Js.starts_with p (y :: a ++ slash :: b) = false).
    { destruct (Js.starts_with p (y :: a ++ slash :: b)) eqn:F; [|reflexivity].
      apply (starts_with_before_slash p (y :: a) b Hp) in F. congruence. }
    rewrite F.
    assert (G : match Js.indexOf p a with Some _ => true | None => false end = false)
      by (destruct (Js.indexOf p a); [discriminate|reflexivity]).
    specialize (IH G).
    destruct (Js.indexOf p (a ++ slash :: b)), (Js.indexOf p b); try discriminate; reflexivity.
Qed.

Lemma includes_part (a p b q : jsstring) :
  Lodash.includes (a ++ p ++ b) q = false -> Lodash.includes p q = false.
Proof.
  intros H. destruct (Lodash.includes p q) eqn:E; [|reflexivity].
  unfold Lodash.includes in E. destruct (Js.indexOf q p) as [i|] eqn:F; [|discriminate].
  apply indexOf_some in F as (x & y & -> & _).
  replace (a ++ (x ++ q ++ y) ++ b) with ((a ++ x) ++ q ++ (y ++ b)) in H
    by (rewrite <- !app_assoc; reflexivity).
  now rewrite includes_middle in H.
Qed.

(** Whether a key contains [.html] is whether the path below the uploaded
    directory does, when the key folder does not. *)
Lemma key_is_html (dir rel c name u : jsstring) :
  Lodash.includes (c ++ str "/" ++ name ++ str "_" ++ u) (str ".html") = false ->
  Lodash.includes (getS3UploadKey (dir ++ str "/" ++ rel) dir c name u) (str ".html")
    = Lodash.includes rel (str ".html").
Proof.
  intros Hfolder. rewrite key_inside, key_folder_split.
  rewrite includes_after_slash; [|discriminate|reflexivity|exact Hfolder].
  destruct (jseq (Js.first (Js.split (str "/") rel)) name) eqn:E; [|reflexivity].
  apply jseq_eq in E. apply first_segment_inv in E as [[-> Hname]|[rest ->]].
  - rewrite replace_absent; [reflexivity|].
    unfold Lodash.includes.
    destruct (Js.indexOf (name ++ str "/") name) as [i|] eqn:F; [|reflexivity].
    apply indexOf_fits in F. rewrite length_app in F. simpl in F. lia.
  - assert (Hname : Lodash.includes name (str ".html") = false).
    { apply (includes_part (c ++ str "/") name (str "_" ++ u)).
      now rewrite <- !app_assoc. }
    replace (name ++ str "/" ++ rest) with ((name ++ str "/") ++ rest) at 1
      by now rewrite <- app_assoc.
    rewrite replace_prefix.
    symmetry. apply includes_after_slash; [discriminate|reflexivity|exact Hname].
Qed.

(** X23.  The object [handler] takes for the root file is the key of the
    file [validateZipFile] took for the root file, when neither the uploaded
    directory nor the key folder [campaignId/fileBaseName_uploadId] contains
    [.html]: among the files found under the directory, the first whose path
    contains [.html] is the first whose key does. *)
Theorem uploaded_root_is_the_validated_root :
  forall (directoryToUpload campaignId fileBaseName uploadId : jsstring)
         (below : list jsstring),
    Lodash.includes directoryToUpload (str ".html") = false ->
    Lodash.includes (campaignId ++ str "/" ++ fileBaseName ++ str "_" ++ uploadId)
      (str ".html") = false ->
    uploadedRootHtmlFile
      (map (fun filePath =>
              getS3UploadKey filePath directoryToUpload campaignId fileBaseName uploadId)
         (map (fun rel => directoryToUpload ++ str "/" ++ rel) below))
    = option_map
        (fun filePath =>
           getS3UploadKey filePath directoryToUpload campaignId fileBaseName uploadId)
        (Lodash.find (map (fun rel => directoryToUpload ++ str "/" ++ rel) below)
           (fun file => Lodash.includes file (str ".html"))).
Proof.
  intros dir c name u below Hdir Hfolder.
  unfold uploadedRootHtmlFile, Lodash.find.
  induction below as [|rel below IH]; [reflexivity|].
  cbn [map List.find].
  rewrite (key_is_html dir rel c name u Hfolder).
  rewrite (includes_after_slash (str ".html") dir rel); [|discriminate|reflexivity|exact Hdir].
  destruct (Lodash.includes rel (str ".html")); [reflexivity|exact IH].
Qed.

Lemma uploaded_root_is_the_validated_root_witness :
  uploadedRootHtmlFile
    (map (fun filePath =>
            getS3UploadKey filePath (str "extracted/banner") (str "42") (str "banner")
              (str "u1"))
       (map (fun rel => str "extracted/banner" ++ str "/" ++ rel)
          [str "banner/logo.png"; str "banner/index.html"]))
  = Some (str "42/banner_u1/index.html").
Proof.
  apply (uploaded_root_is_the_validated_root (str "extracted/banner") (str "42") (str "banner")
           (str "u1") [str "banner/logo.png"; str "banner/index.html"]); reflexivity.
Defined.
